(** * librseq: the per-CPU memory pool allocator (src/rseq-percpu-alloc.c)

    A shallow embedding of the allocator and of the pool set built on it.
    Machine integers are [Z] with the wrap-around written out, pointers are
    addresses in [Z] with [0] for [NULL], the process memory is a function
    from addresses to bytes, the static pool directory is a function from
    indices to pool structures, and a pointer to a pool is its directory
    index.  A C function that may hit a failed [assert] or leave the C
    abstract machine returns an [outcome]. *)

From Stdlib Require Import ZArith Lia Bool List.
From stdpp Require Import base numbers list functions relations.
From Equations Require Import Equations.
Import ListNotations.
Open Scope Z_scope.

(** ** Results of a C call *)

Inductive outcome (A : Type) : Type :=
| Ok (a : A)      (* the call returns *)
| Abort           (* an [assert] failed: the process aborts *)
| Undefined.      (* the call leaves the defined behaviour of C *)
Arguments Ok {A} a.
Arguments Abort {A}.
Arguments Undefined {A}.

#[global] Instance outcome_ret : MRet outcome := fun A a => Ok a.

#[global] Instance outcome_bind : MBind outcome := fun A B k x =>
  match x with
  | Ok a => k a
  | Abort => Abort
  | Undefined => Undefined
  end.

(** ** errno values (Linux) *)

Definition ENOENT : Z := 2.
Definition ENOMEM : Z := 12.
Definition EBUSY : Z := 16.
Definition EINVAL : Z := 22.

(** ** Memory: one byte per address *)

Definition memory := Z -> Z.

(** [memset(p, c, n)] *)
Definition memset (m : memory) (p c n : Z) : memory :=
  fun a => if (p <=? a) && (a <? p + n) then c else m a.

(** A pointer-sized store and load of [n] bytes, least significant byte
    first (the byte order plays no role in what follows). *)
Definition store_le (m : memory) (a : Z) (n : nat) (v : Z) : memory :=
  fun x => if (a <=? x) && (x <? a + Z.of_nat n)
           then (v / 256 ^ (x - a)) mod 256 else m x.

Fixpoint load_le (m : memory) (a : Z) (n : nat) : Z :=
  match n with
  | O => 0
  | S n' => m a + 256 * load_le m (a + 1) n'
  end.

(** ** The target: [#if RSEQ_BITS_PER_LONG == 64 ... #else ... #endif] *)

Inductive target := LP64 | ILP32.

Definition RSEQ_BITS_PER_LONG (tgt : target) : Z :=
  match tgt with LP64 => 64 | ILP32 => 32 end.

Definition POOL_INDEX_BITS (tgt : target) : Z :=
  match tgt with LP64 => 16 | ILP32 => 8 end.

Definition MAX_NR_POOLS (tgt : target) : Z := Z.shiftl 1 (POOL_INDEX_BITS tgt).

Definition POOL_INDEX_SHIFT (tgt : target) : Z :=
  RSEQ_BITS_PER_LONG tgt - POOL_INDEX_BITS tgt.

Definition MAX_POOL_LEN (tgt : target) : Z := Z.shiftl 1 (POOL_INDEX_SHIFT tgt).

Definition MAX_POOL_LEN_MASK (tgt : target) : Z := MAX_POOL_LEN tgt - 1.

Definition POOL_SET_NR_ENTRIES (tgt : target) : Z := POOL_INDEX_SHIFT tgt.

Definition POOL_SET_MIN_ENTRY (tgt : target) : Z :=
  match tgt with LP64 => 3 | ILP32 => 2 end.

Definition FIRST_POOL : Z := 1.

(** [sizeof(void * )] and [sizeof(unsigned long)], in bytes. *)
Definition sizeof_ptr (tgt : target) : Z := RSEQ_BITS_PER_LONG tgt / 8.

Definition BIT_PER_ULONG (tgt : target) : Z := 8 * sizeof_ptr tgt.

Definition UINTPTR_MAX (tgt : target) : Z := 2 ^ RSEQ_BITS_PER_LONG tgt - 1.

(** Conversion to [unsigned long], [size_t] or [uintptr_t]. *)
Definition wrap (tgt : target) (x : Z) : Z := x mod 2 ^ RSEQ_BITS_PER_LONG tgt.

(** Modelled from the spec: the robust flag of the public header
    rseq/percpu-alloc.h, which is not among the sources.  The spec only
    says that it is one flag bit and that every other bit is rejected; bit 0
    is taken here. *)
Definition RSEQ_POOL_ROBUST : Z := 1.

Definition RSEQ_POOL_FLAGS : Z := RSEQ_POOL_ROBUST.

(** Modelled from the spec: [rseq_get_count_order_ulong] of
    rseq-alloc-utils.h, which is not among the sources.  The spec calls it
    the ceiling of the binary logarithm (the order of the next power of
    two); the callers test its result for being negative, which is the
    answer for 0. *)
Definition rseq_get_count_order_ulong (x : Z) : Z :=
  if x =? 0 then -1 else Z.log2_up x.

(** Modelled from the spec: [rseq_align] of rseq-alloc-utils.h, which is not
    among the sources: round [v] up to a multiple of [align], in the
    unsigned arithmetic of the target. *)
Definition rseq_align (tgt : target) (v align : Z) : Z :=
  wrap tgt ((v + align - 1) / align * align).

(** ** Data structures *)

(** [struct rseq_mmap_attr].  A callback is modelled by what the allocator
    observes of it: its result and the value it leaves in [errno] (given the
    value before the call).  A null function pointer is [None]. *)
Record rseq_mmap_attr := {
  mmap_func : option (Z -> Z -> Z -> Z * Z);          (* priv, len, errno *)
  munmap_func : option (Z -> Z -> Z -> Z -> Z * Z);   (* priv, ptr, len, errno *)
  mmap_priv : Z
}.

(** [struct rseq_percpu_pool]; [free_bitmap] is [None] for a null pointer
    and otherwise holds the words of the allocated array. *)
Record rseq_percpu_pool := {
  base : Z;
  index : Z;
  item_len : Z;
  percpu_len : Z;
  item_order : Z;
  max_nr_cpus : Z;
  free_list_head : Z;
  next_unused : Z;
  mmap_attr : rseq_mmap_attr;
  free_bitmap : option (list Z)
}.

(** A zero-filled pool structure: static storage, or after the [memset] of
    [rseq_percpu_pool_destroy]. *)
Definition zero_pool : rseq_percpu_pool :=
  {| base := 0; index := 0; item_len := 0; percpu_len := 0; item_order := 0;
     max_nr_cpus := 0; free_list_head := 0; next_unused := 0;
     mmap_attr := {| mmap_func := None; munmap_func := None; mmap_priv := 0 |};
     free_bitmap := None |}.

Definition set_free_list_head (v : Z) (p : rseq_percpu_pool) : rseq_percpu_pool :=
  {| base := base p; index := index p; item_len := item_len p;
     percpu_len := percpu_len p; item_order := item_order p;
     max_nr_cpus := max_nr_cpus p; free_list_head := v;
     next_unused := next_unused p; mmap_attr := mmap_attr p;
     free_bitmap := free_bitmap p |}.

Definition set_next_unused (v : Z) (p : rseq_percpu_pool) : rseq_percpu_pool :=
  {| base := base p; index := index p; item_len := item_len p;
     percpu_len := percpu_len p; item_order := item_order p;
     max_nr_cpus := max_nr_cpus p; free_list_head := free_list_head p;
     next_unused := v; mmap_attr := mmap_attr p;
     free_bitmap := free_bitmap p |}.

Definition set_free_bitmap (v : option (list Z)) (p : rseq_percpu_pool) : rseq_percpu_pool :=
  {| base := base p; index := index p; item_len := item_len p;
     percpu_len := percpu_len p; item_order := item_order p;
     max_nr_cpus := max_nr_cpus p; free_list_head := free_list_head p;
     next_unused := next_unused p; mmap_attr := mmap_attr p;
     free_bitmap := v |}.

(** The process state the allocator works on: the static array
    [rseq_percpu_pool[MAX_NR_POOLS]], the memory, and [errno]. *)
Record state := {
  pools : Z -> rseq_percpu_pool;
  mem : memory;
  errno : Z
}.

Definition set_pool (i : Z) (p : rseq_percpu_pool) (s : state) : state :=
  {| pools := <[i := p]> (pools s); mem := mem s; errno := errno s |}.

Definition set_mem (m : memory) (s : state) : state :=
  {| pools := pools s; mem := m; errno := errno s |}.

Definition set_errno (e : Z) (s : state) : state :=
  {| pools := pools s; mem := mem s; errno := e |}.

(** The state at program start: every directory slot is zero. *)
Definition initial_state (m : memory) : state :=
  {| pools := fun _ => zero_pool; mem := m; errno := 0 |}.

(** [struct rseq_percpu_pool_set]: the array [entries[POOL_SET_NR_ENTRIES]]
    of pool pointers, one per order ([None] is a null entry). *)
Record rseq_percpu_pool_set := {
  entries : Z -> option Z
}.

(** ** The allocator *)

(** [a << n] on [int] (C11 6.5.7): defined when [a] and [n] are not
    negative, [n] is less than the width and the result fits in [int]. *)
Definition int_shl (a n : Z) : option Z :=
  if (0 <=? a) && (0 <=? n) && (n <? 32) && (a * 2 ^ n <? 2 ^ 31)
  then Some (a * 2 ^ n) else None.

Section Allocator.

Variable tgt : target.

(** The operating system behind the default backend: [mmap] and [munmap]
    of an anonymous private mapping, by their result and the [errno] they
    leave. *)
Variable sys_mmap : Z -> Z -> Z * Z.          (* len, errno *)
Variable sys_munmap : Z -> Z -> Z -> Z * Z.   (* ptr, len, errno *)

Definition MAP_FAILED : Z := wrap tgt (-1).

Definition __rseq_pool_percpu_ptr (pool : rseq_percpu_pool) (cpu item_offset : Z) : Z :=
  wrap tgt (base pool + wrap tgt (percpu_len pool * wrap tgt cpu) + item_offset).

Definition __rseq_percpu_ptr (ptr cpu : Z) (s : state) : outcome Z :=
  let item_offset := Z.land ptr (MAX_POOL_LEN_MASK tgt) in
  let pool_index := Z.shiftr ptr (POOL_INDEX_SHIFT tgt) in
  let pool := pools s pool_index in
  if cpu <? 0 then Abort
  else Ok (__rseq_pool_percpu_ptr pool cpu item_offset).

(** The loop of [rseq_percpu_zero_item]: [n] iterations are left and the
    loop variable is [i]. *)
Fixpoint zero_item_loop (pool : rseq_percpu_pool) (item_offset : Z)
    (n : nat) (i : Z) (m : memory) : memory :=
  match n with
  | O => m
  | S n' =>
      let p := __rseq_pool_percpu_ptr pool i item_offset in
      zero_item_loop pool item_offset n' (i + 1) (memset m p 0 (item_len pool))
  end.

Definition rseq_percpu_zero_item (pool : rseq_percpu_pool) (item_offset : Z)
    (m : memory) : memory :=
  zero_item_loop pool item_offset (Z.to_nat (max_nr_cpus pool)) 0 m.

Definition default_mmap_func (priv len e : Z) : Z * Z :=
  let '(b, e') := sys_mmap len e in
  if b =? MAP_FAILED then (0, e') else (b, e').

Definition default_munmap_func (priv ptr len e : Z) : Z * Z :=
  sys_munmap ptr len e.

(** [calloc_ok] tells whether the [calloc] of the bitmap succeeds; a [calloc]
    that fails sets [errno] to [ENOMEM].  The result is the bitmap and the
    value of [errno] after the call, [e] being its value before. *)
Definition create_free_bitmap (calloc_ok : bool) (item_len : Z) (e : Z)
    : option (list Z) * Z :=
  let count := wrap tgt (item_len + BIT_PER_ULONG tgt - 1) / BIT_PER_ULONG tgt in
  if calloc_ok then (Some (replicate (Z.to_nat count) 0), e) else (None, ENOMEM).

Fixpoint destroy_free_bitmap_loop (bitmap : list Z) (n : nat) (k : nat) : outcome unit :=
  match n with
  | O => Ok tt
  | S n' =>
      match bitmap !! k with
      | None => Undefined
      | Some w => if w =? 0 then destroy_free_bitmap_loop bitmap n' (S k) else Abort
      end
  end.

Definition destroy_free_bitmap (bitmap : option (list Z)) (item_len : Z) : outcome unit :=
  match bitmap with
  | None => Ok tt
  | Some b =>
      let count := wrap tgt (item_len + BIT_PER_ULONG tgt - 1) / BIT_PER_ULONG tgt in
      destroy_free_bitmap_loop b (Z.to_nat count) 0%nat
  end.

(** The scan of the directory for an empty slot: [n] slots are left and the
    next one is [i]. *)
Fixpoint find_empty_pool (dir : Z -> rseq_percpu_pool) (n : nat) (i : Z) : option Z :=
  match n with
  | O => None
  | S n' => if base (dir i) =? 0 then Some i else find_empty_pool dir n' (i + 1)
  end.

(** [page_len] is the result of [rseq_get_page_len()]. *)
Definition rseq_percpu_pool_create (page_len : Z) (calloc_ok : bool)
    (item_len percpu_len max_nr_cpus : Z) (mmap_attr : option rseq_mmap_attr)
    (flags : Z) (s : state) : outcome (option Z * state) :=
  if negb (Z.land flags (Z.lnot RSEQ_POOL_FLAGS) =? 0) then
    Ok (None, set_errno EINVAL s)
  else
    let item_len := if item_len <? sizeof_ptr tgt then sizeof_ptr tgt else item_len in
    let order := rseq_get_count_order_ulong item_len in
    if order <? 0 then Ok (None, set_errno EINVAL s)
    else if RSEQ_BITS_PER_LONG tgt <=? order then Undefined   (* 1UL << order *)
    else
      let item_len := Z.shiftl 1 order in
      let percpu_len := rseq_align tgt percpu_len page_len in
      if (max_nr_cpus <? 0) || (percpu_len <? item_len)
         || (Z.shiftr (UINTPTR_MAX tgt) (POOL_INDEX_BITS tgt) <? percpu_len) then
        Ok (None, set_errno EINVAL s)
      else
        let attr :=
          match mmap_attr with
          | Some a => a
          | None => {| mmap_func := Some default_mmap_func;
                       munmap_func := Some default_munmap_func;
                       mmap_priv := 0 |}
          end in
        match find_empty_pool (pools s)
                (Z.to_nat (MAX_NR_POOLS tgt - FIRST_POOL)) FIRST_POOL with
        | None => Ok (None, set_errno ENOMEM s)
        | Some i =>
            match mmap_func attr with
            | None => Undefined
            | Some f =>
                let '(b, e) := f (mmap_priv attr) (wrap tgt (percpu_len * max_nr_cpus))
                                 (errno s) in
                if b =? 0 then Ok (None, set_errno e s)
                else
                  let old := pools s i in
                  (* the bitmap, and [errno] after its allocation *)
                  let bm :=
                    if negb (Z.land RSEQ_POOL_ROBUST flags =? 0)
                    then create_free_bitmap calloc_ok (Z.shiftr percpu_len order) e
                    else (free_bitmap old, e) in
                  let pool :=
                    {| base := b; index := i; item_len := item_len;
                       percpu_len := percpu_len; item_order := order;
                       max_nr_cpus := max_nr_cpus;
                       free_list_head := free_list_head old;
                       next_unused := next_unused old;
                       mmap_attr := attr;
                       free_bitmap := fst bm |} in
                  Ok (Some i, set_pool i pool (set_errno (snd bm) s))
            end
        end.

(** The result is [(return value, state)].  As in the source, every path
    sets [ret] and reaches the label [end], after which the function ends in
    [return 0]. *)
Definition rseq_percpu_pool_destroy (pool : Z) (s : state) : outcome (Z * state) :=
  let p := pools s pool in
  '(ret, s') ←
    (if base p =? 0 then Ok (-1, set_errno ENOENT s)
     else
       match munmap_func (mmap_attr p) with
       | None => Undefined
       | Some f =>
           let '(ret, e) := f (mmap_priv (mmap_attr p)) (base p)
                              (wrap tgt (percpu_len p * max_nr_cpus p)) (errno s) in
           if negb (ret =? 0) then Ok (ret, set_errno e s)
           else
             _ ← destroy_free_bitmap (free_bitmap p)
                   (Z.shiftr (percpu_len p) (item_order p));
             Ok (ret, set_pool pool zero_pool (set_errno e s))
       end);
  Ok (0, s').

Definition mask_free_slot (bitmap : option (list Z)) (item_index : Z)
    : outcome (option (list Z)) :=
  match bitmap with
  | None => Ok None
  | Some b =>
      let k := Z.to_nat (item_index / BIT_PER_ULONG tgt) in
      (* 1ULL << ..., converted to unsigned long *)
      let mask := wrap tgt (Z.shiftl 1 (item_index mod BIT_PER_ULONG tgt) mod 2 ^ 64) in
      match b !! k with
      | None => Undefined
      | Some w =>
          if Z.land w mask =? 0 then Ok (Some (<[k := Z.lor w mask]> b))
          else Abort
      end
  end.

Definition __rseq_percpu_malloc (pool : Z) (zeroed : bool) (s : state)
    : outcome (Z * state) :=
  let p := pools s pool in
  let node := free_list_head p in
  '(addr, item_offset, s1) ←
    (if negb (node =? 0) then
       let p' := set_free_list_head
                   (load_le (mem s) node (Z.to_nat (sizeof_ptr tgt))) p in
       let item_offset := wrap tgt (node - base p) in
       let addr := Z.lor (wrap tgt (Z.shiftl (index p) (POOL_INDEX_SHIFT tgt)))
                         item_offset in
       Ok (addr, item_offset, set_pool pool p' s)
     else if percpu_len p <? wrap tgt (next_unused p + item_len p) then
       Ok (0, 0, set_errno ENOMEM s)   (* item_offset is not set, nor read *)
     else
       let item_offset := next_unused p in
       let addr := Z.lor (wrap tgt (Z.shiftl (index p) (POOL_INDEX_SHIFT tgt)))
                         item_offset in
       let p' := set_next_unused (wrap tgt (next_unused p + item_len p)) p in
       bm ← mask_free_slot (free_bitmap p') (Z.shiftr item_offset (item_order p'));
       Ok (addr, item_offset, set_pool pool (set_free_bitmap bm p') s));
  if zeroed && negb (addr =? 0) then
    Ok (addr, set_mem (rseq_percpu_zero_item (pools s1 pool) item_offset (mem s1)) s1)
  else Ok (addr, s1).

Definition rseq_percpu_malloc (pool : Z) (s : state) : outcome (Z * state) :=
  __rseq_percpu_malloc pool false s.

Definition rseq_percpu_zmalloc (pool : Z) (s : state) : outcome (Z * state) :=
  __rseq_percpu_malloc pool true s.

Definition unmask_free_slot (bitmap : option (list Z)) (item_index : Z)
    : outcome (option (list Z)) :=
  match bitmap with
  | None => Ok None
  | Some b =>
      let k := Z.to_nat (item_index / BIT_PER_ULONG tgt) in
      (* 1 << ..., an int, converted to unsigned long *)
      match int_shl 1 (item_index mod BIT_PER_ULONG tgt) with
      | None => Undefined
      | Some v =>
          let mask := wrap tgt v in
          match b !! k with
          | None => Undefined
          | Some w =>
              if Z.land w mask =? mask
              then Ok (Some (<[k := Z.land w (wrap tgt (Z.lnot mask))]> b))
              else Abort
          end
      end
  end.

Definition rseq_percpu_free (ptr : Z) (s : state) : outcome state :=
  let item_offset := Z.land ptr (MAX_POOL_LEN_MASK tgt) in
  let pool_index := Z.shiftr ptr (POOL_INDEX_SHIFT tgt) in
  let p := pools s pool_index in
  bm ← unmask_free_slot (free_bitmap p) (Z.shiftr item_offset (item_order p));
  let p := set_free_bitmap bm p in
  let head := free_list_head p in
  let item := __rseq_pool_percpu_ptr p 0 item_offset in
  let m := store_le (mem s) item (Z.to_nat (sizeof_ptr tgt)) head in
  Ok (set_mem m (set_pool pool_index (set_free_list_head item p) s)).

(** ** The pool set *)

Definition rseq_percpu_pool_set_create (calloc_ok : bool) : option rseq_percpu_pool_set :=
  if calloc_ok then Some {| entries := fun _ => None |} else None.

Definition rseq_percpu_pool_set_add_pool (pool_set : rseq_percpu_pool_set)
    (pool : Z) (s : state) : outcome (Z * rseq_percpu_pool_set * state) :=
  let item_order := wrap tgt (item_order (pools s pool)) in
  if POOL_SET_NR_ENTRIES tgt <=? item_order then Undefined   (* outside entries[] *)
  else
    match entries pool_set item_order with
    | Some _ => Ok (-1, pool_set, set_errno EBUSY s)
    | None => Ok (0, {| entries := <[item_order := Some pool]> (entries pool_set) |}, s)
    end.

(** The [for] loop of [__rseq_percpu_pool_set_malloc]: [n] orders are left,
    the next one is [order]; the result is the value of [order] and of
    [pool] at the label [found]. *)
Fixpoint pool_set_find (s : state) (pool_set : rseq_percpu_pool_set) (len : Z)
    (n : nat) (order : Z) : Z * option Z :=
  match n with
  | O => (order, None)
  | S n' =>
      match entries pool_set order with
      | None => pool_set_find s pool_set len n' (order + 1)
      | Some pool =>
          if len <=? item_len (pools s pool) then (order, Some pool)
          else pool_set_find s pool_set len n' (order + 1)
      end
  end.

Definition inspect {A} (a : A) : {b | a = b} := exist _ a eq_refl.

(** The code from the label [again] on, with the current [min_order]. *)
Equations? pool_set_malloc_again (pool_set : rseq_percpu_pool_set) (len : Z)
    (zeroed : bool) (min_order : Z) (s : state) : outcome (Z * state)
    by wf (Z.to_nat (POOL_SET_NR_ENTRIES tgt - min_order)) lt :=
  pool_set_malloc_again pool_set len zeroed min_order s
    with inspect (pool_set_find s pool_set len
                    (Z.to_nat (POOL_SET_NR_ENTRIES tgt - min_order)) min_order) := {
    | exist _ (order, Some pool) Hfind
        with __rseq_percpu_malloc pool zeroed s := {
        | Ok (addr, s') =>
            if (addr =? 0) && (errno s' =? ENOMEM)
            then pool_set_malloc_again pool_set len zeroed (order + 1) s'
            else Ok (addr, s')
        | Abort => Abort
        | Undefined => Undefined };
    | exist _ (order, None) Hfind => Ok (0, set_errno ENOMEM s) }.
Proof.
  clear pool_set_malloc_again.
  assert (Hrange : forall n o, pool_set_find s pool_set len n o = (order, Some pool) ->
                               o <= order < o + Z.of_nat n).
  { induction n as [|n IH]; intros o; simpl; [discriminate|].
    destruct (entries pool_set o) as [q|].
    - destruct (len <=? item_len (pools s q)).
      + intros [= <- <-]. lia.
      + intros H. apply IH in H. lia.
    - intros H. apply IH in H. lia. }
  apply Hrange in Hfind. lia.
Qed.

Definition __rseq_percpu_pool_set_malloc (pool_set : rseq_percpu_pool_set)
    (len : Z) (zeroed : bool) (s : state) : outcome (Z * state) :=
  let order := rseq_get_count_order_ulong len in
  let min_order :=
    if POOL_SET_MIN_ENTRY tgt <? order then order else POOL_SET_MIN_ENTRY tgt in
  pool_set_malloc_again pool_set len zeroed min_order s.

Definition rseq_percpu_pool_set_malloc (pool_set : rseq_percpu_pool_set)
    (len : Z) (s : state) : outcome (Z * state) :=
  __rseq_percpu_pool_set_malloc pool_set len false s.

Definition rseq_percpu_pool_set_zmalloc (pool_set : rseq_percpu_pool_set)
    (len : Z) (s : state) : outcome (Z * state) :=
  __rseq_percpu_pool_set_malloc pool_set len true s.

(** The loop of [rseq_percpu_pool_set_destroy]: [n] orders are left and the
    next one is [order].  The first component of the result is [Some ret]
    when the loop is left through [return ret]. *)
Fixpoint pool_set_destroy_loop (n : nat) (order : Z)
    (pool_set : rseq_percpu_pool_set) (s : state)
    : outcome (option Z * rseq_percpu_pool_set * state) :=
  match n with
  | O => Ok (None, pool_set, s)
  | S n' =>
      match entries pool_set order with
      | None => pool_set_destroy_loop n' (order + 1) pool_set s
      | Some pool =>
          '(ret, s') ← rseq_percpu_pool_destroy pool s;
          if negb (ret =? 0) then Ok (Some ret, pool_set, s')
          else pool_set_destroy_loop n' (order + 1)
                 {| entries := <[order := None]> (entries pool_set) |} s'
      end
  end.

(** The result is the return value, the pool set unless it was freed, and
    the state. *)
Definition rseq_percpu_pool_set_destroy (pool_set : rseq_percpu_pool_set)
    (s : state) : outcome (Z * option rseq_percpu_pool_set * state) :=
  '(r, pool_set', s') ←
    pool_set_destroy_loop
      (Z.to_nat (POOL_SET_NR_ENTRIES tgt - POOL_SET_MIN_ENTRY tgt))
      (POOL_SET_MIN_ENTRY tgt) pool_set s;
  match r with
  | Some ret => Ok (ret, Some pool_set', s')
  | None => Ok (0, None, s')
  end.

(** ** Mapping attributes *)

(** [calloc_ok] tells whether the [calloc] of the attribute succeeds. *)
Definition rseq_mmap_attr_create (calloc_ok : bool)
    (mmap_func : option (Z -> Z -> Z -> Z * Z))
    (munmap_func : option (Z -> Z -> Z -> Z -> Z * Z))
    (mmap_priv : Z) : option rseq_mmap_attr :=
  if calloc_ok
  then Some {| mmap_func := mmap_func; munmap_func := munmap_func;
               mmap_priv := mmap_priv |}
  else None.

End Allocator.

(** ** The pointer arithmetic of rseq/mempool.h *)

Definition RSEQ_MEMPOOL_STRIDE : Z := Z.shiftl 1 16.

(** Conversion to [unsigned int]. *)
Definition to_uint (x : Z) : Z := x mod 2 ^ 32.

(** The stride the macro [rseq_percpu_ptr] works with, as a [uintptr_t]:
    the optional argument, or the default stride when it is left out
    ([None]). *)
Definition stride_of (tgt : target) (stride : option Z) : Z :=
  match stride with
  | Some v => wrap tgt v
  | None => wrap tgt RSEQ_MEMPOOL_STRIDE
  end.

(** The macro [rseq_percpu_ptr(_ptr, _cpu, _stride...)]. *)
Definition rseq_percpu_ptr (tgt : target) (ptr cpu : Z) (stride : option Z) : Z :=
  wrap tgt (wrap tgt ptr + wrap tgt (wrap tgt (to_uint cpu) * stride_of tgt stride)).

(** ** Invariants of a live pool *)

Section Invariants.

Variable tgt : target.

(** The free list as it lies in memory: [L] lists the item offsets of the
    nodes from the head on; each node is in the slice of CPU 0, at
    [base + offset], and starts with the pointer to the next node. *)
Fixpoint free_list (m : memory) (b head : Z) (L : list Z) : Prop :=
  match L with
  | [] => head = 0
  | off :: L' =>
      head = b + off
      /\ free_list m b (load_le m head (Z.to_nat (sizeof_ptr tgt))) L'
  end.

(** An offset that was handed out at least once. *)
Definition valid_offset (p : rseq_percpu_pool) (off : Z) : Prop :=
  0 <= off < next_unused p /\ (item_len p | off).

(** The mapping [base, base + percpu_len * max_nr_cpus) lies in the address
    space and has at least the slice of CPU 0. *)
Definition pool_mapped (p : rseq_percpu_pool) : Prop :=
  0 < base p /\ 0 <= percpu_len p /\ 1 <= max_nr_cpus p
  /\ base p + percpu_len p * max_nr_cpus p <= 2 ^ RSEQ_BITS_PER_LONG tgt.

(** The pool at directory index [pool] is live and its free list is [L]. *)
Record pool_wf (s : state) (pool : Z) (L : list Z) : Prop := {
  wf_slot : 1 <= pool < MAX_NR_POOLS tgt;
  wf_index : index (pools s pool) = pool;
  wf_mapped : pool_mapped (pools s pool);
  wf_order : 0 <= item_order (pools s pool)
             /\ item_len (pools s pool) = 2 ^ item_order (pools s pool);
  wf_item : sizeof_ptr tgt <= item_len (pools s pool) <= percpu_len (pools s pool);
  wf_stride : percpu_len (pools s pool) <= MAX_POOL_LEN_MASK tgt;
  wf_next : 0 <= next_unused (pools s pool) <= percpu_len (pools s pool)
            /\ (item_len (pools s pool) | next_unused (pools s pool));
  wf_list : free_list (mem s) (base (pools s pool))
              (free_list_head (pools s pool)) L;
  wf_offs : Forall (valid_offset (pools s pool)) L;
  wf_nodup : List.NoDup L
}.

(** The two tests of [__rseq_percpu_malloc] that lead to [ENOMEM]. *)
Definition exhausted (p : rseq_percpu_pool) : bool :=
  (free_list_head p =? 0)
  && (percpu_len p <? wrap tgt (next_unused p + item_len p)).

(** The handle of the item at [off] in the pool at directory index [pool]. *)
Definition handle_of (pool off : Z) : Z := pool * 2 ^ POOL_INDEX_SHIFT tgt + off.

(** The fields of a pool that [malloc] and [free] never write. *)
Definition same_geometry (p q : rseq_percpu_pool) : Prop :=
  base q = base p /\ index q = index p /\ item_len q = item_len p
  /\ percpu_len q = percpu_len p /\ item_order q = item_order p
  /\ max_nr_cpus q = max_nr_cpus p.

(** The bit of slot [item_index] in a bitmap. *)
Definition slot_bit (bitmap : list Z) (item_index : Z) : option bool :=
  match bitmap !! Z.to_nat (item_index / BIT_PER_ULONG tgt) with
  | Some w => Some (Z.testbit w (item_index mod BIT_PER_ULONG tgt))
  | None => None
  end.

(** The bitmap of a robust pool has a clear bit for every slot the bump
    cursor has not reached. *)
Definition bitmap_wf (p : rseq_percpu_pool) : Prop :=
  match free_bitmap p with
  | None => True
  | Some b =>
      forall idx,
        Z.shiftr (next_unused p) (item_order p) <= idx
          < Z.shiftr (percpu_len p) (item_order p) ->
        slot_bit b idx = Some false
  end.


(** Every pool of the set is live. *)
Definition pool_set_wf (s : state) (pool_set : rseq_percpu_pool_set) : Prop :=
  forall order pool, entries pool_set order = Some pool ->
    exists L, pool_wf s pool L.

(** The item length [rseq_percpu_pool_create] settles on: raised to the size
    of a pointer, then to the next power of two. *)
Definition rounded_item_len (item_len : Z) : Z :=
  Z.shiftl 1 (rseq_get_count_order_ulong
                (if item_len <? sizeof_ptr tgt then sizeof_ptr tgt else item_len)).

(** The bitmap of a robust pool has one word for every [BIT_PER_ULONG]
    slots of the stride, as [create_free_bitmap] allocates it. *)
Definition bitmap_sized (p : rseq_percpu_pool) : Prop :=
  match free_bitmap p with
  | None => True
  | Some b =>
      Z.of_nat (length b)
      = wrap tgt (Z.shiftr (percpu_len p) (item_order p) + BIT_PER_ULONG tgt - 1)
        / BIT_PER_ULONG tgt
  end.

(** A pool without bitmap whose unmapping callback answers 0 whatever
    [errno] holds. *)
Definition unmappable (p : rseq_percpu_pool) : Prop :=
  base p <> 0 /\ free_bitmap p = None
  /\ exists g, munmap_func (mmap_attr p) = Some g
       /\ forall e, fst (g (mmap_priv (mmap_attr p)) (base p)
                           (wrap tgt (percpu_len p * max_nr_cpus p)) e) = 0.

End Invariants.

(** Every directory slot without a mapping is zero-filled: the slots of the
    static array that were never used, and those [rseq_percpu_pool_destroy]
    has cleared. *)
Definition dir_clean (s : state) : Prop :=
  forall i, base (pools s i) = 0 -> pools s i = zero_pool.

(** ** Clients of a pool *)

(** The bytes of the mapping of a pool. *)
Definition in_mapping (p : rseq_percpu_pool) (x : Z) : Prop :=
  base p <= x < base p + percpu_len p * max_nr_cpus p.

(** The mappings of two pools do not overlap. *)
Definition disjoint_mappings (p q : rseq_percpu_pool) : Prop :=
  forall x, in_mapping p x -> ~ in_mapping q x.

Section Clients.

Variable tgt : target.

(** One step of a client of the pool at directory index [pool] that frees
    and writes live items only; the second component lists the offsets of
    the live items. *)
Inductive pool_step (pool : Z) : state * list Z -> state * list Z -> Prop :=
| step_malloc s A zeroed h s' :
    __rseq_percpu_malloc tgt pool zeroed s = Ok (h, s') -> h <> 0 ->
    pool_step pool (s, A) (s', Z.land h (MAX_POOL_LEN_MASK tgt) :: A)
| step_malloc_null s A zeroed s' :
    __rseq_percpu_malloc tgt pool zeroed s = Ok (0, s') ->
    pool_step pool (s, A) (s', A)
| step_free s A off s' :
    In off A ->
    rseq_percpu_free tgt (handle_of tgt pool off) s = Ok s' ->
    pool_step pool (s, A) (s', List.remove Z.eq_dec off A)
| step_store s A off cpu k v a :
    In off A -> 0 <= k < item_len (pools s pool) ->
    __rseq_percpu_ptr tgt (handle_of tgt pool off) cpu s = Ok a ->
    cpu < max_nr_cpus (pools s pool) ->
    pool_step pool (s, A) (set_mem (<[a + k := v]> (mem s)) s, A).

(** The invariant of such runs: the pool is live, and the live items are the
    offsets handed out that are not in the free list. *)
Definition pool_inv (pool : Z) (c : state * list Z) : Prop :=
  exists L, pool_wf tgt (fst c) pool L
    /\ forall off, In off (snd c)
         <-> valid_offset (pools (fst c) pool) off /\ ~ In off L.

End Clients.

(** ** Scenarios *)

(** A mapping backend that maps at the address [b], an unmapping that
    succeeds, and a pair of callbacks of which the unmapping fails. *)
Definition mmap_at (b len e : Z) : Z * Z := (b, e).

Definition munmap_ok (ptr len e : Z) : Z * Z := (0, e).

Definition failing_munmap_attr (b : Z) : rseq_mmap_attr :=
  {| mmap_func := Some (fun _ _ e => (b, e));
     munmap_func := Some (fun _ _ _ _ => (-1, EINVAL));
     mmap_priv := 0 |}.

Definition state_of {A} (r : outcome (A * state)) (d : state) : state :=
  match r with
  | Ok (_, s) => s
  | _ => d
  end.

Definition aborts {A} (r : outcome A) : bool :=
  match r with
  | Abort => true
  | _ => false
  end.

(** A process on the 64-bit target whose memory holds 0xff everywhere, and
    pool creation in it with 4 kB pages and the default backend. *)
Definition boot : state := initial_state (fun _ => 255).

Definition create64 (item_len percpu_len max_nr_cpus flags : Z) (s : state)
    : outcome (option Z * state) :=
  rseq_percpu_pool_create LP64 (mmap_at 1048576) munmap_ok 4096 true
    item_len percpu_len max_nr_cpus None flags s.

(** One pool of 32-byte items, 64 kB per CPU, 4 CPUs. *)
Definition demo_state : state := state_of (create64 32 65536 4 0 boot) boot.

(** One pool whose stride holds a single item, after that item was
    allocated. *)
Definition full_state : state :=
  let s := state_of (create64 4096 4096 1 0 boot) boot in
  state_of (rseq_percpu_malloc LP64 1 s) s.

(** [n] allocations in a row; the handles come in allocation order. *)
Fixpoint malloc_n (tgt : target) (pool : Z) (n : nat) (s : state)
    : outcome (list Z * state) :=
  match n with
  | O => Ok ([], s)
  | S n' =>
      '(h, s1) ← rseq_percpu_malloc tgt pool s;
      '(hs, s2) ← malloc_n tgt pool n' s1;
      Ok (h :: hs, s2)
  end.

(** The frees of the handles [hs], in this order. *)
Fixpoint free_all (tgt : target) (hs : list Z) (s : state) : outcome state :=
  match hs with
  | [] => Ok s
  | h :: hs' => s1 ← rseq_percpu_free tgt h s; free_all tgt hs' s1
  end.

(** The bit of the slot of the handle [h] in the bitmap of its pool. *)
Definition handle_bit (tgt : target) (s : state) (h : Z) : option bool :=
  let p := pools s (Z.shiftr h (POOL_INDEX_SHIFT tgt)) in
  match free_bitmap p with
  | Some b =>
      slot_bit tgt b (Z.shiftr (Z.land h (MAX_POOL_LEN_MASK tgt)) (item_order p))
  | None => None
  end.

(** A robust pool: allocate, free, allocate again; the result is the two
    handles, the bit of the slot after the second allocation, and whether
    freeing the second handle aborts. *)
Definition robust_reuse : outcome (Z * Z * option bool * bool) :=
  '(p, s1) ← create64 8 4096 1 RSEQ_POOL_ROBUST boot;
  match p with
  | None => Abort
  | Some p =>
      '(h, s2) ← rseq_percpu_malloc LP64 p s1;
      s3 ← rseq_percpu_free LP64 h s2;
      '(h', s4) ← rseq_percpu_malloc LP64 p s3;
      Ok (h, h', handle_bit LP64 s4 h', aborts (rseq_percpu_free LP64 h' s4))
  end.

(** A robust pool: allocate [n] items and free the last one. *)
Definition robust_free_last (n : nat) : outcome state :=
  '(p, s1) ← create64 8 4096 1 RSEQ_POOL_ROBUST boot;
  match p with
  | None => Abort
  | Some p =>
      '(hs, s2) ← malloc_n LP64 p n s1;
      rseq_percpu_free LP64 (List.last hs 0) s2
  end.

(** A pool whose unmapping callback fails, and its destruction. *)
Definition destroy_with_failing_munmap : outcome (Z * state) :=
  '(p, s1) ← rseq_percpu_pool_create LP64 (mmap_at 1048576) munmap_ok 4096 true
               8 4096 1 (Some (failing_munmap_attr 1048576)) 0 boot;
  match p with
  | None => Abort
  | Some p => rseq_percpu_pool_destroy LP64 p s1
  end.

(** The state after a call of [rseq_percpu_free] that returns. *)
Definition state_after_free (tgt : target) (h : Z) (s : state) : state :=
  match rseq_percpu_free tgt h s with
  | Ok s' => s'
  | _ => s
  end.

(** The steps of the scenario [h1 = malloc; h2 = malloc; free(h1); free(h2)]
    on [demo_state]. *)
Definition lifo_h1 : Z := handle_of LP64 1 0.
Definition lifo_h2 : Z := handle_of LP64 1 32.
Definition lifo_s1 : state := state_of (rseq_percpu_malloc LP64 1 demo_state) demo_state.
Definition lifo_s2 : state := state_of (rseq_percpu_malloc LP64 1 lifo_s1) lifo_s1.
Definition lifo_s3 : state := state_after_free LP64 lifo_h1 lifo_s2.
Definition lifo_s4 : state := state_after_free LP64 lifo_h2 lifo_s3.

(** A pool set that holds the pool of [demo_state]. *)
Definition demo_set : rseq_percpu_pool_set :=
  {| entries := <[5 := Some 1]> (fun _ => None) |}.

(** A pool of 131073 CPUs with a stride of [2^47]: the length of its mapping
    does not fit a [size_t]. *)
Definition overflow_state : state :=
  state_of (create64 16 (2 ^ 47) 131073 0 boot) boot.

(** A directory without a free slot. *)
Definition busy_state : state :=
  {| pools := fun _ =>
       {| base := 4096; index := 0; item_len := 8; percpu_len := 4096;
          item_order := 3; max_nr_cpus := 1; free_list_head := 0;
          next_unused := 0; mmap_attr := mmap_attr zero_pool;
          free_bitmap := None |};
     mem := fun _ => 0; errno := 0 |}.

(** A robust pool of 8-byte items, 4 kB per CPU, 1 CPU, and the state after
    one allocation from it. *)
Definition robust_state : state :=
  state_of (create64 8 4096 1 RSEQ_POOL_ROBUST boot) boot.

Definition robust_s1 : state :=
  state_of (rseq_percpu_malloc LP64 1 robust_state) robust_state.

(** The robust pool after that item was freed. *)
Definition robust_s2 : state := state_after_free LP64 (handle_of LP64 1 0) robust_s1.

(** A second pool beside the pool of [demo_state], mapped at another
    address. *)
Definition two_pools_state : state :=
  state_of (rseq_percpu_pool_create LP64 (mmap_at 2097152) munmap_ok 4096 true
              64 65536 2 None 0 demo_state) demo_state.

(** The mapping callbacks of an application, the attribute that holds them,
    and a pool created with it. *)
Definition app_mmap (priv len e : Z) : Z * Z := (priv + 4096, e).

Definition app_munmap (priv ptr len e : Z) : Z * Z := (0, e).

Definition app_attr : rseq_mmap_attr :=
  {| mmap_func := Some app_mmap; munmap_func := Some app_munmap;
     mmap_priv := 1044480 |}.

Definition app_state : state :=
  state_of (rseq_percpu_pool_create LP64 (mmap_at 1048576) munmap_ok 4096 true
              16 8192 2 (Some app_attr) 0 boot) boot.

(** A robust pool created with it, the [calloc] of the bitmap failing. *)
Definition app_robust_state : state :=
  state_of (rseq_percpu_pool_create LP64 (mmap_at 1048576) munmap_ok 4096 false
              16 8192 2 (Some app_attr) RSEQ_POOL_ROBUST boot) boot.

(** The state after the destruction of [demo_set]. *)
Definition set_destroyed_state : state :=
  state_of (rseq_percpu_pool_set_destroy LP64 demo_set demo_state) demo_state.

(** * Properties *)

(** ** Memory *)

Lemma memset_in m p c n a : p <= a < p + n -> memset m p c n a = c.
Proof.
  intros H. unfold memset.
  destruct (Z.leb_spec p a), (Z.ltb_spec a (p + n)); simpl; auto; lia.
Qed.

Lemma memset_out m p c n a : a < p \/ p + n <= a -> memset m p c n a = m a.
Proof.
  intros H. unfold memset.
  destruct (Z.leb_spec p a), (Z.ltb_spec a (p + n)); simpl; auto; lia.
Qed.

Lemma store_le_in m a n v x :
  a <= x < a + Z.of_nat n -> store_le m a n v x = (v / 256 ^ (x - a)) mod 256.
Proof.
  intros H. unfold store_le.
  destruct (Z.leb_spec a x), (Z.ltb_spec x (a + Z.of_nat n)); simpl; auto; lia.
Qed.

Lemma store_le_out m a n v x :
  x < a \/ a + Z.of_nat n <= x -> store_le m a n v x = m x.
Proof.
  intros H. unfold store_le.
  destruct (Z.leb_spec a x), (Z.ltb_spec x (a + Z.of_nat n)); simpl; auto; lia.
Qed.

Lemma load_le_ext m1 m2 n : forall a,
  (forall x, a <= x < a + Z.of_nat n -> m1 x = m2 x) ->
  load_le m1 a n = load_le m2 a n.
Proof.
  induction n as [|n IH]; intros a H; simpl; [reflexivity|].
  rewrite (H a) by lia. rewrite (IH (a + 1)); [reflexivity|].
  intros x Hx. apply H. lia.
Qed.

Lemma load_store_le_part m a n v : forall j k,
  0 <= k -> k + Z.of_nat j <= Z.of_nat n ->
  load_le (store_le m a n v) (a + k) j = (v / 256 ^ k) mod 256 ^ Z.of_nat j.
Proof.
  induction j as [|j IH]; intros k Hk Hn.
  - simpl. now rewrite Z.mod_1_r.
  - cbn [load_le]. rewrite store_le_in by lia.
    replace (a + k - a) with k by lia.
    replace (a + k + 1) with (a + (k + 1)) by lia.
    rewrite IH by lia.
    rewrite Nat2Z.inj_succ, Z.pow_succ_r by lia.
    rewrite Z.pow_add_r, Z.pow_1_r by lia.
    rewrite <- Z.div_div by (try apply Z.pow_pos_nonneg; lia).
    rewrite Z.rem_mul_r by (try apply Z.pow_nonzero; try apply Z.pow_pos_nonneg; lia).
    reflexivity.
Qed.

Lemma load_store_le m a n v :
  0 <= v < 256 ^ Z.of_nat n -> load_le (store_le m a n v) a n = v.
Proof.
  intros Hv. replace a with (a + 0) at 2 by lia.
  rewrite load_store_le_part by lia.
  rewrite Z.pow_0_r, Z.div_1_r. apply Z.mod_small, Hv.
Qed.

Lemma load_store_le_disjoint m a n v b k :
  b + Z.of_nat k <= a \/ a + Z.of_nat n <= b ->
  load_le (store_le m a n v) b k = load_le m b k.
Proof.
  intros H. apply load_le_ext. intros x Hx. apply store_le_out. lia.
Qed.

(** ** The target constants *)

Section TargetFacts.

Variable tgt : target.

Lemma bits_per_long_split :
  RSEQ_BITS_PER_LONG tgt = POOL_INDEX_BITS tgt + POOL_INDEX_SHIFT tgt
  /\ 0 < POOL_INDEX_BITS tgt /\ 0 < POOL_INDEX_SHIFT tgt.
Proof. destruct tgt; cbv; repeat split; reflexivity. Qed.

Lemma MAX_NR_POOLS_pow : MAX_NR_POOLS tgt = 2 ^ POOL_INDEX_BITS tgt.
Proof. destruct tgt; reflexivity. Qed.

Lemma MAX_POOL_LEN_pow : MAX_POOL_LEN tgt = 2 ^ POOL_INDEX_SHIFT tgt.
Proof. destruct tgt; reflexivity. Qed.

Lemma word_modulus_split :
  2 ^ RSEQ_BITS_PER_LONG tgt = 2 ^ POOL_INDEX_BITS tgt * 2 ^ POOL_INDEX_SHIFT tgt.
Proof. destruct tgt; reflexivity. Qed.

Lemma word_modulus_bytes :
  256 ^ Z.of_nat (Z.to_nat (sizeof_ptr tgt)) = 2 ^ RSEQ_BITS_PER_LONG tgt.
Proof. destruct tgt; reflexivity. Qed.

Lemma sizeof_ptr_pos : 0 < sizeof_ptr tgt.
Proof. destruct tgt; reflexivity. Qed.

Lemma pow_shift_pos : 0 < 2 ^ POOL_INDEX_SHIFT tgt.
Proof. destruct tgt; reflexivity. Qed.

Lemma wrap_small x : 0 <= x < 2 ^ RSEQ_BITS_PER_LONG tgt -> wrap tgt x = x.
Proof. intros H. unfold wrap. now apply Z.mod_small. Qed.

Lemma wrap_range x : 0 <= wrap tgt x < 2 ^ RSEQ_BITS_PER_LONG tgt.
Proof. unfold wrap. apply Z.mod_pos_bound. destruct tgt; reflexivity. Qed.

(** *** The handle codec *)

Lemma handle_encode idx off :
  0 <= idx < 2 ^ POOL_INDEX_BITS tgt -> 0 <= off < 2 ^ POOL_INDEX_SHIFT tgt ->
  Z.lor (wrap tgt (Z.shiftl idx (POOL_INDEX_SHIFT tgt))) off
  = idx * 2 ^ POOL_INDEX_SHIFT tgt + off.
Proof.
  intros Hi Ho.
  destruct bits_per_long_split as (HW & HI & HS).
  rewrite Z.shiftl_mul_pow2 by lia.
  rewrite wrap_small by (rewrite word_modulus_split; nia).
  rewrite <- Z.lxor_lor, <- Z.add_nocarry_lxor; try reflexivity.
  all: apply Z.bits_inj'; intros n Hn; rewrite Z.land_spec, Z.bits_0.
  all: destruct (Z.ltb_spec n (POOL_INDEX_SHIFT tgt)).
  all: try (rewrite Z.mul_pow2_bits_low by lia; reflexivity).
  all: rewrite (Z.bits_above_log2 off n); [apply andb_false_r| lia |].
  all: destruct (Z.eq_dec off 0) as [->|]; [simpl; lia|].
  all: apply Z.lt_le_trans with (POOL_INDEX_SHIFT tgt); [|lia].
  all: apply Z.log2_lt_pow2; lia.
Qed.

Lemma handle_pool_index idx off :
  0 <= off < 2 ^ POOL_INDEX_SHIFT tgt ->
  Z.shiftr (idx * 2 ^ POOL_INDEX_SHIFT tgt + off) (POOL_INDEX_SHIFT tgt) = idx.
Proof.
  intros Ho. destruct bits_per_long_split as (HW & HI & HS).
  rewrite Z.shiftr_div_pow2 by lia.
  rewrite Z.div_add_l by lia. rewrite Z.div_small by lia. lia.
Qed.

Lemma handle_item_offset idx off :
  0 <= off < 2 ^ POOL_INDEX_SHIFT tgt ->
  Z.land (idx * 2 ^ POOL_INDEX_SHIFT tgt + off) (MAX_POOL_LEN_MASK tgt) = off.
Proof.
  intros Ho. destruct bits_per_long_split as (HW & HI & HS).
  unfold MAX_POOL_LEN_MASK. rewrite MAX_POOL_LEN_pow.
  replace (2 ^ POOL_INDEX_SHIFT tgt - 1) with (Z.ones (POOL_INDEX_SHIFT tgt))
    by (rewrite Z.ones_equiv; lia).
  rewrite Z.land_ones by lia.
  rewrite Z.add_comm, Z.mod_add by lia. now apply Z.mod_small.
Qed.

End TargetFacts.

(** ** Addresses of the CPU slices *)

Section PoolFacts.

Variable tgt : target.

Lemma percpu_ptr_exact p cpu off :
  pool_mapped tgt p -> 0 <= cpu < max_nr_cpus p -> 0 <= off < percpu_len p ->
  __rseq_pool_percpu_ptr tgt p cpu off = base p + percpu_len p * cpu + off.
Proof.
  intros (Hb & Hl & Hc & Hm) Hcpu Hoff. unfold __rseq_pool_percpu_ptr.
  assert (percpu_len p * cpu + percpu_len p <= percpu_len p * max_nr_cpus p) by nia.
  assert (0 <= percpu_len p * cpu) by nia.
  rewrite (wrap_small tgt cpu) by nia.
  rewrite (wrap_small tgt (percpu_len p * cpu)) by lia.
  apply wrap_small. lia.
Qed.

Lemma pool_wf_offset_bound s pool L :
  pool_wf tgt s pool L ->
  percpu_len (pools s pool) < 2 ^ POOL_INDEX_SHIFT tgt
  /\ 0 < item_len (pools s pool)
  /\ 0 <= pool < 2 ^ POOL_INDEX_BITS tgt.
Proof.
  intros [Hslot _ _ _ Hitem Hstride _ _ _ _].
  unfold MAX_POOL_LEN_MASK in Hstride.
  rewrite MAX_POOL_LEN_pow in Hstride. rewrite MAX_NR_POOLS_pow in Hslot.
  pose proof (sizeof_ptr_pos tgt). lia.
Qed.

Lemma handle_of_decode s pool L off :
  pool_wf tgt s pool L -> 0 <= off < percpu_len (pools s pool) ->
  Z.shiftr (handle_of tgt pool off) (POOL_INDEX_SHIFT tgt) = pool
  /\ Z.land (handle_of tgt pool off) (MAX_POOL_LEN_MASK tgt) = off.
Proof.
  intros Hwf Hoff. destruct (pool_wf_offset_bound _ _ _ Hwf) as (Hs & _ & _).
  unfold handle_of. split.
  - apply handle_pool_index. lia.
  - apply handle_item_offset. lia.
Qed.

Lemma handle_of_encode s pool L off :
  pool_wf tgt s pool L -> 0 <= off < percpu_len (pools s pool) ->
  Z.lor (wrap tgt (Z.shiftl (index (pools s pool)) (POOL_INDEX_SHIFT tgt))) off
  = handle_of tgt pool off.
Proof.
  intros Hwf Hoff. destruct (pool_wf_offset_bound _ _ _ Hwf) as (Hs & _ & Hp).
  rewrite (wf_index _ _ _ _ Hwf). apply handle_encode; lia.
Qed.

Lemma handle_of_nonnull s pool L off :
  pool_wf tgt s pool L -> 0 <= off -> handle_of tgt pool off <> 0.
Proof.
  intros Hwf Hoff. pose proof (wf_slot _ _ _ _ Hwf) as Hslot.
  pose proof (pow_shift_pos tgt). unfold handle_of. nia.
Qed.

(** *** The zeroing loop *)

Lemma zero_item_loop_keeps_zero p off n : forall i m x,
  m x = 0 -> zero_item_loop tgt p off n i m x = 0.
Proof.
  induction n as [|n IH]; intros i m x Hx; simpl; [exact Hx|].
  apply IH. unfold memset. now destruct (_ && _).
Qed.

Lemma zero_item_loop_in p off n : forall i0 m i x,
  i0 <= i < i0 + Z.of_nat n ->
  __rseq_pool_percpu_ptr tgt p i off <= x
    < __rseq_pool_percpu_ptr tgt p i off + item_len p ->
  zero_item_loop tgt p off n i0 m x = 0.
Proof.
  induction n as [|n IH]; intros i0 m i x Hi Hx; [simpl in Hi; lia|].
  cbn [zero_item_loop].
  destruct (Z.eq_dec i i0) as [->|Hne].
  - apply zero_item_loop_keeps_zero. now apply memset_in.
  - apply (IH (i0 + 1) _ i); [lia|exact Hx].
Qed.

Lemma zero_item_loop_out p off n : forall i0 m x,
  (forall i, i0 <= i < i0 + Z.of_nat n ->
     x < __rseq_pool_percpu_ptr tgt p i off
     \/ __rseq_pool_percpu_ptr tgt p i off + item_len p <= x) ->
  zero_item_loop tgt p off n i0 m x = m x.
Proof.
  induction n as [|n IH]; intros i0 m x H; [reflexivity|].
  cbn [zero_item_loop]. rewrite IH.
  - apply memset_out. apply H. lia.
  - intros i Hi. apply H. lia.
Qed.

End PoolFacts.

(** ** Allocation and release keep the invariant *)

Ltac reduce_pool :=
  cbn [base index item_len percpu_len item_order max_nr_cpus free_list_head
       next_unused mmap_attr free_bitmap set_free_list_head set_next_unused
       set_free_bitmap pools mem errno set_pool set_mem set_errno] in *.

Ltac simpl_pool := reduce_pool; rewrite ?fn_lookup_insert in *; reduce_pool.

Section MallocFree.

Variable tgt : target.

Lemma pools_set_pool i p s : pools (set_pool i p s) i = p.
Proof. unfold set_pool; simpl. apply fn_lookup_insert. Qed.

Lemma pools_set_pool_ne i j p s : i <> j -> pools (set_pool i p s) j = pools s j.
Proof. intros H. unfold set_pool; simpl. now apply fn_lookup_insert_ne. Qed.

Lemma free_list_frame m m' b : forall L head,
  free_list tgt m b head L ->
  (forall off x, In off L -> b + off <= x < b + off + sizeof_ptr tgt -> m' x = m x) ->
  free_list tgt m' b head L.
Proof.
  induction L as [|off L IH]; intros head HL Hm; [exact HL|].
  destruct HL as [-> HL]. split; [reflexivity|].
  rewrite (load_le_ext m' m).
  - apply IH; [exact HL|]. intros o x Ho. apply Hm. now right.
  - intros x Hx. apply (Hm off); [now left|].
    pose proof (sizeof_ptr_pos tgt). lia.
Qed.

Lemma slots_disjoint d a b :
  0 < d -> (d | a) -> (d | b) -> a <> b -> a + d <= b \/ b + d <= a.
Proof.
  intros Hd [x ->] [y ->] Hne.
  destruct (Z.lt_total x y) as [H|[H|H]]; [left; nia|congruence|right; nia].
Qed.

Lemma valid_offset_fits p off :
  0 < item_len p -> (item_len p | next_unused p) -> valid_offset p off ->
  off + item_len p <= next_unused p.
Proof.
  intros Hd [x Hx] [Hoff [y ->]]. rewrite Hx in *.
  assert (y < x) by nia. nia.
Qed.

Lemma zero_item_other_slot p off o m x :
  pool_mapped tgt p -> 0 < item_len p ->
  (item_len p | off) -> (item_len p | o) ->
  0 <= off -> off + item_len p <= percpu_len p ->
  0 <= o -> o + item_len p <= percpu_len p -> o <> off ->
  base p + o <= x < base p + o + item_len p ->
  rseq_percpu_zero_item tgt p off m x = m x.
Proof.
  intros Hmap Hpos Hdo Hdo' Hoff Hfit Ho Hfit' Hne Hx.
  unfold rseq_percpu_zero_item. apply zero_item_loop_out.
  intros i Hi. pose proof Hmap as (Hb & Hl & Hc & Hm).
  rewrite percpu_ptr_exact by (auto; lia).
  destruct (slots_disjoint _ _ _ Hpos Hdo Hdo' (not_eq_sym Hne)).
  - destruct (Z.eq_dec i 0) as [->|]; [lia|].
    assert (percpu_len p <= percpu_len p * i) by nia. lia.
  - destruct (Z.eq_dec i 0) as [->|]; [lia|].
    assert (percpu_len p <= percpu_len p * i) by nia. lia.
Qed.

Lemma pool_wf_intro s s' pool L L' :
  pool_wf tgt s pool L ->
  same_geometry (pools s pool) (pools s' pool) ->
  0 <= next_unused (pools s' pool) <= percpu_len (pools s pool) ->
  (item_len (pools s pool) | next_unused (pools s' pool)) ->
  free_list tgt (mem s') (base (pools s pool)) (free_list_head (pools s' pool)) L' ->
  Forall (valid_offset (pools s' pool)) L' ->
  List.NoDup L' ->
  pool_wf tgt s' pool L'.
Proof.
  intros [Hslot Hidx Hmap Hord Hitem Hstr Hnext Hlist Hoffs Hnd]
         (Hb & Hi & Hil & Hpl & Hio & Hmc) Hn Hd HL HF HN.
  split; unfold pool_mapped in *; rewrite ?Hb, ?Hi, ?Hil, ?Hpl, ?Hio, ?Hmc; auto.
Qed.

Lemma malloc_pop pool zeroed s off L :
  pool_wf tgt s pool (off :: L) ->
  exists s',
    __rseq_percpu_malloc tgt pool zeroed s = Ok (handle_of tgt pool off, s')
    /\ pool_wf tgt s' pool L
    /\ same_geometry (pools s pool) (pools s' pool)
    /\ next_unused (pools s' pool) = next_unused (pools s pool)
    /\ free_bitmap (pools s' pool) = free_bitmap (pools s pool)
    /\ mem s' = (if zeroed then rseq_percpu_zero_item tgt (pools s' pool) off (mem s)
                 else mem s).
Proof.
  intros Hwf.
  pose proof Hwf as [Hslot Hidx Hmap Hord Hitem Hstr Hnext Hlist Hoffs Hnd].
  destruct Hlist as [Hhead Hlist].
  inversion Hoffs as [|? ? Hv Hoffs']; subst.
  inversion Hnd as [|? ? Hnotin Hnd']; subst.
  destruct (pool_wf_offset_bound _ _ _ _ Hwf) as (Hs & Hipos & Hp).
  pose proof (valid_offset_fits _ _ Hipos (proj2 Hnext) Hv) as Hfit.
  destruct Hv as [Hoff Hdiv]. pose proof Hmap as (Hb & Hl & Hc & Hm).
  assert (Hlen : percpu_len (pools s pool)
                 <= percpu_len (pools s pool) * max_nr_cpus (pools s pool)) by nia.
  assert (Hoffw : wrap tgt (free_list_head (pools s pool) - base (pools s pool)) = off).
  { rewrite Hhead. replace (base (pools s pool) + off - base (pools s pool)) with off by lia.
    apply wrap_small. lia. }
  pose proof (handle_of_encode tgt s pool (off :: L) off Hwf ltac:(lia)) as Henc.
  pose proof (handle_of_nonnull tgt s pool (off :: L) off Hwf ltac:(lia)) as Hnz.
  unfold __rseq_percpu_malloc.
  destruct (Z.eqb_spec (free_list_head (pools s pool)) 0) as [|_]; [lia|].
  cbn [negb mbind outcome_bind]. rewrite Hoffw, Henc.
  destruct (Z.eqb_spec (handle_of tgt pool off) 0) as [|_]; [contradiction|].
  rewrite andb_true_r.
  set (p' := set_free_list_head _ _).
  assert (Hgeo : same_geometry (pools s pool) p') by (repeat split).
  assert (Hframe : forall o x, In o L ->
            base (pools s pool) + o <= x < base (pools s pool) + o + sizeof_ptr tgt ->
            rseq_percpu_zero_item tgt p' off (mem s) x = mem s x).
  { intros o x Ho Hx. rewrite List.Forall_forall in Hoffs'.
    pose proof (valid_offset_fits _ _ Hipos (proj2 Hnext) (Hoffs' o Ho)) as Hfit'.
    destruct (Hoffs' o Ho) as [Ho1 Ho2].
    apply (zero_item_other_slot p' off o); subst p'; unfold pool_mapped;
      cbn [base item_len percpu_len max_nr_cpus set_free_list_head]; auto; try lia.
    intros ->. contradiction. }
  destruct zeroed; cbn [negb]; eexists; (split; [reflexivity|]);
    (split; [|subst p'; simpl_pool; repeat split; auto]).
  all: apply (pool_wf_intro s _ pool (off :: L) L Hwf); subst p'; simpl_pool;
    auto; try tauto.
  eapply free_list_frame; [exact Hlist|exact Hframe].
Qed.

Lemma wrap_next_unused s pool L :
  pool_wf tgt s pool L ->
  wrap tgt (next_unused (pools s pool) + item_len (pools s pool))
  = next_unused (pools s pool) + item_len (pools s pool).
Proof.
  intros Hwf. destruct (pool_wf_offset_bound _ _ _ _ Hwf) as (Hs & Hipos & Hp).
  destruct Hwf as [Hslot Hidx Hmap Hord Hitem Hstr Hnext Hlist Hoffs Hnd].
  apply wrap_small. rewrite word_modulus_split.
  destruct (bits_per_long_split tgt) as (_ & HI & _).
  assert (2 <= 2 ^ POOL_INDEX_BITS tgt)
    by (change 2 with (2 ^ 1) at 1; apply Z.pow_le_mono_r; lia).
  nia.
Qed.

Lemma malloc_bump pool zeroed s h s' :
  pool_wf tgt s pool [] -> exhausted tgt (pools s pool) = false ->
  __rseq_percpu_malloc tgt pool zeroed s = Ok (h, s') ->
  h = handle_of tgt pool (next_unused (pools s pool))
  /\ next_unused (pools s pool) + item_len (pools s pool) <= percpu_len (pools s pool)
  /\ pool_wf tgt s' pool []
  /\ same_geometry (pools s pool) (pools s' pool)
  /\ next_unused (pools s' pool) = next_unused (pools s pool) + item_len (pools s pool)
  /\ mask_free_slot tgt (free_bitmap (pools s pool))
       (Z.shiftr (next_unused (pools s pool)) (item_order (pools s pool)))
     = Ok (free_bitmap (pools s' pool))
  /\ mem s' = (if zeroed
               then rseq_percpu_zero_item tgt (pools s' pool)
                      (next_unused (pools s pool)) (mem s)
               else mem s).
Proof.
  intros Hwf Hex Hm.
  pose proof (wrap_next_unused _ _ _ Hwf) as Hwrap.
  destruct (pool_wf_offset_bound _ _ _ _ Hwf) as (Hs & Hipos & Hp).
  pose proof Hwf as [Hslot Hidx Hmap Hord Hitem Hstr Hnext Hlist Hoffs Hnd].
  simpl in Hlist. unfold exhausted in Hex. rewrite Hlist, Hwrap in Hex. simpl in Hex.
  apply Z.ltb_ge in Hex.
  pose proof (handle_of_encode tgt s pool [] (next_unused (pools s pool)) Hwf
                ltac:(lia)) as Henc.
  pose proof (handle_of_nonnull tgt s pool [] (next_unused (pools s pool)) Hwf ltac:(lia)) as Hnz.
  unfold __rseq_percpu_malloc in Hm.
  rewrite Hlist, Hwrap in Hm. cbn [Z.eqb negb] in Hm.
  destruct (Z.ltb_spec (percpu_len (pools s pool))
              (next_unused (pools s pool) + item_len (pools s pool))) as [|_]; [lia|].
  reduce_pool.
  destruct (mask_free_slot tgt _ _) as [bm| |] eqn:Hmask; cbn [mbind outcome_bind] in Hm;
    try discriminate.
  rewrite Henc in Hm.
  destruct (Z.eqb_spec (handle_of tgt pool (next_unused (pools s pool))) 0) as [|_];
    [contradiction|].
  rewrite andb_true_r in Hm.
  destruct zeroed; cbn [negb] in Hm; injection Hm as <- <-; simpl_pool.
  all: repeat split; auto; try lia.
  all: apply (pool_wf_intro s _ pool [] [] Hwf); simpl_pool;
    repeat split; auto; try lia; try constructor.
  all: apply Z.divide_add_r; [tauto|apply Z.divide_refl].
Qed.

Lemma free_list_head_range s pool L :
  pool_wf tgt s pool L ->
  0 <= free_list_head (pools s pool) < 2 ^ RSEQ_BITS_PER_LONG tgt.
Proof.
  intros Hwf. destruct (pool_wf_offset_bound _ _ _ _ Hwf) as (Hs & Hipos & Hp).
  destruct Hwf as [Hslot Hidx Hmap Hord Hitem Hstr Hnext Hlist Hoffs Hnd].
  destruct Hmap as (Hb & Hl & Hc & Hm).
  assert (percpu_len (pools s pool)
          <= percpu_len (pools s pool) * max_nr_cpus (pools s pool)) by nia.
  destruct L as [|off L]; simpl in Hlist.
  - rewrite Hlist. lia.
  - destruct Hlist as [-> _]. inversion Hoffs as [|? ? [Hv _] _]; subst. lia.
Qed.

Lemma free_unfold s pool L off :
  pool_wf tgt s pool L -> 0 <= off < percpu_len (pools s pool) ->
  rseq_percpu_free tgt (handle_of tgt pool off) s
  = bm ← unmask_free_slot tgt (free_bitmap (pools s pool))
           (Z.shiftr off (item_order (pools s pool)));
    Ok (set_mem (store_le (mem s) (base (pools s pool) + off)
                   (Z.to_nat (sizeof_ptr tgt)) (free_list_head (pools s pool)))
          (set_pool pool
             (set_free_list_head (base (pools s pool) + off)
                (set_free_bitmap bm (pools s pool))) s)).
Proof.
  intros Hwf Hoff. unfold rseq_percpu_free.
  destruct (handle_of_decode tgt s pool L off Hwf Hoff) as [-> ->].
  destruct (unmask_free_slot _ _ _) as [bm| |]; cbn [mbind outcome_bind]; try reflexivity.
  pose proof (wf_mapped _ _ _ _ Hwf) as Hmap.
  rewrite (percpu_ptr_exact tgt (set_free_bitmap bm (pools s pool)) 0 off);
    reduce_pool; auto; [|destruct Hmap as (_ & _ & ? & _); lia].
  now rewrite Z.mul_0_r, Z.add_0_r.
Qed.

Lemma free_push s pool L off s' :
  pool_wf tgt s pool L -> valid_offset (pools s pool) off -> ~ In off L ->
  rseq_percpu_free tgt (handle_of tgt pool off) s = Ok s' ->
  pool_wf tgt s' pool (off :: L)
  /\ same_geometry (pools s pool) (pools s' pool)
  /\ next_unused (pools s' pool) = next_unused (pools s pool)
  /\ unmask_free_slot tgt (free_bitmap (pools s pool))
       (Z.shiftr off (item_order (pools s pool)))
     = Ok (free_bitmap (pools s' pool)).
Proof.
  intros Hwf Hv Hnotin Hfree.
  destruct (pool_wf_offset_bound _ _ _ _ Hwf) as (Hs & Hipos & Hp).
  pose proof (free_list_head_range _ _ _ Hwf) as Hhead.
  pose proof Hwf as [Hslot Hidx Hmap Hord Hitem Hstr Hnext Hlist Hoffs Hnd].
  pose proof (valid_offset_fits _ _ Hipos (proj2 Hnext) Hv) as Hfit.
  pose proof Hv as [Hoff Hdiv].
  rewrite (free_unfold s pool L off Hwf) in Hfree by lia.
  destruct (unmask_free_slot _ _ _) as [bm| |]; cbn [mbind outcome_bind] in Hfree;
    try discriminate.
  injection Hfree as <-. simpl_pool.
  split; [|repeat split; auto].
  apply (pool_wf_intro s _ pool L (off :: L) Hwf); simpl_pool;
    try (repeat split; auto; tauto).
  - split; [reflexivity|].
    rewrite load_store_le by (rewrite word_modulus_bytes; exact Hhead).
    eapply free_list_frame; [exact Hlist|].
    intros o x Ho Hx. apply store_le_out.
    rewrite List.Forall_forall in Hoffs. destruct (Hoffs o Ho) as [Ho1 Ho2].
    assert (o <> off) by (intros ->; contradiction).
    destruct (slots_disjoint _ _ _ Hipos Ho2 Hdiv H); lia.
  - constructor; auto.
Qed.

Lemma free_nonrobust s pool L off :
  pool_wf tgt s pool L -> valid_offset (pools s pool) off ->
  free_bitmap (pools s pool) = None ->
  exists s', rseq_percpu_free tgt (handle_of tgt pool off) s = Ok s'.
Proof.
  intros Hwf [Hoff _] Hbm.
  pose proof (wf_next _ _ _ _ Hwf) as [Hn _].
  rewrite (free_unfold s pool L off Hwf) by lia.
  rewrite Hbm. cbn. eauto.
Qed.

End MallocFree.

(** ** What an allocation returns *)

Section MallocResults.

Variable tgt : target.

Lemma malloc_exhausted pool zeroed s :
  exhausted tgt (pools s pool) = true ->
  __rseq_percpu_malloc tgt pool zeroed s = Ok (0, set_errno ENOMEM s).
Proof.
  unfold exhausted. intros [Hh Hn]%andb_true_iff.
  unfold __rseq_percpu_malloc. rewrite Hh, Hn. cbn.
  now rewrite andb_false_r.
Qed.

Lemma exhausted_nonempty s pool off L :
  pool_wf tgt s pool (off :: L) -> exhausted tgt (pools s pool) = false.
Proof.
  intros Hwf. pose proof (wf_list _ _ _ _ Hwf) as [Hh _].
  pose proof (wf_offs _ _ _ _ Hwf) as Hoffs. inversion Hoffs as [|? ? [Hv _] _]; subst.
  destruct (wf_mapped _ _ _ _ Hwf) as (Hb & _).
  unfold exhausted. destruct (Z.eqb_spec (free_list_head (pools s pool)) 0); [lia|reflexivity].
Qed.

Lemma malloc_live pool zeroed s L h s' :
  pool_wf tgt s pool L ->
  __rseq_percpu_malloc tgt pool zeroed s = Ok (h, s') ->
  h <> 0 ->
  exists off L',
    h = handle_of tgt pool off
    /\ pool_wf tgt s' pool L'
    /\ same_geometry (pools s pool) (pools s' pool)
    /\ valid_offset (pools s' pool) off /\ ~ In off L'
    /\ off + item_len (pools s pool) <= percpu_len (pools s pool)
    /\ (forall o, valid_offset (pools s pool) o -> ~ In o L ->
          valid_offset (pools s' pool) o /\ ~ In o L' /\ o <> off)
    /\ mem s' = (if zeroed then rseq_percpu_zero_item tgt (pools s' pool) off (mem s)
                 else mem s).
Proof.
  intros Hwf Hm Hnz.
  destruct (pool_wf_offset_bound _ _ _ _ Hwf) as (Hs & Hipos & Hp).
  pose proof (wf_next _ _ _ _ Hwf) as [Hn Hnd].
  destruct L as [|off L].
  - destruct (exhausted tgt (pools s pool)) eqn:Hex.
    + rewrite malloc_exhausted in Hm by exact Hex. congruence.
    + destruct (malloc_bump tgt pool zeroed s h s' Hwf Hex Hm)
        as (-> & Hfit & Hwf' & Hgeo & Hnext & Hmask & Hmem).
      pose proof Hgeo as (_ & _ & Hil & _).
      exists (next_unused (pools s pool)), [].
      unfold valid_offset in *. rewrite Hil, Hnext.
      split_and!; auto; try tauto; try lia.
      intros o [Ho Hd] _. split_and!; auto; lia.
  - destruct (malloc_pop tgt pool zeroed s off L Hwf)
      as (s1 & Hm1 & Hwf' & Hgeo & Hnext & Hbm & Hmem).
    rewrite Hm1 in Hm. injection Hm as <- <-.
    pose proof Hgeo as (_ & _ & Hil & _).
    pose proof (wf_offs _ _ _ _ Hwf) as Hoffs. inversion Hoffs as [|? ? Hv _]; subst.
    pose proof (wf_nodup _ _ _ _ Hwf) as Hnodup. inversion Hnodup; subst.
    pose proof (valid_offset_fits _ _ Hipos Hnd Hv).
    exists off, L. unfold valid_offset in *. rewrite Hil, Hnext.
    split_and!; auto; try tauto; try lia.
    intros o Hvo Hin. split; [exact Hvo|].
    split; [intros Hin'; apply Hin; now right|intros ->; apply Hin; now left].
Qed.


Lemma malloc_null_iff pool zeroed s L h s' :
  pool_wf tgt s pool L ->
  __rseq_percpu_malloc tgt pool zeroed s = Ok (h, s') ->
  (h = 0 <-> exhausted tgt (pools s pool) = true).
Proof.
  intros Hwf Hm. split.
  - intros ->. destruct (exhausted tgt (pools s pool)) eqn:Hex; [reflexivity|].
    exfalso. destruct L as [|off L].
    + destruct (malloc_bump tgt pool zeroed s 0 s' Hwf Hex Hm) as (Hh & _).
      symmetry in Hh. revert Hh. apply (handle_of_nonnull tgt s pool []); auto.
      apply (wf_next _ _ _ _ Hwf).
    + destruct (malloc_pop tgt pool zeroed s off L Hwf) as (s1 & Hm1 & _).
      rewrite Hm1 in Hm. injection Hm as Hh _.
      revert Hh. apply (handle_of_nonnull tgt s pool (off :: L)); auto.
      pose proof (wf_offs _ _ _ _ Hwf) as Hoffs.
      inversion Hoffs as [|? ? [Hv _] _]; subst. lia.
  - intros Hex. rewrite malloc_exhausted in Hm by exact Hex. congruence.
Qed.

Lemma percpu_ptr_of_handle s pool L off cpu :
  pool_wf tgt s pool L ->
  0 <= off < percpu_len (pools s pool) ->
  0 <= cpu < max_nr_cpus (pools s pool) ->
  __rseq_percpu_ptr tgt (handle_of tgt pool off) cpu s
  = Ok (base (pools s pool) + percpu_len (pools s pool) * cpu + off).
Proof.
  intros Hwf Hoff Hcpu. unfold __rseq_percpu_ptr.
  destruct (handle_of_decode tgt s pool L off Hwf Hoff) as [-> ->].
  destruct (Z.ltb_spec cpu 0); [lia|].
  f_equal. apply percpu_ptr_exact; auto. apply (wf_mapped _ _ _ _ Hwf).
Qed.

End MallocResults.

(** ** The pool set *)

Section PoolSetFacts.

Variable tgt : target.

Lemma pool_set_malloc_again_eq pool_set len zeroed min_order s :
  pool_set_malloc_again tgt pool_set len zeroed min_order s
  = match pool_set_find s pool_set len
            (Z.to_nat (POOL_SET_NR_ENTRIES tgt - min_order)) min_order with
    | (order, Some pool) =>
        match __rseq_percpu_malloc tgt pool zeroed s with
        | Ok (addr, s') =>
            if (addr =? 0) && (errno s' =? ENOMEM)
            then pool_set_malloc_again tgt pool_set len zeroed (order + 1) s'
            else Ok (addr, s')
        | Abort => Abort
        | Undefined => Undefined
        end
    | (order, None) => Ok (0, set_errno ENOMEM s)
    end.
Proof.
  simp pool_set_malloc_again.
  destruct (inspect _) as [[order [pool|]] Hfind]; simp pool_set_malloc_again.
  2: now rewrite Hfind.
  destruct (__rseq_percpu_malloc tgt pool zeroed s) as [[addr s']| |] eqn:Hm;
    simp pool_set_malloc_again; rewrite Hfind, Hm; simp pool_set_malloc_again;
    reflexivity.
Qed.


Lemma pool_wf_set_errno e s pool L :
  pool_wf tgt s pool L -> pool_wf tgt (set_errno e s) pool L.
Proof. intros []. split; assumption. Qed.





Lemma pool_set_start_order len :
  (let order := rseq_get_count_order_ulong len in
   if POOL_SET_MIN_ENTRY tgt <? order then order else POOL_SET_MIN_ENTRY tgt)
  = Z.max (Z.log2_up len) (POOL_SET_MIN_ENTRY tgt).
Proof.
  cbv zeta. unfold rseq_get_count_order_ulong.
  assert (0 < POOL_SET_MIN_ENTRY tgt) by (destruct tgt; reflexivity).
  destruct (Z.eqb_spec len 0) as [->|_].
  - change (Z.log2_up 0) with 0.
    destruct (Z.ltb_spec (POOL_SET_MIN_ENTRY tgt) (-1)); lia.
  - destruct (Z.ltb_spec (POOL_SET_MIN_ENTRY tgt) (Z.log2_up len)); lia.
Qed.

End PoolSetFacts.

(** ** Pool creation *)

Section CreateFacts.

Variable tgt : target.

Lemma uintptr_max_shift :
  Z.shiftr (UINTPTR_MAX tgt) (POOL_INDEX_BITS tgt) = 2 ^ POOL_INDEX_SHIFT tgt - 1.
Proof. destruct tgt; reflexivity. Qed.

Lemma item_order_range item_len :
  item_len <= 2 ^ (RSEQ_BITS_PER_LONG tgt - 1) ->
  let x := if item_len <? sizeof_ptr tgt then sizeof_ptr tgt else item_len in
  0 <= rseq_get_count_order_ulong x < RSEQ_BITS_PER_LONG tgt
  /\ sizeof_ptr tgt <= 2 ^ rseq_get_count_order_ulong x.
Proof.
  intros Hle x. pose proof (sizeof_ptr_pos tgt) as Hp.
  assert (Hx : sizeof_ptr tgt <= x <= 2 ^ (RSEQ_BITS_PER_LONG tgt - 1)).
  { subst x. destruct (Z.ltb_spec item_len (sizeof_ptr tgt)); [|lia].
    split; [lia|]. destruct tgt; vm_compute; discriminate. }
  unfold rseq_get_count_order_ulong.
  destruct (Z.eqb_spec x 0); [lia|].
  assert (4 <= sizeof_ptr tgt) by (destruct tgt; vm_compute; discriminate).
  pose proof (Z.log2_up_nonneg x).
  assert (Z.log2_up x <= RSEQ_BITS_PER_LONG tgt - 1)
    by (apply Z.log2_up_le_pow2; lia).
  pose proof (Z.log2_up_spec x ltac:(lia)). lia.
Qed.

Variable sys_mmap : Z -> Z -> Z * Z.
Variable sys_munmap : Z -> Z -> Z -> Z * Z.

Lemma find_empty_pool_spec dir n : forall i0 i,
  find_empty_pool dir n i0 = Some i ->
  i0 <= i < i0 + Z.of_nat n /\ base (dir i) = 0.
Proof.
  induction n as [|n IH]; intros i0 i; cbn [find_empty_pool]; [discriminate|].
  destruct (Z.eqb_spec (base (dir i0)) 0) as [E|_].
  - intros [= <-]. split; [lia|exact E].
  - intros H. apply IH in H. lia.
Qed.

Lemma pool_create_wf page_len calloc_ok item_len percpu_len max_nr_cpus
    mmap_attr flags s i s' :
  rseq_percpu_pool_create tgt sys_mmap sys_munmap page_len calloc_ok
    item_len percpu_len max_nr_cpus mmap_attr flags s = Ok (Some i, s') ->
  free_list_head (pools s i) = 0 -> next_unused (pools s i) = 0 ->
  pool_mapped tgt (pools s' i) ->
  pool_wf tgt s' i [].
Proof.
  unfold rseq_percpu_pool_create.
  destruct (negb _); [discriminate|].
  set (x := if item_len <? sizeof_ptr tgt then sizeof_ptr tgt else item_len).
  assert (Hx : sizeof_ptr tgt <= x)
    by (subst x; destruct (Z.ltb_spec item_len (sizeof_ptr tgt)); lia).
  destruct (Z.ltb_spec (rseq_get_count_order_ulong x) 0) as [|Hord0]; [discriminate|].
  destruct (Z.leb_spec (RSEQ_BITS_PER_LONG tgt) (rseq_get_count_order_ulong x))
    as [|Hord1]; [discriminate|].
  rewrite uintptr_max_shift.
  destruct (Z.ltb_spec max_nr_cpus 0) as [|Hc]; [discriminate|].
  destruct (Z.ltb_spec (rseq_align tgt percpu_len page_len)
              (Z.shiftl 1 (rseq_get_count_order_ulong x))) as [|Hi]; [discriminate|].
  destruct (Z.ltb_spec (2 ^ POOL_INDEX_SHIFT tgt - 1)
              (rseq_align tgt percpu_len page_len)) as [|Hs]; [discriminate|].
  cbn [orb].
  destruct (find_empty_pool _ _ _) as [j|] eqn:Hfind; [|discriminate].
  apply find_empty_pool_spec in Hfind. destruct Hfind as [Hj _].
  destruct (mmap_func _) as [f|]; [|discriminate].
  destruct (f _ _ _) as [b e]. destruct (b =? 0); [discriminate|].
  intros [= <- <-] Hhead Hnext Hmap.
  rewrite Z.shiftl_1_l in *.
  assert (Hpow : sizeof_ptr tgt <= 2 ^ rseq_get_count_order_ulong x).
  { unfold rseq_get_count_order_ulong in *. pose proof (sizeof_ptr_pos tgt).
    assert (4 <= sizeof_ptr tgt) by (destruct tgt; vm_compute; discriminate).
    destruct (Z.eqb_spec x 0); [lia|].
    pose proof (Z.log2_up_spec x ltac:(lia)). lia. }
  unfold FIRST_POOL in Hj.
  split; simpl_pool; auto; try lia.
  all: try (unfold MAX_POOL_LEN_MASK; rewrite MAX_POOL_LEN_pow; lia).
  all: try (rewrite Hnext; split; [lia|apply Z.divide_0_r]).
  all: constructor.
Qed.
End CreateFacts.

(** ** The bitmap of a robust pool *)

Section BitmapFacts.

Variable tgt : target.

Lemma bit_per_ulong_val : BIT_PER_ULONG tgt = RSEQ_BITS_PER_LONG tgt /\ 0 < BIT_PER_ULONG tgt <= 64.
Proof. destruct tgt; vm_compute; repeat split; intro; discriminate. Qed.

Lemma land_pow2_zero w n : 0 <= n -> (Z.land w (2 ^ n) =? 0) = negb (Z.testbit w n).
Proof.
  intros Hn. destruct (Z.testbit w n) eqn:Hb; cbn [negb].
  - apply Z.eqb_neq. intros H. apply (f_equal (fun x => Z.testbit x n)) in H.
    rewrite Z.land_spec, Hb, Z.pow2_bits_true, Z.bits_0 in H by lia. discriminate.
  - apply Z.eqb_eq. apply Z.bits_inj'. intros k Hk.
    rewrite Z.land_spec, Z.bits_0, Z.pow2_bits_eqb by lia.
    destruct (Z.eqb_spec n k) as [->|]; [now rewrite Hb|apply andb_false_r].
Qed.

Lemma land_pow2_full w n : 0 <= n -> (Z.land w (2 ^ n) =? 2 ^ n) = Z.testbit w n.
Proof.
  intros Hn. destruct (Z.testbit w n) eqn:Hb.
  - apply Z.eqb_eq. apply Z.bits_inj'. intros k Hk.
    rewrite Z.land_spec, Z.pow2_bits_eqb by lia.
    destruct (Z.eqb_spec n k) as [->|]; [now rewrite Hb|apply andb_false_r].
  - apply Z.eqb_neq. intros H. apply (f_equal (fun x => Z.testbit x n)) in H.
    rewrite Z.land_spec, Hb, Z.pow2_bits_true in H by lia. discriminate.
Qed.

(** The mask of [mask_free_slot]. *)
Lemma mask_value n :
  0 <= n < BIT_PER_ULONG tgt ->
  wrap tgt (Z.shiftl 1 n mod 2 ^ 64) = 2 ^ n.
Proof.
  intros Hn. destruct bit_per_ulong_val as [Hb Hr].
  rewrite Z.shiftl_1_l.
  assert (0 < 2 ^ n) by (apply Z.pow_pos_nonneg; lia).
  assert (2 ^ n < 2 ^ RSEQ_BITS_PER_LONG tgt) by (apply Z.pow_lt_mono_r; lia).
  assert (2 ^ n < 2 ^ 64) by (apply Z.pow_lt_mono_r; lia).
  rewrite Z.mod_small by lia. apply wrap_small. lia.
Qed.

(** The mask of [unmask_free_slot], when the shift is defined. *)
Lemma unmask_value n :
  0 <= n < 31 -> int_shl 1 n = Some (2 ^ n).
Proof.
  intros Hn. unfold int_shl.
  assert (2 ^ n < 2 ^ 31) by (apply Z.pow_lt_mono_r; lia).
  destruct (Z.leb_spec 0 n); [|lia]. destruct (Z.ltb_spec n 32); [|lia].
  rewrite Z.mul_1_l. destruct (Z.ltb_spec (2 ^ n) (2 ^ 31)); [|lia]. reflexivity.
Qed.

Lemma unmask_undefined n : 31 <= n -> int_shl 1 n = None.
Proof.
  intros Hn. unfold int_shl. rewrite Z.mul_1_l.
  assert (2 ^ 31 <= 2 ^ n) by (apply Z.pow_le_mono_r; lia).
  destruct (Z.ltb_spec (2 ^ n) (2 ^ 31)); [lia|]. now rewrite !andb_false_r.
Qed.

Lemma slot_bit_insert_same (b : list Z) idx w w' :
  b !! Z.to_nat (idx / BIT_PER_ULONG tgt) = Some w ->
  slot_bit tgt (<[Z.to_nat (idx / BIT_PER_ULONG tgt) := w']> b) idx
  = Some (Z.testbit w' (idx mod BIT_PER_ULONG tgt)).
Proof.
  intros Hw. unfold slot_bit.
  rewrite list_lookup_insert_eq; [reflexivity|].
  now apply lookup_lt_Some in Hw.
Qed.

(** [mask_free_slot] on a bitmap: it aborts when the bit is set and sets it
    otherwise. *)
Lemma mask_free_slot_spec (b : list Z) idx v :
  0 <= idx -> slot_bit tgt b idx = Some v ->
  if v then mask_free_slot tgt (Some b) idx = Abort
  else exists b', mask_free_slot tgt (Some b) idx = Ok (Some b')
                  /\ slot_bit tgt b' idx = Some true.
Proof.
  intros Hidx Hbit. destruct bit_per_ulong_val as [Hb Hr].
  unfold slot_bit in Hbit. unfold mask_free_slot.
  destruct (b !! Z.to_nat (idx / BIT_PER_ULONG tgt)) as [w|] eqn:Hw; [|discriminate].
  injection Hbit as <-.
  pose proof (Z.mod_pos_bound idx (BIT_PER_ULONG tgt) ltac:(lia)) as Hm.
  rewrite mask_value by lia. rewrite land_pow2_zero by lia.
  destruct (Z.testbit w _) eqn:Ht; cbn [negb]; [reflexivity|].
  eexists. split; [reflexivity|].
  rewrite slot_bit_insert_same with (w := w) by exact Hw.
  rewrite Z.lor_spec, Z.pow2_bits_true by lia. now rewrite orb_true_r.
Qed.

(** [unmask_free_slot] on a bitmap, for a slot whose shift is defined: it
    aborts when the bit is clear and clears it otherwise. *)
Lemma unmask_free_slot_spec (b : list Z) idx v :
  0 <= idx -> idx mod BIT_PER_ULONG tgt < 31 -> slot_bit tgt b idx = Some v ->
  if v then exists b', unmask_free_slot tgt (Some b) idx = Ok (Some b')
                       /\ slot_bit tgt b' idx = Some false
  else unmask_free_slot tgt (Some b) idx = Abort.
Proof.
  intros Hidx Hlow Hbit. destruct bit_per_ulong_val as [Hb Hr].
  unfold slot_bit in Hbit. unfold unmask_free_slot.
  destruct (b !! Z.to_nat (idx / BIT_PER_ULONG tgt)) as [w|] eqn:Hw; [|discriminate].
  injection Hbit as <-.
  pose proof (Z.mod_pos_bound idx (BIT_PER_ULONG tgt) ltac:(lia)) as Hm.
  rewrite unmask_value by lia.
  assert (0 < 2 ^ (idx mod BIT_PER_ULONG tgt)) by (apply Z.pow_pos_nonneg; lia).
  assert (2 ^ (idx mod BIT_PER_ULONG tgt) < 2 ^ RSEQ_BITS_PER_LONG tgt)
    by (apply Z.pow_lt_mono_r; lia).
  rewrite (wrap_small tgt (2 ^ _)) by lia. rewrite land_pow2_full by lia.
  destruct (Z.testbit w _) eqn:Ht; [|reflexivity].
  eexists. split; [reflexivity|].
  rewrite slot_bit_insert_same with (w := w) by exact Hw.
  f_equal. rewrite Z.land_spec. unfold wrap.
  rewrite Z.mod_pow2_bits_low by lia.
  rewrite Z.lnot_spec, Z.pow2_bits_true by lia. now rewrite andb_false_r.
Qed.

(** Where the shift is not defined, the free of a robust pool is not
    defined either. *)
Lemma unmask_free_slot_high (b : list Z) idx :
  31 <= idx mod BIT_PER_ULONG tgt ->
  unmask_free_slot tgt (Some b) idx = Undefined.
Proof. intros H. unfold unmask_free_slot. now rewrite unmask_undefined. Qed.

(** ** The other slots of the bitmap *)

Lemma slot_bit_insert_other (b : list Z) idx idx' w w' :
  0 <= idx -> 0 <= idx' -> idx' <> idx ->
  b !! Z.to_nat (idx / BIT_PER_ULONG tgt) = Some w ->
  (forall n, 0 <= n < BIT_PER_ULONG tgt -> n <> idx mod BIT_PER_ULONG tgt ->
             Z.testbit w' n = Z.testbit w n) ->
  slot_bit tgt (<[Z.to_nat (idx / BIT_PER_ULONG tgt) := w']> b) idx'
  = slot_bit tgt b idx'.
Proof.
  intros Hidx Hidx' Hne Hw Hbits. destruct bit_per_ulong_val as [_ Hr].
  unfold slot_bit.
  pose proof (Z.mod_pos_bound idx' (BIT_PER_ULONG tgt) ltac:(lia)) as Hm'.
  destruct (Z.eq_dec (idx' / BIT_PER_ULONG tgt) (idx / BIT_PER_ULONG tgt)) as [E|E].
  - rewrite E, Hw. rewrite list_lookup_insert_eq by (now apply lookup_lt_Some in Hw).
    f_equal. apply Hbits; [lia|].
    intros Em. apply Hne.
    rewrite (Z.div_mod idx' (BIT_PER_ULONG tgt)), (Z.div_mod idx (BIT_PER_ULONG tgt)) by lia.
    now rewrite E, Em.
  - rewrite list_lookup_insert_ne; [reflexivity|].
    intros E'. apply E. apply Z2Nat.inj in E'; auto; apply Z.div_pos; lia.
Qed.

Lemma lor_pow2_other w n n' : 0 <= n -> 0 <= n' -> n' <> n ->
  Z.testbit (Z.lor w (2 ^ n)) n' = Z.testbit w n'.
Proof.
  intros Hn Hn' Hne. rewrite Z.lor_spec, Z.pow2_bits_false by lia. apply orb_false_r.
Qed.

Lemma land_lnot_pow2_other w n n' W :
  0 <= n -> 0 <= n' < W -> n' <> n ->
  Z.testbit (Z.land w (Z.lnot (2 ^ n) mod 2 ^ W)) n' = Z.testbit w n'.
Proof.
  intros Hn Hn' Hne. rewrite Z.land_spec, Z.mod_pow2_bits_low by lia.
  rewrite Z.lnot_spec, Z.pow2_bits_false by lia. apply andb_true_r.
Qed.

(** [mask_free_slot] and [unmask_free_slot] leave the bits of the other
    slots alone. *)
Lemma mask_free_slot_other (b b' : list Z) idx idx' :
  0 <= idx -> 0 <= idx' -> idx' <> idx ->
  mask_free_slot tgt (Some b) idx = Ok (Some b') ->
  slot_bit tgt b' idx' = slot_bit tgt b idx'.
Proof.
  intros Hidx Hidx' Hne Hm. destruct bit_per_ulong_val as [_ Hr].
  unfold mask_free_slot in Hm.
  destruct (b !! Z.to_nat (idx / BIT_PER_ULONG tgt)) as [w|] eqn:Hw; [|discriminate].
  pose proof (Z.mod_pos_bound idx (BIT_PER_ULONG tgt) ltac:(lia)) as Hmod.
  rewrite mask_value in Hm by lia.
  destruct (_ =? 0); [|discriminate]. injection Hm as <-.
  apply slot_bit_insert_other with (w := w); auto.
  intros n Hn Hnn. apply lor_pow2_other; lia.
Qed.

Lemma unmask_free_slot_other (b b' : list Z) idx idx' :
  0 <= idx -> 0 <= idx' -> idx' <> idx ->
  unmask_free_slot tgt (Some b) idx = Ok (Some b') ->
  slot_bit tgt b' idx' = slot_bit tgt b idx'.
Proof.
  intros Hidx Hidx' Hne Hm. destruct bit_per_ulong_val as [Hb Hr].
  destruct (Z.le_gt_cases 31 (idx mod BIT_PER_ULONG tgt)) as [Hhi|Hlo].
  { rewrite unmask_free_slot_high in Hm by exact Hhi. discriminate. }
  unfold unmask_free_slot in Hm.
  pose proof (Z.mod_pos_bound idx (BIT_PER_ULONG tgt) ltac:(lia)) as Hmod.
  rewrite unmask_value in Hm by lia.
  destruct (b !! Z.to_nat (idx / BIT_PER_ULONG tgt)) as [w|] eqn:Hw; [|discriminate].
  assert (0 < 2 ^ (idx mod BIT_PER_ULONG tgt)) by (apply Z.pow_pos_nonneg; lia).
  assert (2 ^ (idx mod BIT_PER_ULONG tgt) < 2 ^ RSEQ_BITS_PER_LONG tgt)
    by (apply Z.pow_lt_mono_r; lia).
  rewrite (wrap_small tgt (2 ^ _)) in Hm by lia.
  destruct (_ =? _); [|discriminate]. injection Hm as <-.
  apply slot_bit_insert_other with (w := w); auto.
  intros n Hn Hnn. unfold wrap. apply land_lnot_pow2_other; lia.
Qed.

(** A bitmap fresh from [calloc] has every bit clear. *)
Lemma slot_bit_replicate n idx :
  0 <= idx < n -> n < 2 ^ POOL_INDEX_SHIFT tgt ->
  slot_bit tgt
    (replicate (Z.to_nat (wrap tgt (n + BIT_PER_ULONG tgt - 1) / BIT_PER_ULONG tgt)) 0)
    idx = Some false.
Proof.
  intros Hidx Hn. destruct bit_per_ulong_val as [Hb Hr]. unfold slot_bit.
  assert (Hs : n + BIT_PER_ULONG tgt - 1 < 2 ^ RSEQ_BITS_PER_LONG tgt).
  { assert (2 ^ POOL_INDEX_SHIFT tgt + 64 <= 2 ^ RSEQ_BITS_PER_LONG tgt)
      by (destruct tgt; vm_compute; discriminate).
    lia. }
  assert (Hk : idx / BIT_PER_ULONG tgt
               < wrap tgt (n + BIT_PER_ULONG tgt - 1) / BIT_PER_ULONG tgt).
  { rewrite wrap_small by lia.
    apply Z.div_lt_upper_bound; [lia|].
    pose proof (Z.mul_div_le idx (BIT_PER_ULONG tgt) ltac:(lia)).
    pose proof (Z.mod_pos_bound (n + BIT_PER_ULONG tgt - 1) (BIT_PER_ULONG tgt) ltac:(lia)).
    pose proof (Z.div_mod (n + BIT_PER_ULONG tgt - 1) (BIT_PER_ULONG tgt) ltac:(lia)).
    lia. }
  assert (Hk0 : 0 <= idx / BIT_PER_ULONG tgt) by (apply Z.div_pos; lia).
  rewrite lookup_replicate_2 by lia. now rewrite Z.bits_0.
Qed.

End BitmapFacts.

(** ** Robust pools: what holds *)

Section RobustFacts.

Variable tgt : target.

Lemma mask_free_slot_inv (b : list Z) idx r :
  0 <= idx -> mask_free_slot tgt (Some b) idx = Ok r ->
  exists b', r = Some b' /\ slot_bit tgt b idx = Some false
             /\ slot_bit tgt b' idx = Some true.
Proof.
  intros Hidx Hm.
  destruct (slot_bit tgt b idx) as [v|] eqn:Hbit.
  - pose proof (mask_free_slot_spec tgt b idx v Hidx Hbit) as Hs.
    destruct v; [congruence|]. destruct Hs as (b' & Hb' & Hset).
    exists b'. rewrite Hb' in Hm. injection Hm as <-. auto.
  - unfold slot_bit in Hbit. unfold mask_free_slot in Hm.
    destruct (b !! _); discriminate.
Qed.

Lemma unmask_free_slot_inv (b : list Z) idx r :
  0 <= idx -> unmask_free_slot tgt (Some b) idx = Ok r ->
  exists b', r = Some b' /\ idx mod BIT_PER_ULONG tgt < 31
             /\ slot_bit tgt b idx = Some true
             /\ slot_bit tgt b' idx = Some false.
Proof.
  intros Hidx Hm.
  destruct (Z.le_gt_cases 31 (idx mod BIT_PER_ULONG tgt)) as [Hhi|Hlo].
  { rewrite unmask_free_slot_high in Hm by exact Hhi. discriminate. }
  destruct (slot_bit tgt b idx) as [v|] eqn:Hbit.
  - pose proof (unmask_free_slot_spec tgt b idx v Hidx Hlo Hbit) as Hs.
    destruct v; [|congruence]. destruct Hs as (b' & Hb' & Hset).
    exists b'. rewrite Hb' in Hm. injection Hm as <-. auto.
  - unfold slot_bit in Hbit. unfold unmask_free_slot in Hm.
    destruct (int_shl _ _); [|discriminate]. destruct (b !! _); discriminate.
Qed.

(** In a robust pool, an allocation served by the bump cursor takes the
    bit of its slot from 0 to 1. *)
Lemma robust_bump_sets_bit pool zeroed s h s' b :
  pool_wf tgt s pool [] -> exhausted tgt (pools s pool) = false ->
  free_bitmap (pools s pool) = Some b ->
  __rseq_percpu_malloc tgt pool zeroed s = Ok (h, s') ->
  handle_bit tgt s h = Some false /\ handle_bit tgt s' h = Some true.
Proof.
  intros Hwf Hex Hb Hm.
  destruct (malloc_bump tgt pool zeroed s h s' Hwf Hex Hm)
    as (-> & Hfit & Hwf' & Hgeo & Hnext & Hmask & _).
  destruct (pool_wf_offset_bound _ _ _ _ Hwf) as (_ & Hipos & _).
  pose proof (wf_next _ _ _ _ Hwf) as [Hn _].
  destruct Hgeo as (_ & _ & _ & _ & Hio & _).
  rewrite Hb in Hmask.
  apply mask_free_slot_inv in Hmask; [|apply Z.shiftr_nonneg; lia].
  destruct Hmask as (b' & Hb' & Hold & Hnew).
  unfold handle_bit.
  destruct (handle_of_decode tgt s pool [] (next_unused (pools s pool)) Hwf
              ltac:(lia)) as [-> ->].
  now rewrite Hb, Hb', Hio.
Qed.

(** In a robust pool, the free of a live item whose bit is read with a
    defined shift takes the bit from 1 to 0, and a second free of the same
    handle aborts. *)
Lemma robust_double_free_aborts pool s L off s1 b :
  pool_wf tgt s pool L -> valid_offset (pools s pool) off -> ~ In off L ->
  free_bitmap (pools s pool) = Some b ->
  rseq_percpu_free tgt (handle_of tgt pool off) s = Ok s1 ->
  handle_bit tgt s (handle_of tgt pool off) = Some true
  /\ handle_bit tgt s1 (handle_of tgt pool off) = Some false
  /\ rseq_percpu_free tgt (handle_of tgt pool off) s1 = Abort.
Proof.
  intros Hwf Hv Hnotin Hb Hfree.
  destruct (free_push tgt s pool L off s1 Hwf Hv Hnotin Hfree)
    as (Hwf1 & (_ & _ & _ & Hpl & Hio & _) & _ & Hun).
  pose proof (wf_next _ _ _ _ Hwf) as [Hn _]. destruct Hv as [Hoff _].
  assert (Hidx : 0 <= Z.shiftr off (item_order (pools s pool)))
    by (apply Z.shiftr_nonneg; lia).
  rewrite Hb in Hun. apply unmask_free_slot_inv in Hun; [|exact Hidx].
  destruct Hun as (b' & Hb' & Hlow & Hold & Hnew).
  unfold handle_bit.
  destruct (handle_of_decode tgt s pool L off Hwf ltac:(lia)) as [-> ->].
  rewrite Hb, Hb', Hio. split_and!; auto.
  rewrite (free_unfold tgt s1 pool (off :: L) off Hwf1) by lia.
  rewrite Hb', Hio.
  pose proof (unmask_free_slot_spec tgt b' _ false Hidx Hlow Hnew) as Habort.
  cbn beta iota in Habort. now rewrite Habort.
Qed.

(** In a robust pool, an allocation served from the free list does not touch
    the bitmap: the bit of the slot stays as the free left it. *)
Lemma robust_pop_keeps_bitmap pool zeroed s off L :
  pool_wf tgt s pool (off :: L) ->
  exists s', __rseq_percpu_malloc tgt pool zeroed s = Ok (handle_of tgt pool off, s')
    /\ handle_bit tgt s' (handle_of tgt pool off)
       = handle_bit tgt s (handle_of tgt pool off).
Proof.
  intros Hwf.
  destruct (malloc_pop tgt pool zeroed s off L Hwf)
    as (s' & Hm & Hwf' & (_ & _ & _ & _ & Hio & _) & _ & Hbm & _).
  exists s'. split; [exact Hm|].
  pose proof (wf_offs _ _ _ _ Hwf) as Hoffs. inversion Hoffs as [|? ? [Hv _] _]; subst.
  pose proof (wf_next _ _ _ _ Hwf) as [Hn _].
  unfold handle_bit.
  destruct (handle_of_decode tgt s pool (off :: L) off Hwf ltac:(lia)) as [-> ->].
  now rewrite Hbm, Hio.
Qed.

End RobustFacts.

(** ** Allocation always returns *)

Section TotalityFacts.

Variable tgt : target.

Lemma shiftr_item_order s pool L x :
  pool_wf tgt s pool L ->
  Z.shiftr x (item_order (pools s pool)) = x / item_len (pools s pool).
Proof.
  intros Hwf. destruct (wf_order _ _ _ _ Hwf) as [Ho ->].
  now apply Z.shiftr_div_pow2.
Qed.

Lemma slot_index_lt s pool L a b :
  pool_wf tgt s pool L -> (item_len (pools s pool) | a) ->
  0 <= a -> a + item_len (pools s pool) <= b ->
  0 <= Z.shiftr a (item_order (pools s pool))
    < Z.shiftr b (item_order (pools s pool)).
Proof.
  intros Hwf [k ->] Ha Hb.
  destruct (pool_wf_offset_bound _ _ _ _ Hwf) as (_ & Hipos & _).
  rewrite !(shiftr_item_order s pool L) by exact Hwf.
  rewrite Z.div_mul by lia.
  assert (k + 1 <= b / item_len (pools s pool))
    by (apply Z.div_le_lower_bound; lia).
  nia.
Qed.

(** The bump path of [__rseq_percpu_malloc] returns what [mask_free_slot]
    lets it return. *)
Lemma malloc_bump_outcome pool zeroed s :
  pool_wf tgt s pool [] -> exhausted tgt (pools s pool) = false ->
  match mask_free_slot tgt (free_bitmap (pools s pool))
          (Z.shiftr (next_unused (pools s pool)) (item_order (pools s pool))) with
  | Ok _ => exists h s', __rseq_percpu_malloc tgt pool zeroed s = Ok (h, s')
  | Abort => __rseq_percpu_malloc tgt pool zeroed s = Abort
  | Undefined => __rseq_percpu_malloc tgt pool zeroed s = Undefined
  end.
Proof.
  intros Hwf Hex. pose proof (wf_list _ _ _ _ Hwf) as Hhead. simpl in Hhead.
  unfold exhausted in Hex. rewrite Hhead in Hex. cbn [Z.eqb andb] in Hex.
  unfold __rseq_percpu_malloc. rewrite Hhead, Hex. cbn [Z.eqb negb]. reduce_pool.
  destruct (mask_free_slot _ _ _); cbn [mbind outcome_bind]; try reflexivity.
  destruct (_ && _); eauto.
Qed.

(** In a live pool whose bitmap is clear above the bump cursor, an
    allocation always returns, and keeps the bitmap so. *)
Lemma malloc_total pool zeroed s L :
  pool_wf tgt s pool L -> bitmap_wf tgt (pools s pool) ->
  exists h s', __rseq_percpu_malloc tgt pool zeroed s = Ok (h, s')
               /\ bitmap_wf tgt (pools s' pool).
Proof.
  intros Hwf Hbm. destruct L as [|off L].
  - destruct (exhausted tgt (pools s pool)) eqn:Hex.
    + exists 0, (set_errno ENOMEM s). split; [now apply malloc_exhausted|exact Hbm].
    + pose proof (malloc_bump_outcome pool zeroed s Hwf Hex) as Hout.
      pose proof (wf_next _ _ _ _ Hwf) as [Hn Hd].
      assert (Hfit : next_unused (pools s pool) + item_len (pools s pool)
                     <= percpu_len (pools s pool)).
      { unfold exhausted in Hex. rewrite (wrap_next_unused tgt s pool []) in Hex by exact Hwf.
        rewrite (wf_list _ _ _ _ Hwf) in Hex. cbn [Z.eqb andb] in Hex.
        now apply Z.ltb_ge in Hex. }
      pose proof (slot_index_lt s pool [] _ _ Hwf Hd ltac:(lia) Hfit) as Hidx.
      pose proof (slot_index_lt s pool [] _ _ Hwf Hd ltac:(lia) (Z.le_refl _)) as Hlt.
      set (idx0 := Z.shiftr (next_unused (pools s pool)) (item_order (pools s pool))) in *.
      unfold bitmap_wf in Hbm.
      destruct (free_bitmap (pools s pool)) as [b|] eqn:Hb.
      * assert (Hbit : slot_bit tgt b idx0 = Some false) by (apply Hbm; lia).
        destruct (mask_free_slot_spec tgt b idx0 false (proj1 Hidx) Hbit)
          as (b' & Hb' & _).
        rewrite Hb' in Hout. destruct Hout as (h & s' & Hm).
        exists h, s'. split; [exact Hm|].
        destruct (malloc_bump tgt pool zeroed s h s' Hwf Hex Hm)
          as (_ & _ & _ & (_ & _ & _ & Hpl & Hio & _) & Hnext & Hmask & _).
        rewrite Hb in Hmask. fold idx0 in Hmask. rewrite Hb' in Hmask.
        injection Hmask as Hbs. unfold bitmap_wf. rewrite <- Hbs, Hpl, Hio, Hnext.
        intros idx Hi.
        rewrite (mask_free_slot_other tgt b b' idx0 idx) by (auto; lia).
        apply Hbm. lia.
      * cbn in Hout. destruct Hout as (h & s' & Hm).
        exists h, s'. split; [exact Hm|].
        destruct (malloc_bump tgt pool zeroed s h s' Hwf Hex Hm)
          as (_ & _ & _ & _ & _ & Hmask & _).
        rewrite Hb in Hmask. cbn in Hmask. injection Hmask as Hbs.
        unfold bitmap_wf. now rewrite <- Hbs.
  - destruct (malloc_pop tgt pool zeroed s off L Hwf)
      as (s' & Hm & _ & (_ & _ & _ & Hpl & Hio & _) & Hnext & Hb & _).
    exists (handle_of tgt pool off), s'. split; [exact Hm|].
    unfold bitmap_wf in *. now rewrite Hpl, Hio, Hnext, Hb.
Qed.

Lemma malloc_keeps_bitmap_wf pool zeroed s L h s' :
  pool_wf tgt s pool L -> bitmap_wf tgt (pools s pool) ->
  __rseq_percpu_malloc tgt pool zeroed s = Ok (h, s') ->
  bitmap_wf tgt (pools s' pool).
Proof.
  intros Hwf Hbm Hm.
  destruct (malloc_total pool zeroed s L Hwf Hbm) as (h0 & s0 & Hm0 & Hbm0).
  rewrite Hm0 in Hm. now injection Hm as _ <-.
Qed.

Lemma free_keeps_bitmap_wf pool s L off s' :
  pool_wf tgt s pool L -> valid_offset (pools s pool) off -> ~ In off L ->
  bitmap_wf tgt (pools s pool) ->
  rseq_percpu_free tgt (handle_of tgt pool off) s = Ok s' ->
  bitmap_wf tgt (pools s' pool).
Proof.
  intros Hwf Hv Hnotin Hbm Hfree.
  destruct (free_push tgt s pool L off s' Hwf Hv Hnotin Hfree)
    as (_ & (_ & _ & _ & Hpl & Hio & _) & Hnext & Hun).
  destruct (pool_wf_offset_bound _ _ _ _ Hwf) as (_ & Hipos & _).
  pose proof (wf_next _ _ _ _ Hwf) as [Hn Hd].
  pose proof (valid_offset_fits _ _ Hipos Hd Hv) as Hfit. destruct Hv as [Hoff Hdo].
  pose proof (slot_index_lt s pool L _ _ Hwf Hdo ltac:(lia) Hfit) as Hidx.
  unfold bitmap_wf in *. rewrite Hpl, Hio, Hnext.
  destruct (free_bitmap (pools s pool)) as [b|] eqn:Hb.
  - apply unmask_free_slot_inv in Hun as Hinv; [|lia].
    destruct Hinv as (b' & Hb' & _). rewrite Hb' in *. intros idx Hi.
    rewrite (unmask_free_slot_other tgt b b' _ idx (proj1 Hidx)) by (auto; lia).
    now apply Hbm.
  - cbn in Hun. now injection Hun as <-.
Qed.

End TotalityFacts.

(** ** Other pools and the memory outside the free list *)

Section FrameFacts.

Variable tgt : target.

Lemma pool_wf_mem s pool L m' :
  pool_wf tgt s pool L ->
  (forall off x, In off L ->
     base (pools s pool) + off <= x < base (pools s pool) + off + sizeof_ptr tgt ->
     m' x = mem s x) ->
  pool_wf tgt (set_mem m' s) pool L.
Proof.
  intros Hwf Hm. pose proof Hwf as [].
  apply (pool_wf_intro tgt s _ pool L L Hwf); reduce_pool; auto;
    try (split_and!; reflexivity); try tauto.
  eapply free_list_frame; eauto.
Qed.

Lemma malloc_pools_other i zeroed s h s' j :
  __rseq_percpu_malloc tgt i zeroed s = Ok (h, s') -> j <> i ->
  pools s' j = pools s j.
Proof.
  intros Hm Hne. unfold __rseq_percpu_malloc in Hm.
  destruct (negb _).
  - cbn [mbind outcome_bind] in Hm.
    destruct (_ && _); injection Hm as _ <-; simpl_pool;
      now rewrite fn_lookup_insert_ne by congruence.
  - destruct (_ <? _).
    + cbn [mbind outcome_bind] in Hm. destruct (_ && _); now injection Hm as _ <-.
    + destruct (mask_free_slot _ _ _); cbn [mbind outcome_bind] in Hm; try discriminate.
      destruct (_ && _); injection Hm as _ <-; simpl_pool;
        now rewrite fn_lookup_insert_ne by congruence.
Qed.

Lemma free_list_in_mapping s pool L off x :
  pool_wf tgt s pool L -> In off L ->
  base (pools s pool) + off <= x < base (pools s pool) + off + sizeof_ptr tgt ->
  in_mapping (pools s pool) x.
Proof.
  intros Hwf Hin Hx.
  destruct (pool_wf_offset_bound _ _ _ _ Hwf) as (Hs & Hipos & Hp).
  pose proof (wf_next _ _ _ _ Hwf) as [Hn Hnd].
  pose proof (wf_item _ _ _ _ Hwf) as Hitem.
  destruct (wf_mapped _ _ _ _ Hwf) as (Hb & Hl & Hc & Hm).
  pose proof (wf_offs _ _ _ _ Hwf) as Hoffs. rewrite List.Forall_forall in Hoffs.
  pose proof (valid_offset_fits _ _ Hipos Hnd (Hoffs off Hin)) as Hfit.
  destruct (Hoffs off Hin) as [Ho _]. unfold in_mapping.
  assert (percpu_len (pools s pool)
          <= percpu_len (pools s pool) * max_nr_cpus (pools s pool)) by nia.
  lia.
Qed.

Lemma zero_item_outside p off m x :
  pool_mapped tgt p -> 0 <= off -> off + item_len p <= percpu_len p ->
  0 < item_len p -> ~ in_mapping p x ->
  rseq_percpu_zero_item tgt p off m x = m x.
Proof.
  intros Hmap Hoff Hfit Hpos Hout. unfold rseq_percpu_zero_item.
  apply zero_item_loop_out. intros i Hi.
  rewrite percpu_ptr_exact by (auto; lia).
  destruct Hmap as (Hb & Hl & Hc & Hm). unfold in_mapping in Hout.
  assert (percpu_len p * i + percpu_len p <= percpu_len p * max_nr_cpus p) by nia.
  assert (0 <= percpu_len p * i) by nia.
  lia.
Qed.

(** An allocation from one pool leaves every other live pool live, when
    their mappings do not overlap. *)
Lemma malloc_other_pool i j zeroed s h s' Li Lj :
  pool_wf tgt s i Li -> pool_wf tgt s j Lj -> j <> i ->
  disjoint_mappings (pools s i) (pools s j) ->
  __rseq_percpu_malloc tgt i zeroed s = Ok (h, s') ->
  pool_wf tgt s' j Lj.
Proof.
  intros Hi Hj Hne Hdis Hm.
  pose proof (malloc_pools_other _ _ _ _ _ _ Hm Hne) as Hpj.
  destruct (Z.eq_dec h 0) as [->|Hnz].
  - apply (malloc_null_iff tgt _ _ _ _ _ _ Hi) in Hm as Hex.
    rewrite (malloc_exhausted tgt i zeroed s (proj1 Hex eq_refl)) in Hm.
    injection Hm as <-. now apply pool_wf_set_errno.
  - destruct (malloc_live tgt _ _ _ _ _ _ Hi Hm Hnz)
      as (off & L' & _ & Hwf' & Hgeo & [Hoff _] & _ & Hfit & _ & Hmem).
    destruct (pool_wf_offset_bound _ _ _ _ Hi) as (_ & Hipos & _).
    destruct Hgeo as (Hb & _ & Hil & Hpl & _ & Hmc).
    assert (Hframe : forall o x, In o Lj ->
              base (pools s j) + o <= x < base (pools s j) + o + sizeof_ptr tgt ->
              mem s' x = mem s x).
    { intros o x Ho Hx. rewrite Hmem. destruct zeroed; [|reflexivity].
      apply zero_item_outside; rewrite ?Hil, ?Hpl; auto; try lia.
      - apply (wf_mapped _ _ _ _ Hwf').
      - unfold in_mapping. rewrite Hb, Hpl, Hmc. intros Hin.
        apply (Hdis x Hin). eapply free_list_in_mapping; eauto. }
    pose proof Hj as [].
    split; rewrite ?Hpj; auto.
    eapply free_list_frame; eauto.
Qed.

(** So does a free. *)
Lemma free_other_pool i j s off s' Li Lj :
  pool_wf tgt s i Li -> pool_wf tgt s j Lj -> j <> i ->
  disjoint_mappings (pools s i) (pools s j) ->
  valid_offset (pools s i) off ->
  rseq_percpu_free tgt (handle_of tgt i off) s = Ok s' ->
  pool_wf tgt s' j Lj.
Proof.
  intros Hi Hj Hne Hdis Hv Hfree.
  destruct (pool_wf_offset_bound _ _ _ _ Hi) as (_ & Hipos & _).
  pose proof (wf_next _ _ _ _ Hi) as [Hn Hnd].
  pose proof (wf_item _ _ _ _ Hi) as Hitem.
  destruct (wf_mapped _ _ _ _ Hi) as (Hb & Hl & Hc & Hm).
  pose proof (valid_offset_fits _ _ Hipos Hnd Hv) as Hfit. destruct Hv as [Hoff _].
  rewrite (free_unfold tgt s i Li off Hi) in Hfree by lia.
  destruct (unmask_free_slot _ _ _); cbn [mbind outcome_bind] in Hfree; try discriminate.
  injection Hfree as <-. pose proof Hj as [].
  split; simpl_pool; rewrite ?fn_lookup_insert_ne by congruence; auto.
  eapply free_list_frame; eauto.
  intros o x Ho Hx. apply store_le_out.
  assert (Hin : in_mapping (pools s j) x) by (eapply free_list_in_mapping; eauto).
  assert (Hout : ~ in_mapping (pools s i) x) by (intros E; exact (Hdis x E Hin)).
  unfold in_mapping in Hout.
  assert (percpu_len (pools s i)
          <= percpu_len (pools s i) * max_nr_cpus (pools s i)) by nia.
  lia.
Qed.

End FrameFacts.

(** ** The invariant along the runs of a client *)

Section ClientFacts.

Variable tgt : target.

Lemma malloc_live_set pool zeroed s L h s' :
  pool_wf tgt s pool L ->
  __rseq_percpu_malloc tgt pool zeroed s = Ok (h, s') ->
  h <> 0 ->
  exists off L',
    h = handle_of tgt pool off
    /\ 0 <= off < percpu_len (pools s pool)
    /\ pool_wf tgt s' pool L'
    /\ forall o, valid_offset (pools s' pool) o /\ ~ In o L'
                 <-> o = off \/ (valid_offset (pools s pool) o /\ ~ In o L).
Proof.
  intros Hwf Hm Hnz.
  destruct (pool_wf_offset_bound _ _ _ _ Hwf) as (Hs & Hipos & Hp).
  pose proof (wf_next _ _ _ _ Hwf) as [Hn Hnd].
  destruct L as [|off L].
  - destruct (exhausted tgt (pools s pool)) eqn:Hex.
    + rewrite malloc_exhausted in Hm by exact Hex. congruence.
    + destruct (malloc_bump tgt pool zeroed s h s' Hwf Hex Hm)
        as (-> & Hfit & Hwf' & (_ & _ & Hil & _) & Hnext & _).
      exists (next_unused (pools s pool)), []. split_and!; auto; try lia.
      intros o. unfold valid_offset. rewrite Hil, Hnext. split.
      * intros [[Ho Hd] _].
        destruct (Z.eq_dec o (next_unused (pools s pool))) as [->|Hne]; [now left|].
        right. split_and!; auto; try lia.
        destruct (slots_disjoint _ _ _ Hipos Hd Hnd Hne); lia.
      * intros [->|[[Ho Hd] _]]; split_and!; auto; lia.
  - destruct (malloc_pop tgt pool zeroed s off L Hwf)
      as (s1 & Hm1 & Hwf' & (_ & _ & Hil & _) & Hnext & _).
    rewrite Hm1 in Hm. injection Hm as <- <-.
    pose proof (wf_offs _ _ _ _ Hwf) as Hoffs. inversion Hoffs as [|? ? Hv _]; subst.
    pose proof (wf_nodup _ _ _ _ Hwf) as Hnodup. inversion Hnodup as [|? ? Hni _]; subst.
    exists off, L. split_and!; auto; try (destruct Hv; lia).
    intros o. unfold valid_offset in *. rewrite Hil, Hnext. split.
    + intros [Hvo Hno]. destruct (Z.eq_dec o off) as [->|Hne]; [now left|].
      right. split; [exact Hvo|]. intros [E|E]; [congruence|contradiction].
    + intros [->|[Hvo Hno]]; [split; assumption|].
      split; [exact Hvo|]. intros E. apply Hno. now right.
Qed.

(** A store into a live item leaves the free list alone. *)
Lemma store_live_item s pool L off cpu k v :
  pool_wf tgt s pool L -> valid_offset (pools s pool) off -> ~ In off L ->
  0 <= cpu < max_nr_cpus (pools s pool) -> 0 <= k < item_len (pools s pool) ->
  pool_wf tgt
    (set_mem (<[base (pools s pool) + percpu_len (pools s pool) * cpu + off + k := v]>
                (mem s)) s) pool L.
Proof.
  intros Hwf Hv Hnotin Hcpu Hk.
  destruct (pool_wf_offset_bound _ _ _ _ Hwf) as (Hs & Hipos & Hp).
  pose proof (wf_next _ _ _ _ Hwf) as [Hn Hnd].
  pose proof (wf_item _ _ _ _ Hwf) as Hitem.
  pose proof (wf_offs _ _ _ _ Hwf) as Hoffs. rewrite List.Forall_forall in Hoffs.
  pose proof (valid_offset_fits _ _ Hipos Hnd Hv) as Hfit.
  apply (pool_wf_mem tgt); [exact Hwf|].
  intros o x Ho Hx. apply fn_lookup_insert_ne.
  pose proof (valid_offset_fits _ _ Hipos Hnd (Hoffs o Ho)) as Hfit'.
  destruct (Hoffs o Ho) as [Ho1 Ho2]. destruct Hv as [Hv1 Hv2].
  assert (Hne : o <> off) by (intros ->; contradiction).
  destruct (Z.eq_dec cpu 0) as [->|].
  - destruct (slots_disjoint _ _ _ Hipos Ho2 Hv2 Hne); lia.
  - assert (percpu_len (pools s pool) <= percpu_len (pools s pool) * cpu) by nia. lia.
Qed.

Theorem pool_step_inv pool c c' :
  pool_inv tgt pool c -> pool_step tgt pool c c' -> pool_inv tgt pool c'.
Proof.
  intros (L & Hwf & HA) Hstep. destruct Hstep; unfold pool_inv; cbn [fst snd] in *.
  - (* malloc *)
    destruct (malloc_live_set _ _ _ _ _ _ Hwf H H0) as (off & L' & -> & Hoff & Hwf' & Hset).
    destruct (handle_of_decode tgt s pool L off Hwf Hoff) as [_ ->].
    exists L'. split; [exact Hwf'|]. intros o. rewrite Hset, <- HA. cbn [In].
    split; (intros [E|E]; [left; congruence|right; assumption]).
  - (* malloc returns null *)
    apply (malloc_null_iff tgt _ _ _ _ _ _ Hwf) in H as Hex.
    rewrite (malloc_exhausted tgt pool zeroed s (proj1 Hex eq_refl)) in H.
    injection H as <-. exists L. split; [now apply pool_wf_set_errno|exact HA].
  - (* free *)
    apply HA in H as [Hv Hnotin].
    destruct (free_push tgt s pool L off s' Hwf Hv Hnotin H0)
      as (Hwf' & (_ & _ & Hil & _) & Hnext & _).
    exists (off :: L). split; [exact Hwf'|]. intros o.
    unfold valid_offset in *. rewrite Hil, Hnext. cbn [In]. split.
    + intros Hin. apply List.in_remove in Hin as [Hin Hne].
      apply HA in Hin as [Hvo Hno]. split; [exact Hvo|]. intros [E|E]; auto.
    + intros [Hvo Hno]. apply List.in_in_remove; [intros ->; apply Hno; now left|].
      apply HA. split; [exact Hvo|]. intros E. apply Hno. now right.
  - (* store *)
    apply HA in H as [Hv Hnotin].
    pose proof (wf_next _ _ _ _ Hwf) as [Hn _].
    assert (Hcpu : 0 <= cpu)
      by (unfold __rseq_percpu_ptr in H1; destruct (Z.ltb_spec cpu 0);
          [discriminate|lia]).
    rewrite (percpu_ptr_of_handle tgt s pool L off cpu Hwf) in H1
      by (destruct Hv; lia).
    injection H1 as <-.
    exists L. split; [|exact HA]. apply store_live_item; auto.
Qed.

(** The invariant holds along every run. *)
Corollary pool_run_inv pool c c' :
  pool_inv tgt pool c -> rtc (pool_step tgt pool) c c' -> pool_inv tgt pool c'.
Proof.
  intros Hinv Hrun. induction Hrun as [|c1 c2 c3 Hstep _ IH]; [exact Hinv|].
  apply IH. eapply pool_step_inv; eauto.
Qed.

(** The steps of a client keep the bitmap clear above the bump cursor. *)
Lemma pool_step_bitmap_wf pool c c' :
  pool_inv tgt pool c -> bitmap_wf tgt (pools (fst c) pool) ->
  pool_step tgt pool c c' -> bitmap_wf tgt (pools (fst c') pool).
Proof.
  intros (L & Hwf & HA) Hbm Hstep. destruct Hstep; cbn [fst snd] in *.
  - eapply malloc_keeps_bitmap_wf; eauto.
  - eapply malloc_keeps_bitmap_wf; eauto.
  - apply HA in H as [Hv Hnotin]. eapply free_keeps_bitmap_wf; eauto.
  - exact Hbm.
Qed.

Corollary pool_run_bitmap_wf pool c c' :
  pool_inv tgt pool c -> bitmap_wf tgt (pools (fst c) pool) ->
  rtc (pool_step tgt pool) c c' ->
  pool_inv tgt pool c' /\ bitmap_wf tgt (pools (fst c') pool).
Proof.
  intros Hinv Hbm Hrun. induction Hrun as [|c1 c2 c3 Hstep _ IH]; [now split|].
  apply IH; [eapply pool_step_inv|eapply pool_step_bitmap_wf]; eauto.
Qed.

(** A pool that was just created satisfies the invariant with no live
    item. *)
Lemma pool_inv_fresh s pool :
  pool_wf tgt s pool [] -> next_unused (pools s pool) = 0 ->
  pool_inv tgt pool (s, []).
Proof.
  intros Hwf Hn. exists []. split; [exact Hwf|]. intros off. cbn.
  unfold valid_offset. rewrite Hn. split; [tauto|lia].
Qed.

End ClientFacts.

(** ** From creation on *)

Section CreatedPool.

Variable tgt : target.
Variable sys_mmap : Z -> Z -> Z * Z.
Variable sys_munmap : Z -> Z -> Z -> Z * Z.

Lemma pool_create_slot page_len calloc_ok item_len percpu_len max_nr_cpus
    mmap_attr flags s i s' :
  rseq_percpu_pool_create tgt sys_mmap sys_munmap page_len calloc_ok
    item_len percpu_len max_nr_cpus mmap_attr flags s = Ok (Some i, s') ->
  FIRST_POOL <= i < MAX_NR_POOLS tgt
  /\ base (pools s i) = 0 /\ base (pools s' i) <> 0
  /\ free_list_head (pools s' i) = free_list_head (pools s i)
  /\ next_unused (pools s' i) = next_unused (pools s i)
  /\ forall j, j <> i -> pools s' j = pools s j.
Proof.
  unfold rseq_percpu_pool_create.
  destruct (negb _); [discriminate|].
  destruct (_ <? 0); [discriminate|]. destruct (_ <=? _); [discriminate|].
  destruct (_ || _); [discriminate|].
  destruct (find_empty_pool _ _ _) as [j|] eqn:Hfind; [|discriminate].
  apply find_empty_pool_spec in Hfind. destruct Hfind as [Hj Hb].
  destruct (mmap_func _) as [f|]; [|discriminate].
  destruct (f _ _ _) as [b e]. destruct (Z.eqb_spec b 0); [discriminate|].
  intros [= <- <-]. simpl_pool. split_and!; auto; try (unfold FIRST_POOL in *; lia).
  intros k Hk. now rewrite fn_lookup_insert_ne by congruence.
Qed.

(** Creation establishes the invariant of the bitmap. *)
Lemma pool_create_bitmap_wf page_len calloc_ok item_len percpu_len max_nr_cpus
    mmap_attr flags s i s' :
  rseq_percpu_pool_create tgt sys_mmap sys_munmap page_len calloc_ok
    item_len percpu_len max_nr_cpus mmap_attr flags s = Ok (Some i, s') ->
  free_bitmap (pools s i) = None -> next_unused (pools s i) = 0 ->
  bitmap_wf tgt (pools s' i).
Proof.
  unfold rseq_percpu_pool_create.
  destruct (negb _); [discriminate|].
  set (x := if item_len <? sizeof_ptr tgt then sizeof_ptr tgt else item_len).
  destruct (Z.ltb_spec (rseq_get_count_order_ulong x) 0) as [|Hord0]; [discriminate|].
  destruct (_ <=? _); [discriminate|].
  rewrite uintptr_max_shift.
  destruct (Z.ltb_spec max_nr_cpus 0); [discriminate|].
  destruct (Z.ltb_spec (rseq_align tgt percpu_len page_len)
              (Z.shiftl 1 (rseq_get_count_order_ulong x))); [discriminate|].
  destruct (Z.ltb_spec (2 ^ POOL_INDEX_SHIFT tgt - 1)
              (rseq_align tgt percpu_len page_len)) as [|Hs]; [discriminate|].
  cbn [orb].
  destruct (find_empty_pool _ _ _) as [j|]; [|discriminate].
  destruct (mmap_func _) as [f|]; [|discriminate].
  destruct (f _ _ _) as [b e]. destruct (b =? 0); [discriminate|].
  intros [= <- <-] Hold Hnext. unfold bitmap_wf. simpl_pool.
  destruct (negb _); cbn [fst]; [|now rewrite Hold].
  unfold create_free_bitmap. destruct calloc_ok; cbn [fst]; [|exact I].
  rewrite Hnext, Z.shiftr_0_l.
  assert (Ha : 0 <= rseq_align tgt percpu_len page_len)
    by (unfold rseq_align, wrap; apply Z.mod_pos_bound; destruct tgt; reflexivity).
  intros idx Hidx. apply slot_bit_replicate; [exact Hidx|].
  rewrite Z.shiftr_div_pow2 by lia.
  assert (0 < 2 ^ rseq_get_count_order_ulong x) by (apply Z.pow_pos_nonneg; lia).
  pose proof (Z.div_le_upper_bound (rseq_align tgt percpu_len page_len)
                (2 ^ rseq_get_count_order_ulong x)
                (rseq_align tgt percpu_len page_len) ltac:(lia) ltac:(nia)).
  lia.
Qed.

(** X1: from the creation of a pool on, along any run of a client, the pool is
    live. *)
Theorem created_pool_stays_live page_len calloc_ok item_len percpu_len
    max_nr_cpus mmap_attr flags s i s0 c :
  rseq_percpu_pool_create tgt sys_mmap sys_munmap page_len calloc_ok
    item_len percpu_len max_nr_cpus mmap_attr flags s = Ok (Some i, s0) ->
  free_list_head (pools s i) = 0 -> next_unused (pools s i) = 0 ->
  pool_mapped tgt (pools s0 i) ->
  rtc (pool_step tgt i) (s0, []) c ->
  pool_inv tgt i c.
Proof.
  intros Hc Hh Hn Hmap Hrun.
  apply (pool_run_inv tgt i (s0, [])); [|exact Hrun].
  apply pool_inv_fresh.
  - eapply (pool_create_wf tgt); eauto.
  - destruct (pool_create_slot _ _ _ _ _ _ _ _ _ _ Hc) as (_ & _ & _ & _ & -> & _).
    exact Hn.
Qed.
(** X2: from the creation, in a zero-filled slot, of a pool whose mapping lies
    in the address space, along any run of a client, an allocation from the
    pool returns: with a handle, or with null. *)
Theorem created_pool_malloc_returns page_len calloc_ok item_len percpu_len
    max_nr_cpus mmap_attr flags s i s0 c zeroed :
  rseq_percpu_pool_create tgt sys_mmap sys_munmap page_len calloc_ok
    item_len percpu_len max_nr_cpus mmap_attr flags s = Ok (Some i, s0) ->
  free_list_head (pools s i) = 0 -> next_unused (pools s i) = 0 ->
  free_bitmap (pools s i) = None ->
  pool_mapped tgt (pools s0 i) ->
  rtc (pool_step tgt i) (s0, []) c ->
  exists h s', __rseq_percpu_malloc tgt i zeroed (fst c) = Ok (h, s').
Proof.
  intros Hc Hh Hn Hb Hmap Hrun.
  destruct (pool_run_bitmap_wf tgt i (s0, []) c) as [(L & Hwf & _) Hbm]; auto.
  - apply pool_inv_fresh.
    + eapply (pool_create_wf tgt); eauto.
    + destruct (pool_create_slot _ _ _ _ _ _ _ _ _ _ Hc) as (_ & _ & _ & _ & -> & _).
      exact Hn.
  - eapply pool_create_bitmap_wf; eauto.
  - destruct (malloc_total tgt i zeroed (fst c) L Hwf Hbm) as (h & s' & Hm & _).
    eauto.
Qed.

End CreatedPool.

(** * The claims *)

Section Claims.

Variable tgt : target.
Variable sys_mmap : Z -> Z -> Z * Z.
Variable sys_munmap : Z -> Z -> Z -> Z * Z.

(** C4 (as amended): for valid flags, and an item length for which the
    rounding to a power of two is defined, pool creation rounds the stride up
    to a page multiple and its argument check fails with [EINVAL] exactly
    when [max_nr_cpus < 0], or the rounded item length exceeds the stride, or
    the stride exceeds [2^(W-I) - 1]: a rounded stride equal to [2^(W-I)] is
    rejected.  Past the check, [errno] can only be [EINVAL] on failure when
    the mapping callback left it. *)
Theorem pool_create_argument_check page_len calloc_ok item_len percpu_len
    max_nr_cpus mmap_attr flags s :
  Z.land flags (Z.lnot RSEQ_POOL_FLAGS) = 0 ->
  item_len <= 2 ^ (RSEQ_BITS_PER_LONG tgt - 1) ->
  let stride := rseq_align tgt percpu_len page_len in
  let rejected :=
    max_nr_cpus < 0 \/ rounded_item_len tgt item_len > stride
    \/ stride > 2 ^ (RSEQ_BITS_PER_LONG tgt - POOL_INDEX_BITS tgt) - 1 in
  let r := rseq_percpu_pool_create tgt sys_mmap sys_munmap page_len calloc_ok
             item_len percpu_len max_nr_cpus mmap_attr flags s in
  (rejected -> r = Ok (None, set_errno EINVAL s))
  /\ (~ rejected -> r = Ok (None, set_errno EINVAL s) ->
      exists i attr f,
        attr = match mmap_attr with
               | Some a => a
               | None => {| mmap_func := Some (default_mmap_func tgt sys_mmap);
                            munmap_func := Some (default_munmap_func sys_munmap);
                            mmap_priv := 0 |}
               end
        /\ find_empty_pool (pools s) (Z.to_nat (MAX_NR_POOLS tgt - FIRST_POOL)) FIRST_POOL
        = Some i
        /\ mmap_func attr = Some f
        /\ f (mmap_priv attr) (wrap tgt (stride * max_nr_cpus)) (errno s) = (0, EINVAL)).
Proof.
  intros Hflags Hlen stride rejected r.
  destruct (item_order_range tgt item_len Hlen) as [Hord _]. cbv zeta in Hord.
  assert (Hr : r = rseq_percpu_pool_create tgt sys_mmap sys_munmap page_len calloc_ok
             item_len percpu_len max_nr_cpus mmap_attr flags s) by reflexivity.
  unfold rseq_percpu_pool_create in Hr. rewrite Hflags in Hr. cbn [Z.eqb negb] in Hr.
  destruct (Z.ltb_spec (rseq_get_count_order_ulong
              (if item_len <? sizeof_ptr tgt then sizeof_ptr tgt else item_len)) 0)
    as [|_]; [lia|].
  destruct (Z.leb_spec (RSEQ_BITS_PER_LONG tgt) (rseq_get_count_order_ulong
              (if item_len <? sizeof_ptr tgt then sizeof_ptr tgt else item_len)))
    as [|_]; [lia|].
  rewrite uintptr_max_shift in Hr.
  fold (rounded_item_len tgt item_len) in Hr. fold stride in Hr.
  fold (POOL_INDEX_SHIFT tgt) in rejected.
  destruct (Z.ltb_spec max_nr_cpus 0) as [Hc|Hc];
    [split; [intros _; exact Hr|intros Hn; exfalso; apply Hn; left; exact Hc]|].
  destruct (Z.ltb_spec stride (rounded_item_len tgt item_len)) as [Hi|Hi];
    [split; [intros _; exact Hr|intros Hn; exfalso; apply Hn; right; left; lia]|].
  destruct (Z.ltb_spec (2 ^ POOL_INDEX_SHIFT tgt - 1) stride) as [Hs|Hs];
    [split; [intros _; exact Hr|intros Hn; exfalso; apply Hn; right; right; lia]|].
  cbn [orb] in Hr. split; [intros [?|[?|?]]; lia|].
  intros _ Hres. rewrite Hr in Hres.
  destruct (find_empty_pool _ _ _) as [i|]; [|discriminate].
  set (attr := match mmap_attr with Some a => a | None => _ end) in *.
  destruct (mmap_func attr) as [f|] eqn:Hf; [|discriminate].
  destruct (f _ _ _) as [b e] eqn:Hcall.
  destruct (Z.eqb_spec b 0) as [->|]; [|discriminate].
  injection Hres as He. exists i, attr, f. now rewrite Hcall, He.
Qed.



(** C7 (as amended): for a handle that holds the item offset [off] in its low
    bits, [off] being less than the stride, for a pool whose mapping
    [base, base + percpu_len * max_nr_cpus) lies in the address space, and
    for a CPU below [max_nr_cpus], the decoded pointer is
    [base + percpu_len * cpu + off], with [base] and [percpu_len] read from
    the directory entry of the handle; the pointers of two CPUs [c1 < c2]
    are [(c2 - c1) * percpu_len] apart.  Creation does not ensure the
    condition on the mapping: it passes [percpu_len * max_nr_cpus] to the
    mapping callback as a [size_t]. *)
Theorem percpu_ptr_stride s pool off cpu :
  0 <= off < percpu_len (pools s pool) ->
  off < 2 ^ POOL_INDEX_SHIFT tgt ->
  pool_mapped tgt (pools s pool) ->
  0 <= cpu < max_nr_cpus (pools s pool) ->
  __rseq_percpu_ptr tgt (handle_of tgt pool off) cpu s
  = Ok (base (pools s pool) + percpu_len (pools s pool) * cpu + off)
  /\ (forall c2 a1 a2,
        cpu < c2 < max_nr_cpus (pools s pool) ->
        __rseq_percpu_ptr tgt (handle_of tgt pool off) cpu s = Ok a1 ->
        __rseq_percpu_ptr tgt (handle_of tgt pool off) c2 s = Ok a2 ->
        a2 - a1 = (c2 - cpu) * percpu_len (pools s pool)).
Proof.
  intros Hoff Hlow Hmap Hcpu.
  assert (Hptr : forall c, 0 <= c < max_nr_cpus (pools s pool) ->
            __rseq_percpu_ptr tgt (handle_of tgt pool off) c s
            = Ok (base (pools s pool) + percpu_len (pools s pool) * c + off)).
  { intros c Hc. unfold __rseq_percpu_ptr, handle_of.
    rewrite handle_pool_index, handle_item_offset by lia.
    destruct (Z.ltb_spec c 0); [lia|].
    f_equal. now apply percpu_ptr_exact. }
  split; [now apply Hptr|].
  intros c2 a1 a2 Hc2. rewrite !Hptr by lia.
  intros [= <-] [= <-]. lia.
Qed.


(** C9: when [zmalloc] returns a non-null handle, every byte of the item
    reads as zero in the slice of every CPU, whatever the memory held
    before. *)
Theorem zmalloc_zeroes_every_cpu pool s L h s' :
  pool_wf tgt s pool L ->
  rseq_percpu_zmalloc tgt pool s = Ok (h, s') ->
  h <> 0 ->
  forall cpu j,
    0 <= cpu < max_nr_cpus (pools s pool) ->
    0 <= j < item_len (pools s pool) ->
    __rseq_percpu_ptr tgt h cpu s'
    = Ok (base (pools s pool) + percpu_len (pools s pool) * cpu
          + Z.land h (MAX_POOL_LEN_MASK tgt))
    /\ mem s' (base (pools s pool) + percpu_len (pools s pool) * cpu
               + Z.land h (MAX_POOL_LEN_MASK tgt) + j) = 0.
Proof.
  intros Hwf Hm Hnz cpu j Hcpu Hj. unfold rseq_percpu_zmalloc in Hm.
  destruct (malloc_live tgt _ _ _ _ _ _ Hwf Hm Hnz)
    as (off & L' & -> & Hwf' & Hgeo & [Hoff Hdiv] & _ & Hfit & _ & Hmem).
  destruct (pool_wf_offset_bound _ _ _ _ Hwf) as (Hs & Hipos & Hp).
  destruct Hgeo as (Hb & _ & Hil & Hpl & _ & Hmc).
  destruct (handle_of_decode tgt s pool L off Hwf ltac:(lia)) as [_ ->].
  split.
  - rewrite (percpu_ptr_of_handle tgt s' pool L') by (auto; lia).
    now rewrite Hb, Hpl.
  - rewrite Hmem. unfold rseq_percpu_zero_item.
    apply (zero_item_loop_in tgt _ _ _ 0 _ cpu); [lia|].
    rewrite percpu_ptr_exact by (try apply (wf_mapped _ _ _ _ Hwf'); lia).
    lia.
Qed.

(** C10: when the free list is empty and [next_unused + item_len] exceeds
    the stride, [malloc] returns null with [errno = ENOMEM] and leaves the
    pools and the memory as they were: [free_list_head], [next_unused] and
    the bitmap are unchanged. *)
Theorem malloc_failure_frame pool zeroed s :
  free_list_head (pools s pool) = 0 ->
  percpu_len (pools s pool)
    < wrap tgt (next_unused (pools s pool) + item_len (pools s pool)) ->
  exists s',
    __rseq_percpu_malloc tgt pool zeroed s = Ok (0, s')
    /\ errno s' = ENOMEM
    /\ free_list_head (pools s' pool) = free_list_head (pools s pool)
    /\ next_unused (pools s' pool) = next_unused (pools s pool)
    /\ free_bitmap (pools s' pool) = free_bitmap (pools s pool)
    /\ pools s' = pools s /\ mem s' = mem s.
Proof.
  intros Hh Hn. exists (set_errno ENOMEM s). split; [|split_and!; reflexivity].
  apply malloc_exhausted. unfold exhausted.
  rewrite Hh. apply Z.ltb_lt in Hn. now rewrite Hn.
Qed.

End Claims.

(** * The claims on concrete runs *)

Ltac decide_arith :=
  vm_compute; repeat split; try reflexivity; try (intro; discriminate).

Lemma demo_state_wf : pool_wf LP64 demo_state 1 [].
Proof.
  apply (pool_create_wf LP64 (mmap_at 1048576) munmap_ok 4096 true 32 65536 4
           None 0 boot); try reflexivity.
  decide_arith.
Qed.

Lemma lifo_s1_wf : pool_wf LP64 lifo_s1 1 [].
Proof.
  refine (proj1 (proj2 (proj2 (malloc_bump LP64 1 false demo_state lifo_h1 lifo_s1
                          demo_state_wf _ _)))); reflexivity.
Qed.

(** C1 (the code breaks it): in a robust pool, an allocation served from
    the free list leaves the bit of the slot at 0.  After
    [h = malloc; free(h); h' = malloc] the second allocation returns the same
    handle, the bit of its slot reads 0, and the free of that live handle
    aborts on the assertion of [unmask_free_slot]. *)
Theorem robust_pop_leaves_bit_clear :
  robust_reuse = Ok (handle_of LP64 1 0, handle_of LP64 1 0, Some false, true).
Proof. vm_compute. reflexivity. Qed.

(** C2 (the code breaks it): [rseq_percpu_pool_destroy] returns 0 on its
    error paths: for a pool that was never allocated it sets
    [errno = ENOENT] and returns 0, and when the unmapping callback fails it
    returns 0 with the [errno] of the callback, the pool being left in
    place. *)
Theorem pool_destroy_returns_zero_on_error :
  (forall tgt pool m,
      rseq_percpu_pool_destroy tgt pool (initial_state m)
      = Ok (0, set_errno ENOENT (initial_state m)))
  /\ (exists s, destroy_with_failing_munmap = Ok (0, s)
        /\ errno s = EINVAL /\ base (pools s 1) = 1048576).
Proof.
  split; [reflexivity|].
  exists (state_of destroy_with_failing_munmap boot).
  split; [reflexivity|]. split; reflexivity.
Qed.

(** C3 (the code breaks it): in a robust pool on the 64-bit target, with
    33 items allocated, the free of the last one (slot index 32) evaluates
    [1 << 32] on an [int], which is undefined: the bit of slot 32 is not
    taken from 1 to 0. *)
Theorem robust_free_slot32_undefined :
  robust_free_last 33 = Undefined.
Proof. vm_compute. reflexivity. Qed.

(** Counterexample to C4 as stated: a stride of [2^(W-I)] (here 2^48, a page
    multiple) meets none of the three stated conditions, and creation fails
    with [EINVAL]. *)
Lemma pool_create_max_stride_rejected :
  rseq_align LP64 (2 ^ 48) 4096 = 2 ^ (RSEQ_BITS_PER_LONG LP64 - POOL_INDEX_BITS LP64)
  /\ ~ (1 < 0
        \/ rounded_item_len LP64 8 > rseq_align LP64 (2 ^ 48) 4096
        \/ rseq_align LP64 (2 ^ 48) 4096
           > 2 ^ (RSEQ_BITS_PER_LONG LP64 - POOL_INDEX_BITS LP64))
  /\ create64 8 (2 ^ 48) 1 0 boot = Ok (None, set_errno EINVAL boot).
Proof.
  split; [reflexivity|]. split; [|reflexivity].
  vm_compute. intros [H|[H|H]]; discriminate H.
Qed.

Lemma pool_create_argument_check_witness :
  Z.land 0 (Z.lnot RSEQ_POOL_FLAGS) = 0
  /\ 8 <= 2 ^ (RSEQ_BITS_PER_LONG LP64 - 1)
  /\ ((1 < 0 \/ rounded_item_len LP64 8 > rseq_align LP64 (2 ^ 48) 4096
       \/ rseq_align LP64 (2 ^ 48) 4096
          > 2 ^ (RSEQ_BITS_PER_LONG LP64 - POOL_INDEX_BITS LP64) - 1) ->
      create64 8 (2 ^ 48) 1 0 boot = Ok (None, set_errno EINVAL boot)).
Proof.
  assert (H1 : Z.land 0 (Z.lnot RSEQ_POOL_FLAGS) = 0) by reflexivity.
  assert (H2 : 8 <= 2 ^ (RSEQ_BITS_PER_LONG LP64 - 1)) by (vm_compute; discriminate).
  split; [exact H1|]. split; [exact H2|].
  exact (proj1 (pool_create_argument_check LP64 (mmap_at 1048576) munmap_ok 4096 true
                  8 (2 ^ 48) 1 None 0 boot H1 H2)).
Defined.



(** Counterexample to C7 as stated: the pool that
    [rseq_percpu_pool_create (16, 2^47, 131073, NULL, 0)] returns has a
    stride of [2^47] and 131073 CPUs, the product of which wraps to [2^47] as
    a [size_t].  The handle the first allocation returns decodes to the same
    address for CPU 0 and for CPU 131072, which is not
    [base + percpu_len * 131072 + item_offset], and the two addresses are not
    [131072 * percpu_len] apart. *)
Lemma percpu_ptr_wraps_on_created_pool :
  create64 16 (2 ^ 47) 131073 0 boot = Ok (Some 1, overflow_state)
  /\ percpu_len (pools overflow_state 1) = 2 ^ 47
  /\ max_nr_cpus (pools overflow_state 1) = 131073
  /\ (exists s', rseq_percpu_malloc LP64 1 overflow_state = Ok (handle_of LP64 1 0, s'))
  /\ __rseq_percpu_ptr LP64 (handle_of LP64 1 0) 0 overflow_state = Ok 1048576
  /\ __rseq_percpu_ptr LP64 (handle_of LP64 1 0) 131072 overflow_state = Ok 1048576
  /\ 1048576 <> base (pools overflow_state 1)
                + percpu_len (pools overflow_state 1) * 131072 + 0
  /\ 1048576 - 1048576 <> (131072 - 0) * percpu_len (pools overflow_state 1).
Proof.
  split; [reflexivity|]. split; [reflexivity|]. split; [reflexivity|].
  split; [eexists; reflexivity|].
  split; [vm_compute; reflexivity|]. split; [vm_compute; reflexivity|].
  split; vm_compute; discriminate.
Qed.

Lemma percpu_ptr_stride_witness :
  0 <= 32 < percpu_len (pools demo_state 1)
  /\ 32 < 2 ^ POOL_INDEX_SHIFT LP64
  /\ pool_mapped LP64 (pools demo_state 1)
  /\ 0 <= 1 < max_nr_cpus (pools demo_state 1)
  /\ __rseq_percpu_ptr LP64 (handle_of LP64 1 32) 1 demo_state
     = Ok (1048576 + 65536 * 1 + 32)
  /\ (forall c2 a1 a2,
        1 < c2 < 4 ->
        __rseq_percpu_ptr LP64 (handle_of LP64 1 32) 1 demo_state = Ok a1 ->
        __rseq_percpu_ptr LP64 (handle_of LP64 1 32) c2 demo_state = Ok a2 ->
        a2 - a1 = (c2 - 1) * 65536).
Proof.
  assert (H1 : 0 <= 32 < percpu_len (pools demo_state 1)) by decide_arith.
  assert (H2 : 32 < 2 ^ POOL_INDEX_SHIFT LP64) by reflexivity.
  assert (H3 : pool_mapped LP64 (pools demo_state 1)) by decide_arith.
  assert (H4 : 0 <= 1 < max_nr_cpus (pools demo_state 1)) by decide_arith.
  split; [exact H1|]. split; [exact H2|]. split; [exact H3|]. split; [exact H4|].
  exact (percpu_ptr_stride LP64 demo_state 1 32 1 H1 H2 H3 H4).
Defined.



Lemma zmalloc_zeroes_every_cpu_witness :
  pool_wf LP64 demo_state 1 []
  /\ rseq_percpu_zmalloc LP64 1 demo_state
     = Ok (lifo_h1, state_of (rseq_percpu_zmalloc LP64 1 demo_state) demo_state)
  /\ lifo_h1 <> 0
  /\ mem demo_state (1048576 + 65536 * 3 + 31) = 255
  /\ mem (state_of (rseq_percpu_zmalloc LP64 1 demo_state) demo_state)
       (1048576 + 65536 * 3 + 0 + 31) = 0.
Proof.
  assert (H2 : rseq_percpu_zmalloc LP64 1 demo_state
     = Ok (lifo_h1, state_of (rseq_percpu_zmalloc LP64 1 demo_state) demo_state))
    by reflexivity.
  assert (H3 : lifo_h1 <> 0) by (vm_compute; discriminate).
  split; [exact demo_state_wf|]. split; [exact H2|]. split; [exact H3|].
  split; [reflexivity|].
  refine (proj2 (zmalloc_zeroes_every_cpu LP64 1 demo_state [] lifo_h1 _
                   demo_state_wf H2 H3 3 31 _ _)); decide_arith.
Defined.

Lemma malloc_failure_frame_witness :
  free_list_head (pools full_state 1) = 0
  /\ percpu_len (pools full_state 1)
     < wrap LP64 (next_unused (pools full_state 1) + item_len (pools full_state 1))
  /\ exists s',
       __rseq_percpu_malloc LP64 1 false full_state = Ok (0, s')
       /\ errno s' = ENOMEM
       /\ free_list_head (pools s' 1) = free_list_head (pools full_state 1)
       /\ next_unused (pools s' 1) = next_unused (pools full_state 1)
       /\ free_bitmap (pools s' 1) = free_bitmap (pools full_state 1)
       /\ pools s' = pools full_state /\ mem s' = mem full_state.
Proof.
  assert (H1 : free_list_head (pools full_state 1) = 0) by reflexivity.
  assert (H2 : percpu_len (pools full_state 1)
     < wrap LP64 (next_unused (pools full_state 1) + item_len (pools full_state 1)))
    by reflexivity.
  split; [exact H1|]. split; [exact H2|].
  exact (malloc_failure_frame LP64 1 false full_state H1 H2).
Defined.

(** * Further properties *)

(** ** Creation and destruction of pools *)

Section CreateDestroy.

Variable tgt : target.
Variable sys_mmap : Z -> Z -> Z * Z.
Variable sys_munmap : Z -> Z -> Z -> Z * Z.

Lemma find_empty_pool_first dir n : forall i0 i,
  find_empty_pool dir n i0 = Some i ->
  forall j, i0 <= j < i -> base (dir j) <> 0.
Proof.
  induction n as [|n IH]; intros i0 i; cbn [find_empty_pool]; [discriminate|].
  destruct (Z.eqb_spec (base (dir i0)) 0) as [E|E].
  - intros [= <-] j Hj. lia.
  - intros H j Hj. destruct (Z.eq_dec j i0) as [->|]; [exact E|].
    apply (IH _ _ H). lia.
Qed.

Lemma find_empty_pool_none dir n : forall i0,
  (forall j, i0 <= j < i0 + Z.of_nat n -> base (dir j) <> 0) ->
  find_empty_pool dir n i0 = None.
Proof.
  induction n as [|n IH]; intros i0 H; cbn [find_empty_pool]; [reflexivity|].
  destruct (Z.eqb_spec (base (dir i0)) 0) as [E|E].
  - exfalso. apply (H i0); [lia|exact E].
  - apply IH. intros j Hj. apply H. lia.
Qed.

(** The effect of a call of [rseq_percpu_pool_create] that returns. *)
Lemma pool_create_effect page_len calloc_ok item_len percpu_len max_nr_cpus
    mmap_attr flags s r s' :
  rseq_percpu_pool_create tgt sys_mmap sys_munmap page_len calloc_ok
    item_len percpu_len max_nr_cpus mmap_attr flags s = Ok (r, s') ->
  mem s' = mem s
  /\ match r with
     | None => pools s' = pools s
     | Some i =>
         base (pools s i) = 0 /\ base (pools s' i) <> 0
         /\ forall j, j <> i -> pools s' j = pools s j
     end.
Proof.
  unfold rseq_percpu_pool_create.
  destruct (negb _); [intros [= <- <-]; now split|].
  destruct (_ <? 0); [intros [= <- <-]; now split|].
  destruct (_ <=? _); [discriminate|].
  destruct (_ || _); [intros [= <- <-]; now split|].
  destruct (find_empty_pool _ _ _) as [j|] eqn:Hfind;
    [|intros [= <- <-]; now split].
  apply find_empty_pool_spec in Hfind. destruct Hfind as [Hj Hb].
  destruct (mmap_func _) as [f|]; [|discriminate].
  destruct (f _ _ _) as [b e]. destruct (Z.eqb_spec b 0);
    [intros [= <- <-]; now split|].
  intros [= <- <-]. split; [reflexivity|]. simpl_pool.
  split_and!; auto.
  intros k Hk. now rewrite fn_lookup_insert_ne by congruence.
Qed.

(** X3: a call of [rseq_percpu_pool_create] that returns leaves the memory as it
    was.  When it fails it leaves the directory as it was; when it succeeds
    it has taken the lowest slot from [FIRST_POOL] on whose [base] is null,
    never slot 0, and has left every other slot as it was. *)
Theorem pool_create_frame page_len calloc_ok item_len percpu_len max_nr_cpus
    mmap_attr flags s r s' :
  rseq_percpu_pool_create tgt sys_mmap sys_munmap page_len calloc_ok
    item_len percpu_len max_nr_cpus mmap_attr flags s = Ok (r, s') ->
  mem s' = mem s
  /\ match r with
     | None => pools s' = pools s
     | Some i =>
         FIRST_POOL <= i < MAX_NR_POOLS tgt
         /\ base (pools s i) = 0
         /\ (forall j, FIRST_POOL <= j < i -> base (pools s j) <> 0)
         /\ base (pools s' i) <> 0
         /\ forall j, j <> i -> pools s' j = pools s j
     end.
Proof.
  intros Hc. destruct (pool_create_effect _ _ _ _ _ _ _ _ _ _ Hc) as [Hmem Hr].
  split; [exact Hmem|]. destruct r as [i|]; [|exact Hr].
  destruct Hr as (Hb0 & Hb1 & Hother).
  revert Hc. unfold rseq_percpu_pool_create.
  destruct (negb _); [discriminate|].
  destruct (_ <? 0); [discriminate|]. destruct (_ <=? _); [discriminate|].
  destruct (_ || _); [discriminate|].
  destruct (find_empty_pool _ _ _) as [j|] eqn:Hfind; [|discriminate].
  pose proof (find_empty_pool_first _ _ _ _ Hfind) as Hfirst.
  apply find_empty_pool_spec in Hfind. destruct Hfind as [Hj _].
  destruct (mmap_func _) as [f|]; [|discriminate].
  destruct (f _ _ _) as [b e]. destruct (b =? 0); [discriminate|].
  intros [= <- _]. split_and!; auto; unfold FIRST_POOL in *; lia.
Qed.

(** X4: with every slot from [FIRST_POOL] on in use, creation never succeeds and
    calls no mapping callback: the state only differs in [errno]; and with
    arguments that pass the checks, it fails with [ENOMEM]. *)
Theorem pool_create_directory_full page_len calloc_ok item_len percpu_len
    max_nr_cpus mmap_attr flags s :
  (forall i, FIRST_POOL <= i < MAX_NR_POOLS tgt -> base (pools s i) <> 0) ->
  let r := rseq_percpu_pool_create tgt sys_mmap sys_munmap page_len calloc_ok
             item_len percpu_len max_nr_cpus mmap_attr flags s in
  (r = Ok (None, set_errno EINVAL s) \/ r = Ok (None, set_errno ENOMEM s)
   \/ r = Undefined)
  /\ (Z.land flags (Z.lnot RSEQ_POOL_FLAGS) = 0 ->
      item_len <= 2 ^ (RSEQ_BITS_PER_LONG tgt - 1) ->
      0 <= max_nr_cpus ->
      rounded_item_len tgt item_len <= rseq_align tgt percpu_len page_len
        <= 2 ^ POOL_INDEX_SHIFT tgt - 1 ->
      r = Ok (None, set_errno ENOMEM s)).
Proof.
  intros Hfull r.
  assert (Hnone : find_empty_pool (pools s)
                    (Z.to_nat (MAX_NR_POOLS tgt - FIRST_POOL)) FIRST_POOL = None).
  { apply find_empty_pool_none. intros j Hj. apply Hfull.
    assert (0 < MAX_NR_POOLS tgt) by (destruct tgt; reflexivity).
    unfold FIRST_POOL in *. lia. }
  subst r. unfold rseq_percpu_pool_create. rewrite Hnone. split.
  - destruct (negb _); [auto|]. destruct (_ <? 0); [auto|].
    destruct (_ <=? _); [auto|]. destruct (_ || _); auto.
  - intros Hflags Hlen Hc [Hi Hs].
    destruct (item_order_range tgt item_len Hlen) as [Hord _].
    rewrite Hflags. cbn [Z.eqb negb].
    destruct (Z.ltb_spec (rseq_get_count_order_ulong
                (if item_len <? sizeof_ptr tgt then sizeof_ptr tgt else item_len)) 0)
      as [|_]; [lia|].
    destruct (Z.leb_spec (RSEQ_BITS_PER_LONG tgt) (rseq_get_count_order_ulong
                (if item_len <? sizeof_ptr tgt then sizeof_ptr tgt else item_len)))
      as [|_]; [lia|].
    rewrite uintptr_max_shift. fold (rounded_item_len tgt item_len).
    destruct (Z.ltb_spec max_nr_cpus 0); [lia|].
    destruct (Z.ltb_spec (rseq_align tgt percpu_len page_len)
                (rounded_item_len tgt item_len)); [lia|].
    destruct (Z.ltb_spec (2 ^ POOL_INDEX_SHIFT tgt - 1)
                (rseq_align tgt percpu_len page_len)); [lia|].
    reflexivity.
Qed.

(** The mapping of a pool that was just created. *)
Lemma pool_create_record page_len calloc_ok ilen plen ncpus attr0 flags s i s' :
  rseq_percpu_pool_create tgt sys_mmap sys_munmap page_len calloc_ok
    ilen plen ncpus attr0 flags s = Ok (Some i, s') ->
  let p := pools s' i in
  let attr := match attr0 with
              | Some a => a
              | None => {| mmap_func := Some (default_mmap_func tgt sys_mmap);
                           munmap_func := Some (default_munmap_func sys_munmap);
                           mmap_priv := 0 |}
              end in
  max_nr_cpus p = ncpus
  /\ percpu_len p = rseq_align tgt plen page_len
  /\ mmap_attr p = attr
  /\ exists f, mmap_func attr = Some f
       /\ base p = fst (f (mmap_priv attr) (wrap tgt (percpu_len p * ncpus)) (errno s))
       /\ base p <> 0.
Proof.
  unfold rseq_percpu_pool_create.
  destruct (negb _); [discriminate|].
  destruct (_ <? 0); [discriminate|]. destruct (_ <=? _); [discriminate|].
  destruct (_ || _); [discriminate|].
  destruct (find_empty_pool _ _ _) as [j|]; [|discriminate].
  set (attr := match attr0 with Some a => a | None => _ end).
  destruct (mmap_func attr) as [f|] eqn:Hf; [|discriminate].
  destruct (f _ _ _) as [b e] eqn:Hcall. destruct (Z.eqb_spec b 0); [discriminate|].
  intros [= <- <-]. simpl_pool. split_and!; auto.
  exists f. split; [reflexivity|]. now rewrite Hcall.
Qed.

(** X5: the pool a successful creation leaves in the directory: it carries its
    own index and the requested number of CPUs, its item length is the power
    of two [2 ^ item_order], holds a pointer and the requested length, and
    fits in the stride, which is the requested stride rounded to the page
    and is less than [2 ^ POOL_INDEX_SHIFT]; its base is what the mapping
    callback returned. *)
Theorem pool_create_geometry page_len calloc_ok ilen plen ncpus attr0 flags s i s' :
  rseq_percpu_pool_create tgt sys_mmap sys_munmap page_len calloc_ok
    ilen plen ncpus attr0 flags s = Ok (Some i, s') ->
  let p := pools s' i in
  let attr := match attr0 with
              | Some a => a
              | None => {| mmap_func := Some (default_mmap_func tgt sys_mmap);
                           munmap_func := Some (default_munmap_func sys_munmap);
                           mmap_priv := 0 |}
              end in
  index p = i /\ max_nr_cpus p = ncpus /\ 0 <= ncpus
  /\ percpu_len p = rseq_align tgt plen page_len
  /\ 0 <= item_order p < RSEQ_BITS_PER_LONG tgt
  /\ item_len p = 2 ^ item_order p
  /\ sizeof_ptr tgt <= item_len p
  /\ ilen <= item_len p < 2 * Z.max ilen (sizeof_ptr tgt)
  /\ item_len p <= percpu_len p <= 2 ^ POOL_INDEX_SHIFT tgt - 1
  /\ mmap_attr p = attr
  /\ exists f, mmap_func attr = Some f
       /\ base p = fst (f (mmap_priv attr) (wrap tgt (percpu_len p * ncpus)) (errno s))
       /\ base p <> 0.
Proof.
  unfold rseq_percpu_pool_create.
  destruct (negb _); [discriminate|].
  set (x := if ilen <? sizeof_ptr tgt then sizeof_ptr tgt else ilen).
  assert (Hx : sizeof_ptr tgt <= x /\ ilen <= x)
    by (subst x; destruct (Z.ltb_spec ilen (sizeof_ptr tgt)); lia).
  destruct (Z.ltb_spec (rseq_get_count_order_ulong x) 0) as [|Hord0]; [discriminate|].
  destruct (Z.leb_spec (RSEQ_BITS_PER_LONG tgt) (rseq_get_count_order_ulong x))
    as [|Hord1]; [discriminate|].
  rewrite uintptr_max_shift.
  destruct (Z.ltb_spec ncpus 0) as [|Hc]; [discriminate|].
  destruct (Z.ltb_spec (rseq_align tgt plen page_len)
              (Z.shiftl 1 (rseq_get_count_order_ulong x))) as [|Hi]; [discriminate|].
  destruct (Z.ltb_spec (2 ^ POOL_INDEX_SHIFT tgt - 1)
              (rseq_align tgt plen page_len)) as [|Hs]; [discriminate|].
  cbn [orb].
  destruct (find_empty_pool _ _ _) as [j|]; [|discriminate].
  set (attr := match attr0 with Some a => a | None => _ end).
  destruct (mmap_func attr) as [f|] eqn:Hf; [|discriminate].
  destruct (f _ _ _) as [b e] eqn:Hcall. destruct (Z.eqb_spec b 0); [discriminate|].
  intros [= <- <-]. simpl_pool.
  rewrite Z.shiftl_1_l in *.
  pose proof (sizeof_ptr_pos tgt) as Hp.
  assert (Hp4 : 4 <= sizeof_ptr tgt) by (destruct tgt; vm_compute; discriminate).
  assert (Hpow : x <= 2 ^ rseq_get_count_order_ulong x < 2 * x).
  { unfold rseq_get_count_order_ulong in *. destruct (Z.eqb_spec x 0); [lia|].
    pose proof (Z.log2_up_spec x ltac:(lia)) as [Hlo Hhi].
    pose proof (Z.log2_up_pos x ltac:(lia)) as Hpos.
    split; [exact Hhi|].
    replace (Z.log2_up x) with (Z.succ (Z.pred (Z.log2_up x))) at 1 by lia.
    rewrite Z.pow_succ_r by lia. lia. }
  assert (Hmax : x = Z.max ilen (sizeof_ptr tgt))
    by (subst x; destruct (Z.ltb_spec ilen (sizeof_ptr tgt)); lia).
  split_and!; auto; try lia.
  exists f. split; [reflexivity|]. now rewrite Hcall.
Qed.

(** ** The bitmap and the destruction of a pool *)

Lemma destroy_free_bitmap_loop_zero (b : list Z) n : forall k,
  (forall j, (k <= j < k + n)%nat -> b !! j = Some 0) ->
  destroy_free_bitmap_loop b n k = Ok tt.
Proof.
  induction n as [|n IH]; intros k H; cbn [destroy_free_bitmap_loop]; [reflexivity|].
  rewrite (H k) by lia. cbn [Z.eqb]. apply IH. intros j Hj. apply H. lia.
Qed.

Lemma destroy_free_bitmap_loop_abort (b : list Z) n : forall k j w,
  (k + n <= length b)%nat -> (k <= j < k + n)%nat ->
  b !! j = Some w -> w <> 0 ->
  destroy_free_bitmap_loop b n k = Abort.
Proof.
  induction n as [|n IH]; intros k j w Hlen Hj Hw Hnz; [lia|].
  cbn [destroy_free_bitmap_loop].
  destruct (lookup_lt_is_Some_2 b k ltac:(lia)) as [w0 Hw0]. rewrite Hw0.
  destruct (Z.eqb_spec w0 0) as [->|]; [|reflexivity].
  apply (IH (S k) j w); auto; try lia.
  destruct (Nat.eq_dec j k) as [->|]; [congruence|lia].
Qed.

(** What [rseq_percpu_pool_destroy] does to a pool with a mapping whose
    unmapping callback answers 0 and whose bitmap, if any, passes the check
    of [destroy_free_bitmap]. *)
Lemma pool_destroy_unmapped pool s g :
  base (pools s pool) <> 0 ->
  munmap_func (mmap_attr (pools s pool)) = Some g ->
  let r := g (mmap_priv (mmap_attr (pools s pool))) (base (pools s pool))
             (wrap tgt (percpu_len (pools s pool) * max_nr_cpus (pools s pool)))
             (errno s) in
  fst r = 0 ->
  rseq_percpu_pool_destroy tgt pool s
  = (_ ← destroy_free_bitmap tgt (free_bitmap (pools s pool))
           (Z.shiftr (percpu_len (pools s pool)) (item_order (pools s pool)));
     Ok (0, set_pool pool zero_pool (set_errno (snd r) s))).
Proof.
  intros Hb Hg r Hr. unfold rseq_percpu_pool_destroy.
  destruct (Z.eqb_spec (base (pools s pool)) 0); [contradiction|].
  rewrite Hg. fold r. destruct r as [ret e]. cbn [fst snd] in *. subst ret.
  cbn [Z.eqb negb]. destruct (destroy_free_bitmap _ _ _) as [[]| |]; reflexivity.
Qed.

(** X6: destroying a pool without bitmap whose unmapping succeeds clears its
    directory slot and nothing else, and a second destruction finds no pool:
    it sets [errno] to [ENOENT] and changes nothing else. *)
Theorem pool_destroy_twice pool s g :
  base (pools s pool) <> 0 ->
  free_bitmap (pools s pool) = None ->
  munmap_func (mmap_attr (pools s pool)) = Some g ->
  fst (g (mmap_priv (mmap_attr (pools s pool))) (base (pools s pool))
         (wrap tgt (percpu_len (pools s pool) * max_nr_cpus (pools s pool)))
         (errno s)) = 0 ->
  exists s',
    rseq_percpu_pool_destroy tgt pool s = Ok (0, s')
    /\ pools s' pool = zero_pool
    /\ (forall j, j <> pool -> pools s' j = pools s j)
    /\ mem s' = mem s
    /\ rseq_percpu_pool_destroy tgt pool s' = Ok (0, set_errno ENOENT s').
Proof.
  intros Hb Hbm Hg Hr.
  rewrite (pool_destroy_unmapped pool s g Hb Hg Hr), Hbm. cbn.
  eexists. split; [reflexivity|]. split_and!.
  - apply fn_lookup_insert.
  - intros j Hj. now apply fn_lookup_insert_ne.
  - reflexivity.
  - unfold rseq_percpu_pool_destroy. cbn [pools set_pool].
    rewrite fn_lookup_insert. reflexivity.
Qed.

(** A bitmap fresh from [create_free_bitmap] passes the check of
    [destroy_free_bitmap] for the same number of items. *)
Lemma destroy_fresh_bitmap calloc_ok n e :
  destroy_free_bitmap tgt (fst (create_free_bitmap tgt calloc_ok n e)) n = Ok tt.
Proof.
  unfold create_free_bitmap, destroy_free_bitmap.
  destruct calloc_ok; cbn [fst]; [|reflexivity].
  apply destroy_free_bitmap_loop_zero. intros j Hj.
  apply lookup_replicate_2. lia.
Qed.

(** The bitmap field after a successful creation. *)
Lemma pool_create_bitmap page_len calloc_ok ilen plen ncpus attr0 flags s i s' :
  rseq_percpu_pool_create tgt sys_mmap sys_munmap page_len calloc_ok
    ilen plen ncpus attr0 flags s = Ok (Some i, s') ->
  free_bitmap (pools s' i)
  = if negb (Z.land RSEQ_POOL_ROBUST flags =? 0)
    then fst (create_free_bitmap tgt calloc_ok
                (Z.shiftr (percpu_len (pools s' i)) (item_order (pools s' i))) 0)
    else free_bitmap (pools s i).
Proof.
  unfold rseq_percpu_pool_create.
  destruct (negb _); [discriminate|].
  destruct (_ <? 0); [discriminate|]. destruct (_ <=? _); [discriminate|].
  destruct (_ || _); [discriminate|].
  destruct (find_empty_pool _ _ _) as [j|]; [|discriminate].
  destruct (mmap_func _) as [f|]; [|discriminate].
  destruct (f _ _ _) as [b e]. destruct (Z.eqb_spec b 0); [discriminate|].
  intros [= <- <-]. simpl_pool. destruct (negb _); [|reflexivity].
  unfold create_free_bitmap. now destruct calloc_ok.
Qed.

(** X7: creating a pool in a directory whose free slots are zero-filled and
    destroying it at once, the unmapping callback answering 0, is a round
    trip: the directory and the memory are as before the creation.  This
    holds for a robust pool too: the bitmap that was just allocated passes
    the check that every item was freed. *)
Theorem pool_create_destroy_round_trip page_len calloc_ok ilen plen ncpus attr0
    flags s i s1 g :
  dir_clean s ->
  rseq_percpu_pool_create tgt sys_mmap sys_munmap page_len calloc_ok
    ilen plen ncpus attr0 flags s = Ok (Some i, s1) ->
  munmap_func (mmap_attr (pools s1 i)) = Some g ->
  fst (g (mmap_priv (mmap_attr (pools s1 i))) (base (pools s1 i))
         (wrap tgt (percpu_len (pools s1 i) * max_nr_cpus (pools s1 i)))
         (errno s1)) = 0 ->
  exists s2,
    rseq_percpu_pool_destroy tgt i s1 = Ok (0, s2)
    /\ (forall j, pools s2 j = pools s j)
    /\ mem s2 = mem s.
Proof.
  intros Hclean Hc Hg Hr.
  destruct (pool_create_effect _ _ _ _ _ _ _ _ _ _ Hc)
    as (Hmem & Hb0 & Hb1 & Hother).
  pose proof (pool_create_bitmap _ _ _ _ _ _ _ _ _ _ Hc) as Hbm.
  rewrite (pool_destroy_unmapped i s1 g Hb1 Hg Hr), Hbm.
  assert (Hok : destroy_free_bitmap tgt
                  (if negb (Z.land RSEQ_POOL_ROBUST flags =? 0)
                   then fst (create_free_bitmap tgt calloc_ok
                               (Z.shiftr (percpu_len (pools s1 i))
                                  (item_order (pools s1 i))) 0)
                   else free_bitmap (pools s i))
                  (Z.shiftr (percpu_len (pools s1 i)) (item_order (pools s1 i)))
                = Ok tt).
  { destruct (negb _); [apply destroy_fresh_bitmap|].
    now rewrite (Hclean i Hb0). }
  rewrite Hok. cbn [mbind outcome_bind].
  eexists. split; [reflexivity|]. split; [|exact Hmem].
  intros j. cbn [pools set_pool set_errno].
  destruct (Z.eq_dec j i) as [->|Hne].
  - rewrite fn_lookup_insert. symmetry. now apply Hclean.
  - rewrite fn_lookup_insert_ne by congruence. now apply Hother.
Qed.

Lemma dir_clean_initial m : dir_clean (initial_state m).
Proof. intros i _. reflexivity. Qed.

(** X8: the directory starts with its free slots zero-filled, and creation,
    destruction, and allocation and release on pools that have a mapping
    keep it so. *)
Theorem dir_clean_invariant :
  (forall m, dir_clean (initial_state m))
  /\ (forall page_len calloc_ok ilen plen ncpus attr0 flags s r s',
        dir_clean s ->
        rseq_percpu_pool_create tgt sys_mmap sys_munmap page_len calloc_ok
          ilen plen ncpus attr0 flags s = Ok (r, s') ->
        dir_clean s')
  /\ (forall pool s r s',
        dir_clean s -> rseq_percpu_pool_destroy tgt pool s = Ok (r, s') ->
        dir_clean s')
  /\ (forall pool zeroed s h s',
        dir_clean s -> base (pools s pool) <> 0 ->
        __rseq_percpu_malloc tgt pool zeroed s = Ok (h, s') ->
        dir_clean s')
  /\ (forall h s s',
        dir_clean s ->
        base (pools s (Z.shiftr h (POOL_INDEX_SHIFT tgt))) <> 0 ->
        rseq_percpu_free tgt h s = Ok s' ->
        dir_clean s').
Proof.
  split_and!.
  - exact dir_clean_initial.
  - intros page_len calloc_ok ilen plen ncpus attr0 flags s r s' Hclean Hc.
    destruct (pool_create_effect _ _ _ _ _ _ _ _ _ _ Hc) as (_ & Hr).
    destruct r as [i|]; [|unfold dir_clean; now rewrite Hr].
    destruct Hr as (_ & Hb1 & Hother). intros j Hj.
    destruct (Z.eq_dec j i) as [->|Hne]; [contradiction|].
    rewrite Hother in * by exact Hne. now apply Hclean.
  - intros pool s r s' Hclean. unfold rseq_percpu_pool_destroy.
    destruct (Z.eqb_spec (base (pools s pool)) 0).
    + intros [= _ <-]. exact Hclean.
    + destruct (munmap_func _) as [g|]; [|discriminate].
      destruct (g _ _ _ _) as [ret e]. destruct (negb _).
      * intros [= _ <-]. exact Hclean.
      * destruct (destroy_free_bitmap _ _ _) as [[]| |]; try discriminate.
        intros [= _ <-] j. cbn [pools set_pool set_errno].
        destruct (Z.eq_dec j pool) as [->|Hne].
        -- now rewrite fn_lookup_insert.
        -- rewrite fn_lookup_insert_ne by congruence. apply Hclean.
  - intros pool zeroed s h s' Hclean Hb Hm j.
    destruct (Z.eq_dec j pool) as [->|Hne].
    + assert (base (pools s' pool) = base (pools s pool)); [|congruence].
      revert Hm. unfold __rseq_percpu_malloc.
      destruct (negb _); cbn [mbind outcome_bind].
      * destruct (_ && _); intros [= _ <-]; simpl_pool; reflexivity.
      * destruct (_ <? _); cbn [mbind outcome_bind].
        -- cbn [Z.eqb negb andb]. rewrite andb_false_r. now intros [= _ <-].
        -- destruct (mask_free_slot _ _ _); try discriminate.
           cbn [mbind outcome_bind].
           destruct (_ && _); intros [= _ <-]; simpl_pool; reflexivity.
    + rewrite (malloc_pools_other tgt pool zeroed s h s' j Hm Hne). apply Hclean.
  - intros h s s' Hclean Hb. unfold rseq_percpu_free.
    destruct (unmask_free_slot _ _ _); try discriminate. cbn [mbind outcome_bind].
    intros [= <-] j. cbn [pools set_pool set_mem].
    destruct (Z.eq_dec j (Z.shiftr h (POOL_INDEX_SHIFT tgt))) as [->|Hne].
    + rewrite fn_lookup_insert. cbn. intros E. contradiction.
    + rewrite fn_lookup_insert_ne by congruence. apply Hclean.
Qed.

(** X9: in a directory whose free slots are zero-filled, a pool that was just
    created on a mapping that lies in the address space is fresh: it is
    live with an empty free list, nothing was handed out, and its bitmap, if
    any, has one clear bit for every slot. *)
Theorem created_pool_is_fresh page_len calloc_ok ilen plen ncpus attr0 flags s i s' :
  dir_clean s ->
  rseq_percpu_pool_create tgt sys_mmap sys_munmap page_len calloc_ok
    ilen plen ncpus attr0 flags s = Ok (Some i, s') ->
  pool_mapped tgt (pools s' i) ->
  pool_wf tgt s' i []
  /\ next_unused (pools s' i) = 0
  /\ bitmap_wf tgt (pools s' i) /\ bitmap_sized tgt (pools s' i)
  /\ pool_inv tgt i (s', []).
Proof.
  intros Hclean Hc Hmap.
  destruct (pool_create_slot tgt _ _ _ _ _ _ _ _ _ _ _ _ Hc)
    as (_ & Hb0 & _ & Hhead & Hnext & _).
  pose proof (Hclean i Hb0) as Hz.
  assert (Hwf : pool_wf tgt s' i [])
    by (eapply (pool_create_wf tgt); eauto; now rewrite Hz).
  assert (Hn : next_unused (pools s' i) = 0) by (now rewrite Hnext, Hz).
  split_and!; auto.
  - eapply pool_create_bitmap_wf; eauto; now rewrite Hz.
  - unfold bitmap_sized. rewrite (pool_create_bitmap _ _ _ _ _ _ _ _ _ _ Hc).
    destruct (negb _); [|now rewrite Hz].
    unfold create_free_bitmap. destruct calloc_ok; cbn [fst]; [|exact I].
    rewrite length_replicate. apply Z2Nat.id.
    apply Z.div_pos; [apply wrap_range|]. destruct tgt; reflexivity.
  - now apply pool_inv_fresh.
Qed.

(** What [rseq_percpu_pool_destroy] does to a pool with a mapping. *)
Lemma pool_destroy_mapped pool s g :
  base (pools s pool) <> 0 ->
  munmap_func (mmap_attr (pools s pool)) = Some g ->
  rseq_percpu_pool_destroy tgt pool s
  = (let '(ret, e) := g (mmap_priv (mmap_attr (pools s pool))) (base (pools s pool))
                        (wrap tgt (percpu_len (pools s pool)
                                   * max_nr_cpus (pools s pool))) (errno s) in
     if negb (ret =? 0) then Ok (0, set_errno e s)
     else
       _ ← destroy_free_bitmap tgt (free_bitmap (pools s pool))
             (Z.shiftr (percpu_len (pools s pool)) (item_order (pools s pool)));
       Ok (0, set_pool pool zero_pool (set_errno e s))).
Proof.
  intros Hb Hg. unfold rseq_percpu_pool_destroy.
  destruct (Z.eqb_spec (base (pools s pool)) 0); [contradiction|].
  rewrite Hg. destruct (g _ _ _ _) as [ret e].
  destruct (Z.eqb_spec ret 0) as [->|]; cbn [negb mbind outcome_bind]; [|reflexivity].
  destruct (destroy_free_bitmap _ _ _) as [[]| |]; reflexivity.
Qed.

(** X10: a pool created with the callbacks of an attribute made by
    [rseq_mmap_attr_create] is mapped by the mapping callback, called with
    the private pointer and [percpu_len * max_nr_cpus] as a [size_t]; after
    the creation [errno] is as the callback left it, unless the pool is
    robust and the [calloc] of its bitmap failed, which leaves [ENOMEM]; and
    the destruction of the pool calls the unmapping callback with the same
    private pointer, the base the mapping callback returned and the same
    length. *)
Theorem custom_mapping_round_trip page_len calloc_ok attr_ok ilen plen ncpus flags
    f g priv attr s i s1 :
  rseq_mmap_attr_create attr_ok (Some f) (Some g) priv = Some attr ->
  rseq_percpu_pool_create tgt sys_mmap sys_munmap page_len calloc_ok
    ilen plen ncpus (Some attr) flags s = Ok (Some i, s1) ->
  let len := wrap tgt (rseq_align tgt plen page_len * ncpus) in
  let b := fst (f priv len (errno s)) in
  base (pools s1 i) = b /\ b <> 0
  /\ errno s1 = (if negb (Z.land RSEQ_POOL_ROBUST flags =? 0) && negb calloc_ok
                 then ENOMEM else snd (f priv len (errno s)))
  /\ rseq_percpu_pool_destroy tgt i s1
     = (let '(ret, e) := g priv b len (errno s1) in
        if negb (ret =? 0) then Ok (0, set_errno e s1)
        else
          _ ← destroy_free_bitmap tgt (free_bitmap (pools s1 i))
                (Z.shiftr (percpu_len (pools s1 i)) (item_order (pools s1 i)));
          Ok (0, set_pool i zero_pool (set_errno e s1))).
Proof.
  intros Hattr Hc len b.
  unfold rseq_mmap_attr_create in Hattr. destruct attr_ok; [|discriminate].
  injection Hattr as <-.
  destruct (pool_create_record _ _ _ _ _ _ _ _ _ _ Hc)
    as (Hcpus & Hpl & Hat & f' & Hf & Hbase & Hnz).
  cbn [mmap_func mmap_priv] in Hf, Hbase. injection Hf as <-.
  rewrite Hpl in Hbase. fold len in Hbase. fold b in Hbase.
  assert (Herr : errno s1
                 = if negb (Z.land RSEQ_POOL_ROBUST flags =? 0) && negb calloc_ok
                   then ENOMEM else snd (f priv len (errno s))).
  { revert Hc. unfold rseq_percpu_pool_create.
    destruct (negb _); [discriminate|].
    destruct (_ <? 0); [discriminate|]. destruct (_ <=? _); [discriminate|].
    destruct (_ || _); [discriminate|].
    destruct (find_empty_pool _ _ _) as [j|]; [|discriminate].
    cbn [mmap_func mmap_priv]. fold len.
    destruct (f priv len (errno s)) as [b0 e0]. destruct (b0 =? 0); [discriminate|].
    intros [= _ <-]. cbn [errno set_pool set_errno snd].
    destruct (negb (Z.land RSEQ_POOL_ROBUST flags =? 0)); [|reflexivity].
    unfold create_free_bitmap. now destruct calloc_ok. }
  split_and!; auto; [congruence|].
  rewrite (pool_destroy_mapped i s1 g) by (rewrite ?Hat; auto; congruence).
  rewrite Hat, Hbase, Hpl, Hcpus. reflexivity.
Qed.

(** X11: with the default backend, the base of a created pool is what [mmap]
    returned, which is neither [MAP_FAILED] nor null, and the destruction of
    the pool passes this base and the length that was mapped to [munmap]. *)
Theorem default_backend_round_trip page_len calloc_ok ilen plen ncpus flags s i s1 :
  rseq_percpu_pool_create tgt sys_mmap sys_munmap page_len calloc_ok
    ilen plen ncpus None flags s = Ok (Some i, s1) ->
  let len := wrap tgt (rseq_align tgt plen page_len * ncpus) in
  let b := fst (sys_mmap len (errno s)) in
  base (pools s1 i) = b /\ b <> MAP_FAILED tgt /\ b <> 0
  /\ rseq_percpu_pool_destroy tgt i s1
     = (let '(ret, e) := sys_munmap b len (errno s1) in
        if negb (ret =? 0) then Ok (0, set_errno e s1)
        else
          _ ← destroy_free_bitmap tgt (free_bitmap (pools s1 i))
                (Z.shiftr (percpu_len (pools s1 i)) (item_order (pools s1 i)));
          Ok (0, set_pool i zero_pool (set_errno e s1))).
Proof.
  intros Hc len b.
  destruct (pool_create_record _ _ _ _ _ _ _ _ _ _ Hc)
    as (Hcpus & Hpl & Hat & f' & Hf & Hbase & Hnz).
  cbn [mmap_func mmap_priv] in Hf, Hbase. injection Hf as <-.
  rewrite Hpl in Hbase. fold len in Hbase.
  unfold default_mmap_func in Hbase.
  destruct (sys_mmap len (errno s)) as [b0 e0] eqn:Hcall.
  assert (Hb : b = b0) by reflexivity. cbn [fst] in *.
  destruct (Z.eqb_spec b0 (MAP_FAILED tgt)) as [->|Hmf];
    cbn [fst] in Hbase; [contradiction|].
  split_and!; try congruence.
  rewrite (pool_destroy_mapped i s1 (default_munmap_func sys_munmap))
    by (rewrite ?Hat; auto; congruence).
  rewrite Hat, Hbase, Hpl, Hcpus, Hb. reflexivity.
Qed.

End CreateDestroy.

(** ** Robust pools *)

Section RobustPools.

Variable tgt : target.

Lemma mask_free_slot_length (b b' : list Z) idx :
  mask_free_slot tgt (Some b) idx = Ok (Some b') -> length b' = length b.
Proof.
  unfold mask_free_slot. destruct (b !! _); [|discriminate].
  destruct (_ =? _); [|discriminate]. intros [= <-]. apply length_insert.
Qed.

Lemma unmask_free_slot_length (b b' : list Z) idx :
  unmask_free_slot tgt (Some b) idx = Ok (Some b') -> length b' = length b.
Proof.
  unfold unmask_free_slot. destruct (int_shl _ _); [|discriminate].
  destruct (b !! _); [|discriminate].
  destruct (_ =? _); [|discriminate]. intros [= <-]. apply length_insert.
Qed.

(** Allocation and release keep the size of the bitmap. *)
Lemma malloc_keeps_bitmap_sized pool zeroed s L h s' :
  pool_wf tgt s pool L -> bitmap_sized tgt (pools s pool) ->
  __rseq_percpu_malloc tgt pool zeroed s = Ok (h, s') ->
  bitmap_sized tgt (pools s' pool).
Proof.
  intros Hwf Hsz Hm. unfold bitmap_sized in *. destruct L as [|off L].
  - destruct (exhausted tgt (pools s pool)) eqn:Hex.
    + rewrite malloc_exhausted in Hm by exact Hex. now injection Hm as _ <-.
    + destruct (malloc_bump tgt pool zeroed s h s' Hwf Hex Hm)
        as (_ & _ & _ & (_ & _ & _ & Hpl & Hio & _) & _ & Hmask & _).
      rewrite Hpl, Hio.
      destruct (free_bitmap (pools s pool)) as [b|].
      * pose proof (wf_next _ _ _ _ Hwf) as [Hn _].
        apply mask_free_slot_inv in Hmask as Hinv; [|apply Z.shiftr_nonneg; lia].
        destruct Hinv as (b' & Hb' & _). rewrite Hb' in *.
        now rewrite (mask_free_slot_length b b' _ Hmask).
      * cbn in Hmask. now injection Hmask as <-.
  - destruct (malloc_pop tgt pool zeroed s off L Hwf)
      as (s1 & Hm1 & _ & (_ & _ & _ & Hpl & Hio & _) & _ & Hb & _).
    rewrite Hm1 in Hm. injection Hm as _ <-. now rewrite Hpl, Hio, Hb.
Qed.

Lemma free_keeps_bitmap_sized pool s L off s' :
  pool_wf tgt s pool L -> valid_offset (pools s pool) off -> ~ In off L ->
  bitmap_sized tgt (pools s pool) ->
  rseq_percpu_free tgt (handle_of tgt pool off) s = Ok s' ->
  bitmap_sized tgt (pools s' pool).
Proof.
  intros Hwf Hv Hnotin Hsz Hfree.
  destruct (free_push tgt s pool L off s' Hwf Hv Hnotin Hfree)
    as (_ & (_ & _ & _ & Hpl & Hio & _) & _ & Hun).
  unfold bitmap_sized in *. rewrite Hpl, Hio.
  destruct (free_bitmap (pools s pool)) as [b|].
  - destruct Hv as [Hoff _].
    apply unmask_free_slot_inv in Hun as Hinv; [|apply Z.shiftr_nonneg; lia].
    destruct Hinv as (b' & Hb' & _). rewrite Hb' in *.
    now rewrite (unmask_free_slot_length b b' _ Hun).
  - cbn in Hun. now injection Hun as <-.
Qed.

(** A bitmap of the right size with a set bit fails the check of
    [destroy_free_bitmap]. *)
Lemma destroy_free_bitmap_set_bit (b : list Z) n idx :
  Z.of_nat (length b) = wrap tgt (n + BIT_PER_ULONG tgt - 1) / BIT_PER_ULONG tgt ->
  0 <= idx -> slot_bit tgt b idx = Some true ->
  destroy_free_bitmap tgt (Some b) n = Abort.
Proof.
  intros Hlen Hidx Hbit. unfold destroy_free_bitmap. rewrite <- Hlen, Nat2Z.id.
  unfold slot_bit in Hbit.
  destruct (b !! Z.to_nat (idx / BIT_PER_ULONG tgt)) as [w|] eqn:Hw; [|discriminate].
  injection Hbit as Hbit.
  apply (destroy_free_bitmap_loop_abort b (length b) 0%nat
           (Z.to_nat (idx / BIT_PER_ULONG tgt)) w); auto.
  - apply lookup_lt_Some in Hw. lia.
  - intros ->. now rewrite Z.bits_0 in Hbit.
Qed.

(** X12: destroying a robust pool while an item allocated from the bump cursor
    is live aborts, on the check that every item was freed (the mapping
    has been unmapped by then). *)
Theorem robust_destroy_live_item_aborts pool zeroed s h s' g :
  pool_wf tgt s pool [] ->
  free_bitmap (pools s pool) <> None -> bitmap_sized tgt (pools s pool) ->
  __rseq_percpu_malloc tgt pool zeroed s = Ok (h, s') -> h <> 0 ->
  munmap_func (mmap_attr (pools s' pool)) = Some g ->
  fst (g (mmap_priv (mmap_attr (pools s' pool))) (base (pools s' pool))
         (wrap tgt (percpu_len (pools s' pool) * max_nr_cpus (pools s' pool)))
         (errno s')) = 0 ->
  rseq_percpu_pool_destroy tgt pool s' = Abort.
Proof.
  intros Hwf Hrobust Hsz Hm Hnz Hg Hr.
  destruct (free_bitmap (pools s pool)) as [b|] eqn:Hb; [|contradiction].
  assert (Hex : exhausted tgt (pools s pool) = false).
  { destruct (exhausted tgt (pools s pool)) eqn:Hex; [|reflexivity].
    rewrite malloc_exhausted in Hm by exact Hex. congruence. }
  pose proof (malloc_keeps_bitmap_sized pool zeroed s [] h s' Hwf Hsz Hm) as Hsz'.
  destruct (robust_bump_sets_bit tgt pool zeroed s h s' b Hwf Hex Hb Hm) as [_ Hset].
  destruct (malloc_bump tgt pool zeroed s h s' Hwf Hex Hm)
    as (-> & Hfit & Hwf' & _).
  pose proof (wf_next _ _ _ _ Hwf) as [Hn _].
  destruct (pool_wf_offset_bound _ _ _ _ Hwf) as (_ & Hipos & _).
  unfold handle_bit in Hset.
  destruct (handle_of_decode tgt s pool [] (next_unused (pools s pool)) Hwf
              ltac:(lia)) as [Hi Ho].
  rewrite Hi, Ho in Hset.
  pose proof (wf_mapped _ _ _ _ Hwf') as (Hbase & _).
  rewrite (pool_destroy_unmapped tgt pool s' g ltac:(lia) Hg Hr).
  unfold bitmap_sized in Hsz'.
  destruct (free_bitmap (pools s' pool)) as [b'|]; [|discriminate].
  assert (Hidx : 0 <= Z.shiftr (next_unused (pools s pool)) (item_order (pools s' pool)))
    by (apply Z.shiftr_nonneg; lia).
  rewrite (destroy_free_bitmap_set_bit b' _ _ Hsz' Hidx Hset).
  reflexivity.
Qed.

(** X13: what [rseq_percpu_free] does with an item of a robust pool, by the
    position of the bit of its slot in the bitmap word and by the bit: from
    position 31 on, the shift [1 << n] on an [int] is undefined; below, a
    set bit is cleared and the call returns, after which a second free of
    the same handle aborts; and a clear bit aborts. *)
Theorem robust_free_outcome pool s L off b :
  pool_wf tgt s pool L -> valid_offset (pools s pool) off -> ~ In off L ->
  free_bitmap (pools s pool) = Some b ->
  let idx := Z.shiftr off (item_order (pools s pool)) in
  let r := rseq_percpu_free tgt (handle_of tgt pool off) s in
  (31 <= idx mod BIT_PER_ULONG tgt -> r = Undefined)
  /\ (idx mod BIT_PER_ULONG tgt < 31 -> slot_bit tgt b idx = Some false ->
      r = Abort)
  /\ (idx mod BIT_PER_ULONG tgt < 31 -> slot_bit tgt b idx = Some true ->
      exists s1, r = Ok s1
        /\ handle_bit tgt s1 (handle_of tgt pool off) = Some false
        /\ rseq_percpu_free tgt (handle_of tgt pool off) s1 = Abort).
Proof.
  intros Hwf Hv Hnotin Hb idx r.
  pose proof (wf_next _ _ _ _ Hwf) as [Hn _]. pose proof Hv as [Hoff _].
  assert (Hidx : 0 <= idx) by (apply Z.shiftr_nonneg; lia).
  assert (Hr : r = (bm ← unmask_free_slot tgt (Some b) idx;
                    Ok (set_mem (store_le (mem s) (base (pools s pool) + off)
                                   (Z.to_nat (sizeof_ptr tgt))
                                   (free_list_head (pools s pool)))
                          (set_pool pool
                             (set_free_list_head (base (pools s pool) + off)
                                (set_free_bitmap bm (pools s pool))) s)))).
  { subst r. rewrite (free_unfold tgt s pool L off Hwf) by lia. now rewrite Hb. }
  split_and!.
  - intros Hhigh. rewrite Hr, (unmask_free_slot_high tgt b idx Hhigh). reflexivity.
  - intros Hlow Hbit.
    pose proof (unmask_free_slot_spec tgt b idx false Hidx Hlow Hbit) as Hun.
    cbn beta iota in Hun. rewrite Hr, Hun. reflexivity.
  - intros Hlow Hbit.
    destruct (unmask_free_slot_spec tgt b idx true Hidx Hlow Hbit) as (b' & Hun & _).
    assert (Hfree : exists s1, r = Ok s1) by (rewrite Hr, Hun; cbn; eauto).
    destruct Hfree as [s1 Hfree]. exists s1. split; [exact Hfree|].
    subst r.
    destruct (robust_double_free_aborts tgt pool s L off s1 b Hwf Hv Hnotin Hb Hfree)
      as (_ & H1 & H2).
    now split.
Qed.

(** X14: in a robust pool, an item that is allocated again after a free cannot
    be freed: the allocation takes it from the free list and leaves its bit
    clear, and the free of the handle it returns aborts. *)
Theorem robust_recycled_item_free_aborts pool zeroed s L off s1 :
  pool_wf tgt s pool L -> valid_offset (pools s pool) off -> ~ In off L ->
  free_bitmap (pools s pool) <> None ->
  rseq_percpu_free tgt (handle_of tgt pool off) s = Ok s1 ->
  exists s2,
    __rseq_percpu_malloc tgt pool zeroed s1 = Ok (handle_of tgt pool off, s2)
    /\ handle_bit tgt s2 (handle_of tgt pool off) = Some false
    /\ rseq_percpu_free tgt (handle_of tgt pool off) s2 = Abort.
Proof.
  intros Hwf Hv Hnotin Hrobust Hfree.
  destruct (free_bitmap (pools s pool)) as [b|] eqn:Hb; [|contradiction].
  destruct (free_push tgt s pool L off s1 Hwf Hv Hnotin Hfree)
    as (Hwf1 & (_ & _ & _ & Hpl & Hio & _) & Hnext & Hun).
  pose proof (wf_next _ _ _ _ Hwf) as [Hn _]. pose proof Hv as [Hoff _].
  assert (Hidx : 0 <= Z.shiftr off (item_order (pools s pool)))
    by (apply Z.shiftr_nonneg; lia).
  rewrite Hb in Hun. apply unmask_free_slot_inv in Hun as Hinv; [|exact Hidx].
  destruct Hinv as (b1 & Hb1 & Hlow & _ & Hbit1).
  destruct (malloc_pop tgt pool zeroed s1 off L Hwf1)
    as (s2 & Hm & Hwf2 & (_ & _ & _ & Hpl2 & Hio2 & _) & Hnext2 & Hbm2 & _).
  exists s2. split; [exact Hm|].
  split.
  - unfold handle_bit in *.
    destruct (handle_of_decode tgt s pool L off Hwf ltac:(lia)) as [-> ->].
    rewrite Hbm2, Hio2, Hb1, Hio. exact Hbit1.
  - rewrite (free_unfold tgt s2 pool L off Hwf2) by (rewrite Hpl2, Hpl; lia).
    rewrite Hbm2, Hb1, Hio2, Hio.
    pose proof (unmask_free_slot_spec tgt b1 _ false Hidx Hlow Hbit1) as Habort.
    cbn beta iota in Habort. now rewrite Habort.
Qed.

End RobustPools.

(** ** Live items *)

Section LiveItems.

Variable tgt : target.

(** The slice of an item on a CPU, against the slice of another item or of
    another CPU. *)
Lemma slices_disjoint stride d o1 o2 c1 c2 :
  0 < d -> (d | o1) -> (d | o2) ->
  0 <= o1 -> o1 + d <= stride -> 0 <= o2 -> o2 + d <= stride ->
  (o1 <> o2 \/ c1 <> c2) ->
  stride * c1 + o1 + d <= stride * c2 + o2
  \/ stride * c2 + o2 + d <= stride * c1 + o1.
Proof.
  intros Hd Hd1 Hd2 Ho1 Hf1 Ho2 Hf2 Hne.
  assert (Hs : 0 <= stride) by lia.
  destruct (Z.lt_total c1 c2) as [Hc|[->|Hc]].
  - left. assert (stride * (c1 + 1) <= stride * c2)
      by (apply Z.mul_le_mono_nonneg_l; lia). lia.
  - destruct Hne as [Hne|]; [|contradiction].
    destruct (slots_disjoint d o1 o2 Hd Hd1 Hd2 Hne); lia.
  - right. assert (stride * (c2 + 1) <= stride * c1)
      by (apply Z.mul_le_mono_nonneg_l; lia). lia.
Qed.

Lemma valid_offset_slot s pool L o :
  pool_wf tgt s pool L -> valid_offset (pools s pool) o ->
  0 <= o /\ o + item_len (pools s pool) <= percpu_len (pools s pool)
  /\ (item_len (pools s pool) | o).
Proof.
  intros Hwf Hv. destruct (pool_wf_offset_bound _ _ _ _ Hwf) as (_ & Hipos & _).
  pose proof (wf_next _ _ _ _ Hwf) as [Hn Hd].
  pose proof (valid_offset_fits _ _ Hipos Hd Hv). destruct Hv as [Ho Hdo].
  split_and!; auto; lia.
Qed.

(** X15: the memory of a handed-out item on a CPU below [max_nr_cpus] lies in the
    mapping of its pool, within the stride of that CPU. *)
Theorem live_item_in_mapping s pool L o cpu :
  pool_wf tgt s pool L -> valid_offset (pools s pool) o ->
  0 <= cpu < max_nr_cpus (pools s pool) ->
  let p := pools s pool in
  exists a,
    __rseq_percpu_ptr tgt (handle_of tgt pool o) cpu s = Ok a
    /\ base p + percpu_len p * cpu <= a
    /\ a + item_len p <= base p + percpu_len p * (cpu + 1)
    /\ forall k, 0 <= k < item_len p -> in_mapping p (a + k).
Proof.
  intros Hwf Hv Hcpu p.
  destruct (valid_offset_slot s pool L o Hwf Hv) as (Ho & Hfit & _).
  destruct (pool_wf_offset_bound _ _ _ _ Hwf) as (_ & Hipos & _).
  eexists. split; [apply (percpu_ptr_of_handle tgt s pool L); auto; lia|].
  subst p. split_and!; try lia.
  intros k Hk. unfold in_mapping.
  assert (percpu_len (pools s pool) * (cpu + 1)
          <= percpu_len (pools s pool) * max_nr_cpus (pools s pool)) by nia.
  pose proof (wf_mapped _ _ _ _ Hwf) as (_ & Hl & _).
  assert (0 <= percpu_len (pools s pool) * cpu) by nia.
  lia.
Qed.

(** X16: two handed-out items of a pool, or one item on two CPUs, never
    overlap. *)
Theorem live_items_disjoint s pool L o1 o2 c1 c2 :
  pool_wf tgt s pool L ->
  valid_offset (pools s pool) o1 -> valid_offset (pools s pool) o2 ->
  0 <= c1 < max_nr_cpus (pools s pool) -> 0 <= c2 < max_nr_cpus (pools s pool) ->
  o1 <> o2 \/ c1 <> c2 ->
  exists a1 a2,
    __rseq_percpu_ptr tgt (handle_of tgt pool o1) c1 s = Ok a1
    /\ __rseq_percpu_ptr tgt (handle_of tgt pool o2) c2 s = Ok a2
    /\ (a1 + item_len (pools s pool) <= a2 \/ a2 + item_len (pools s pool) <= a1).
Proof.
  intros Hwf Hv1 Hv2 Hc1 Hc2 Hne.
  destruct (valid_offset_slot s pool L o1 Hwf Hv1) as (Ho1 & Hf1 & Hd1).
  destruct (valid_offset_slot s pool L o2 Hwf Hv2) as (Ho2 & Hf2 & Hd2).
  destruct (pool_wf_offset_bound _ _ _ _ Hwf) as (_ & Hipos & _).
  do 2 eexists.
  split; [apply (percpu_ptr_of_handle tgt s pool L); auto; lia|].
  split; [apply (percpu_ptr_of_handle tgt s pool L); auto; lia|].
  destruct (slices_disjoint (percpu_len (pools s pool)) (item_len (pools s pool))
              o1 o2 c1 c2 Hipos Hd1 Hd2 Ho1 Hf1 Ho2 Hf2 Hne); lia.
Qed.

(** Zeroing an item leaves the other items alone, on every CPU. *)
Lemma zero_item_other_item p off o cpu k m :
  pool_mapped tgt p -> 0 < item_len p ->
  (item_len p | off) -> (item_len p | o) ->
  0 <= off -> off + item_len p <= percpu_len p ->
  0 <= o -> o + item_len p <= percpu_len p -> o <> off ->
  0 <= cpu -> 0 <= k < item_len p ->
  rseq_percpu_zero_item tgt p off m (base p + percpu_len p * cpu + o + k)
  = m (base p + percpu_len p * cpu + o + k).
Proof.
  intros Hmap Hpos Hdo Hdo' Hoff Hfit Ho Hfit' Hne Hcpu Hk.
  unfold rseq_percpu_zero_item. apply zero_item_loop_out.
  intros i Hi. rewrite percpu_ptr_exact by (auto; lia).
  destruct (slices_disjoint (percpu_len p) (item_len p) o off cpu i
              Hpos Hdo' Hdo Ho Hfit' Hoff Hfit (or_introl Hne)); lia.
Qed.

(** X17: an allocation, zeroing or not, and the free of another live item leave
    every byte of a live item as it was, on every CPU. *)
Theorem live_item_data_preserved s pool L o cpu k :
  pool_wf tgt s pool L -> valid_offset (pools s pool) o -> ~ In o L ->
  0 <= cpu < max_nr_cpus (pools s pool) -> 0 <= k < item_len (pools s pool) ->
  let a := base (pools s pool) + percpu_len (pools s pool) * cpu + o + k in
  (forall zeroed h s',
      __rseq_percpu_malloc tgt pool zeroed s = Ok (h, s') -> mem s' a = mem s a)
  /\ (forall o' s',
        valid_offset (pools s pool) o' -> ~ In o' L -> o' <> o ->
        rseq_percpu_free tgt (handle_of tgt pool o') s = Ok s' ->
        mem s' a = mem s a).
Proof.
  intros Hwf Hv Hnotin Hcpu Hk a.
  destruct (valid_offset_slot s pool L o Hwf Hv) as (Ho & Hfit & Hd).
  destruct (pool_wf_offset_bound _ _ _ _ Hwf) as (_ & Hipos & _).
  split.
  - intros zeroed h s' Hm.
    destruct (Z.eq_dec h 0) as [->|Hnz].
    + apply (malloc_null_iff tgt _ _ _ _ _ _ Hwf) in Hm as Hex.
      rewrite (malloc_exhausted tgt pool zeroed s (proj1 Hex eq_refl)) in Hm.
      now injection Hm as <-.
    + destruct (malloc_live tgt _ _ _ _ _ _ Hwf Hm Hnz)
        as (off & L' & _ & Hwf' & (Hb & _ & Hil & Hpl & _ & Hc) & Hvoff & _ & _
            & Hkeep & Hmem).
      rewrite Hmem. destruct zeroed; [|reflexivity].
      destruct (Hkeep o Hv Hnotin) as (_ & _ & Hne).
      destruct (valid_offset_slot s' pool L' off Hwf' Hvoff) as (Hoff & Hfit' & Hd').
      subst a. rewrite <- Hb, <- Hpl.
      apply zero_item_other_item; rewrite ?Hil, ?Hpl; auto; try lia.
      all: try exact (wf_mapped _ _ _ _ Hwf').
      now rewrite <- Hil.
  - intros o' s' Hv' Hnotin' Hne Hfree.
    destruct (valid_offset_slot s pool L o' Hwf Hv') as (Ho' & Hfit' & Hd').
    rewrite (free_unfold tgt s pool L o' Hwf) in Hfree by lia.
    destruct (unmask_free_slot _ _ _); try discriminate.
    cbn [mbind outcome_bind] in Hfree. injection Hfree as <-.
    cbn [mem set_mem]. apply store_le_out.
    pose proof (wf_item _ _ _ _ Hwf) as Hitem.
    pose proof (sizeof_ptr_pos tgt) as Hp. rewrite Z2Nat.id by lia.
    destruct (slices_disjoint (percpu_len (pools s pool)) (item_len (pools s pool))
                o o' cpu 0 Hipos Hd Hd' Ho Hfit Ho' Hfit' (or_introl (not_eq_sym Hne)));
      subst a; lia.
Qed.

(** X18: an allocation never returns an item that is live. *)
Theorem malloc_returns_unused_item pool zeroed s L h s' :
  pool_wf tgt s pool L ->
  __rseq_percpu_malloc tgt pool zeroed s = Ok (h, s') -> h <> 0 ->
  forall o, valid_offset (pools s pool) o -> ~ In o L -> h <> handle_of tgt pool o.
Proof.
  intros Hwf Hm Hnz o Hv Hnotin.
  destruct (malloc_live tgt _ _ _ _ _ _ Hwf Hm Hnz)
    as (off & L' & -> & Hwf' & _ & Hvoff & _ & _ & Hkeep & _).
  destruct (Hkeep o Hv Hnotin) as (Hv' & _ & Hne).
  destruct (valid_offset_slot s' pool L' off Hwf' Hvoff) as (Hoff & Hfit & _).
  destruct (valid_offset_slot s' pool L' o Hwf' Hv') as (Ho & Hfit' & _).
  destruct (pool_wf_offset_bound _ _ _ _ Hwf') as (_ & Hipos & _).
  intros E.
  destruct (handle_of_decode tgt s' pool L' off Hwf' ltac:(lia)) as [_ H1].
  destruct (handle_of_decode tgt s' pool L' o Hwf' ltac:(lia)) as [_ H2].
  congruence.
Qed.

End LiveItems.

(** ** The capacity of a pool *)

Section Capacity.

Variable tgt : target.

(** Allocations in a row from the bump cursor. *)
Lemma malloc_n_bump pool (k : nat) : forall s,
  pool_wf tgt s pool [] -> bitmap_wf tgt (pools s pool) ->
  next_unused (pools s pool) + Z.of_nat k * item_len (pools s pool)
    <= percpu_len (pools s pool) ->
  exists s',
    malloc_n tgt pool k s
    = Ok (map (fun j => handle_of tgt pool
                          (next_unused (pools s pool)
                           + Z.of_nat j * item_len (pools s pool)))
              (seq 0 k), s')
    /\ pool_wf tgt s' pool [] /\ bitmap_wf tgt (pools s' pool)
    /\ same_geometry (pools s pool) (pools s' pool)
    /\ next_unused (pools s' pool)
       = next_unused (pools s pool) + Z.of_nat k * item_len (pools s pool).
Proof.
  induction k as [|k IH]; intros s Hwf Hbm Hfit.
  - exists s. cbn [malloc_n seq map]. split_and!; auto; [repeat split|lia].
  - destruct (pool_wf_offset_bound _ _ _ _ Hwf) as (_ & Hipos & _).
    assert (Hex : exhausted tgt (pools s pool) = false).
    { unfold exhausted. rewrite (wrap_next_unused tgt s pool []) by exact Hwf.
      apply andb_false_intro2. apply Z.ltb_ge. nia. }
    destruct (malloc_total tgt pool false s [] Hwf Hbm) as (h & s1 & Hm & Hbm1).
    destruct (malloc_bump tgt pool false s h s1 Hwf Hex Hm)
      as (-> & _ & Hwf1 & Hgeo & Hnext & _).
    pose proof Hgeo as (_ & _ & Hil & Hpl & _).
    destruct (IH s1 Hwf1 Hbm1) as (s' & Hn & Hwf' & Hbm' & Hgeo' & Hnext');
      [rewrite Hnext, Hil, Hpl; lia|].
    exists s'. split_and!; auto.
    + cbn [malloc_n]. unfold rseq_percpu_malloc. rewrite Hm.
      cbn [mbind outcome_bind]. rewrite Hn. cbn [mbind outcome_bind].
      cbn [seq map]. rewrite <- seq_shift, map_map. do 3 f_equal.
      * f_equal. lia.
      * apply map_ext. intros j. f_equal. rewrite Hnext, Hil. lia.
    + destruct Hgeo as (? & ? & ? & ? & ? & ?), Hgeo' as (? & ? & ? & ? & ? & ?).
      repeat split; congruence.
    + rewrite Hnext', Hnext, Hil. lia.
Qed.

(** X19: a fresh pool serves [percpu_len / item_len] allocations, at the offsets
    [0], [item_len], [2 * item_len], ... in this order, and the next
    allocation returns null with [errno = ENOMEM]. *)
Theorem pool_capacity pool s :
  pool_wf tgt s pool [] -> bitmap_wf tgt (pools s pool) ->
  next_unused (pools s pool) = 0 ->
  let p := pools s pool in
  let n := Z.to_nat (percpu_len p / item_len p) in
  exists s',
    malloc_n tgt pool n s
    = Ok (map (fun j => handle_of tgt pool (Z.of_nat j * item_len p)) (seq 0 n), s')
    /\ rseq_percpu_malloc tgt pool s' = Ok (0, set_errno ENOMEM s').
Proof.
  intros Hwf Hbm H0 p n.
  destruct (pool_wf_offset_bound _ _ _ _ Hwf) as (_ & Hipos & _).
  pose proof (wf_item _ _ _ _ Hwf) as Hitem.
  assert (Hq : 0 <= percpu_len p / item_len p) by (apply Z.div_pos; subst p; lia).
  pose proof (Z.mul_div_le (percpu_len p) (item_len p) Hipos) as Hle.
  pose proof (Z.mul_succ_div_gt (percpu_len p) (item_len p) Hipos) as Hgt.
  destruct (malloc_n_bump pool n s Hwf Hbm) as (s' & Hn & Hwf' & _ & Hgeo & Hnext).
  { subst n. rewrite H0, Z2Nat.id by exact Hq. fold p. lia. }
  exists s'. split.
  - rewrite Hn, H0. reflexivity.
  - apply malloc_exhausted. unfold exhausted.
    rewrite (wf_list _ _ _ _ Hwf'). cbn [Z.eqb andb].
    rewrite (wrap_next_unused tgt s' pool []) by exact Hwf'.
    destruct Hgeo as (_ & _ & Hil & Hpl & _).
    rewrite Hnext, H0, Hil, Hpl. subst n. rewrite Z2Nat.id by exact Hq.
    apply Z.ltb_lt. fold p. lia.
Qed.

End Capacity.

(** ** A double free in a pool without bitmap *)

Section DoubleFree.

Variable tgt : target.

(** X20: without the robust bitmap a double free is not detected: both calls
    return, the freed item then heads the free list and is its own
    successor, and the next two allocations both return its handle. *)
Theorem nonrobust_double_free_duplicates pool s L off :
  pool_wf tgt s pool L -> valid_offset (pools s pool) off -> ~ In off L ->
  free_bitmap (pools s pool) = None ->
  exists s1 s2 s3 s4,
    rseq_percpu_free tgt (handle_of tgt pool off) s = Ok s1
    /\ rseq_percpu_free tgt (handle_of tgt pool off) s1 = Ok s2
    /\ rseq_percpu_malloc tgt pool s2 = Ok (handle_of tgt pool off, s3)
    /\ rseq_percpu_malloc tgt pool s3 = Ok (handle_of tgt pool off, s4).
Proof.
  intros Hwf Hv Hnotin Hbm.
  destruct (free_nonrobust tgt s pool L off Hwf Hv Hbm) as [s1 Hf1].
  destruct (free_push tgt s pool L off s1 Hwf Hv Hnotin Hf1)
    as (Hwf1 & (Hb & Hix & Hil & Hpl & Hio & Hc) & Hnext & Hun).
  rewrite Hbm in Hun. cbn in Hun. injection Hun as Hbm1.
  pose proof (wf_next _ _ _ _ Hwf) as [Hn _]. pose proof Hv as [Hoff _].
  pose proof (wf_list _ _ _ _ Hwf1) as [Hhead1 _].
  pose proof (wf_mapped _ _ _ _ Hwf1) as (Hbase & Hl & Hcp & Hm).
  destruct (pool_wf_offset_bound _ _ _ _ Hwf1) as (Hs & Hipos & Hp).
  assert (Hoff1 : 0 <= off < percpu_len (pools s1 pool)) by lia.
  pose proof (free_unfold tgt s1 pool (off :: L) off Hwf1 Hoff1) as Hf2.
  rewrite <- Hbm1 in Hf2. cbn [unmask_free_slot mbind outcome_bind] in Hf2.
  rewrite Hhead1 in Hf2.
  set (node := base (pools s1 pool) + off) in *.
  set (p2 := set_free_list_head node (set_free_bitmap None (pools s1 pool))) in *.
  set (m2 := store_le (mem s1) node (Z.to_nat (sizeof_ptr tgt)) node) in *.
  assert (Hlen : percpu_len (pools s1 pool)
                 <= percpu_len (pools s1 pool) * max_nr_cpus (pools s1 pool)) by nia.
  assert (Hnode : 0 <= node < 256 ^ Z.of_nat (Z.to_nat (sizeof_ptr tgt))).
  { rewrite word_modulus_bytes. subst node. lia. }
  assert (Hload : load_le m2 node (Z.to_nat (sizeof_ptr tgt)) = node)
    by (subst m2; apply load_store_le; exact Hnode).
  assert (Hoffw : wrap tgt (node - base (pools s1 pool)) = off).
  { subst node. replace (base (pools s1 pool) + off - base (pools s1 pool)) with off by lia.
    apply wrap_small. lia. }
  pose proof (handle_of_encode tgt s1 pool (off :: L) off Hwf1 Hoff1) as Henc.
  pose proof (handle_of_nonnull tgt s1 pool (off :: L) off Hwf1 ltac:(lia)) as Hnz.
  assert (Hpop : forall s',
            pools s' pool = p2 -> mem s' = m2 ->
            rseq_percpu_malloc tgt pool s'
            = Ok (handle_of tgt pool off, set_pool pool p2 s')).
  { intros s' Hp2 Hm2. unfold rseq_percpu_malloc, __rseq_percpu_malloc.
    rewrite Hp2, Hm2. subst p2. reduce_pool.
    destruct (Z.eqb_spec node 0) as [|_]; [subst node; lia|].
    cbn [negb mbind outcome_bind andb]. rewrite Hload, Hoffw, Henc. reflexivity. }
  do 4 eexists. split; [exact Hf1|]. split; [exact Hf2|]. split.
  - apply Hpop; [apply pools_set_pool|reflexivity].
  - apply Hpop; [apply pools_set_pool|reflexivity].
Qed.

End DoubleFree.

(** ** Two pools *)

Section TwoPools.

Variable tgt : target.

(** X21: allocation and release on a live pool leave every other live pool whose
    mapping does not overlap alone: its directory entry and every byte of
    its mapping are as before, and it is live with the same free list. *)
Theorem pools_isolated i j s Li Lj :
  pool_wf tgt s i Li -> pool_wf tgt s j Lj -> j <> i ->
  disjoint_mappings (pools s i) (pools s j) ->
  (forall zeroed h s',
      __rseq_percpu_malloc tgt i zeroed s = Ok (h, s') ->
      pools s' j = pools s j /\ pool_wf tgt s' j Lj
      /\ forall x, in_mapping (pools s j) x -> mem s' x = mem s x)
  /\ (forall off s',
        valid_offset (pools s i) off ->
        rseq_percpu_free tgt (handle_of tgt i off) s = Ok s' ->
        pools s' j = pools s j /\ pool_wf tgt s' j Lj
        /\ forall x, in_mapping (pools s j) x -> mem s' x = mem s x).
Proof.
  intros Hi Hj Hne Hdis.
  destruct (pool_wf_offset_bound _ _ _ _ Hi) as (_ & Hipos & _).
  split.
  - intros zeroed h s' Hm. split_and!.
    + exact (malloc_pools_other tgt _ _ _ _ _ _ Hm Hne).
    + exact (malloc_other_pool tgt i j zeroed s h s' Li Lj Hi Hj Hne Hdis Hm).
    + intros x Hx. destruct (Z.eq_dec h 0) as [->|Hnz].
      * apply (malloc_null_iff tgt _ _ _ _ _ _ Hi) in Hm as Hex.
        rewrite (malloc_exhausted tgt i zeroed s (proj1 Hex eq_refl)) in Hm.
        now injection Hm as <-.
      * destruct (malloc_live tgt _ _ _ _ _ _ Hi Hm Hnz)
          as (off & L' & _ & Hwf' & (Hb & _ & Hil & Hpl & _ & Hmc) & [Hoff _]
              & _ & Hfit & _ & Hmem).
        rewrite Hmem. destruct zeroed; [|reflexivity].
        apply zero_item_outside; rewrite ?Hil, ?Hpl; auto; try lia.
        -- apply (wf_mapped _ _ _ _ Hwf').
        -- unfold in_mapping. rewrite Hb, Hpl, Hmc. intros Hin.
           exact (Hdis x Hin Hx).
  - intros off s' Hv Hfree. split_and!.
    + assert (Hoff : 0 <= off < percpu_len (pools s i)).
      { pose proof (wf_next _ _ _ _ Hi) as [Hn _]. destruct Hv. lia. }
      rewrite (free_unfold tgt s i Li off Hi Hoff) in Hfree.
      destruct (unmask_free_slot _ _ _); cbn [mbind outcome_bind] in Hfree;
        try discriminate.
      injection Hfree as <-. simpl_pool. now rewrite fn_lookup_insert_ne by congruence.
    + exact (free_other_pool tgt i j s off s' Li Lj Hi Hj Hne Hdis Hv Hfree).
    + intros x Hx.
      pose proof (wf_next _ _ _ _ Hi) as [Hn Hnd].
      pose proof (wf_item _ _ _ _ Hi) as Hitem.
      destruct (wf_mapped _ _ _ _ Hi) as (Hb & Hl & Hc & Hm).
      pose proof (valid_offset_fits _ _ Hipos Hnd Hv) as Hfit. destruct Hv as [Hoff _].
      rewrite (free_unfold tgt s i Li off Hi) in Hfree by lia.
      destruct (unmask_free_slot _ _ _); cbn [mbind outcome_bind] in Hfree;
        try discriminate.
      injection Hfree as <-. cbn [mem set_mem]. apply store_le_out.
      assert (Hout : ~ in_mapping (pools s i) x) by (intros E; exact (Hdis x E Hx)).
      unfold in_mapping in Hout. pose proof (sizeof_ptr_pos tgt).
      rewrite Z2Nat.id by lia.
      assert (percpu_len (pools s i)
              <= percpu_len (pools s i) * max_nr_cpus (pools s i)) by nia.
      lia.
Qed.

End TwoPools.

(** ** The pool set *)

Section PoolSets.

Variable tgt : target.

Lemma min_entry_pow : sizeof_ptr tgt = 2 ^ POOL_SET_MIN_ENTRY tgt.
Proof. destruct tgt; reflexivity. Qed.

(** The order of a live pool is an index of [entries] that the loops over
    the set reach. *)
Lemma pool_wf_order_range s pool L :
  pool_wf tgt s pool L ->
  POOL_SET_MIN_ENTRY tgt <= item_order (pools s pool) < POOL_SET_NR_ENTRIES tgt.
Proof.
  intros Hwf. destruct (wf_order _ _ _ _ Hwf) as [Ho Hil].
  pose proof (wf_item _ _ _ _ Hwf) as [Hlo Hhi].
  destruct (pool_wf_offset_bound _ _ _ _ Hwf) as (Hs & _ & _).
  rewrite Hil, min_entry_pow in Hlo. rewrite Hil in Hhi.
  assert (Hmin : 0 <= POOL_SET_MIN_ENTRY tgt) by (destruct tgt; discriminate).
  assert (Hsh : 0 <= POOL_INDEX_SHIFT tgt) by (destruct tgt; discriminate).
  split.
  - apply (Z.pow_le_mono_r_iff 2); lia.
  - unfold POOL_SET_NR_ENTRIES. apply (Z.pow_lt_mono_r_iff 2); lia.
Qed.

(** X22: adding a live pool to a set: the pool goes to the entry of its order,
    which the loops over the set reach; when that entry is taken, the call
    fails with [EBUSY] and leaves the set as it was; otherwise it returns 0,
    the entry holds the pool afterwards, and the other entries and the state
    are as before. *)
Theorem pool_set_add_pool_spec pool_set pool s L :
  pool_wf tgt s pool L ->
  let o := item_order (pools s pool) in
  POOL_SET_MIN_ENTRY tgt <= o < POOL_SET_NR_ENTRIES tgt
  /\ match entries pool_set o with
     | Some _ =>
         rseq_percpu_pool_set_add_pool tgt pool_set pool s
         = Ok (-1, pool_set, set_errno EBUSY s)
     | None =>
         exists set',
           rseq_percpu_pool_set_add_pool tgt pool_set pool s = Ok (0, set', s)
           /\ entries set' o = Some pool
           /\ (forall o', o' <> o -> entries set' o' = entries pool_set o')
           /\ (pool_set_wf tgt s pool_set -> pool_set_wf tgt s set')
     end.
Proof.
  intros Hwf o. pose proof (pool_wf_order_range s pool L Hwf) as Hrange.
  fold o in Hrange. split; [exact Hrange|].
  assert (Hmin : 0 <= POOL_SET_MIN_ENTRY tgt) by (destruct tgt; discriminate).
  assert (Hnr : POOL_SET_NR_ENTRIES tgt < RSEQ_BITS_PER_LONG tgt)
    by (destruct tgt; reflexivity).
  assert (Hw : wrap tgt o = o).
  { apply wrap_small. split; [lia|].
    apply Z.lt_trans with (RSEQ_BITS_PER_LONG tgt); [lia|].
    apply Z.pow_gt_lin_r; lia. }
  unfold rseq_percpu_pool_set_add_pool. fold o. rewrite Hw.
  destruct (Z.leb_spec (POOL_SET_NR_ENTRIES tgt) o) as [|_]; [lia|].
  destruct (entries pool_set o) as [q|] eqn:He; [reflexivity|].
  eexists. split; [reflexivity|]. cbn [entries]. split_and!.
  - apply fn_lookup_insert.
  - intros o' Hne. now apply fn_lookup_insert_ne.
  - intros Hset o' q. cbn [entries]. unfold insert, fn_insert.
    destruct (decide (o = o')).
    + intros [= <-]. eauto.
    + apply Hset.
Qed.

(** A call of [rseq_percpu_pool_destroy] that returns, returns 0; it leaves
    the memory and the other directory entries as they were, and its own
    entry either as it was or zero-filled. *)
Lemma pool_destroy_effect pool s r s' :
  rseq_percpu_pool_destroy tgt pool s = Ok (r, s') ->
  r = 0 /\ mem s' = mem s
  /\ (forall j, j <> pool -> pools s' j = pools s j)
  /\ (pools s' pool = pools s pool \/ pools s' pool = zero_pool).
Proof.
  unfold rseq_percpu_pool_destroy.
  destruct (Z.eqb_spec (base (pools s pool)) 0).
  - intros [= <- <-]. auto.
  - destruct (munmap_func _) as [g|]; [|discriminate].
    destruct (g _ _ _ _) as [ret e]. destruct (negb _).
    + intros [= <- <-]. auto.
    + destruct (destroy_free_bitmap _ _ _) as [[]| |]; try discriminate.
      intros [= <- <-]. cbn [pools mem set_pool set_errno]. split_and!; auto.
      * intros j Hj. now apply fn_lookup_insert_ne.
      * right. apply fn_lookup_insert.
Qed.

Lemma pool_destroy_zero_pool pool s r s' :
  pools s pool = zero_pool ->
  rseq_percpu_pool_destroy tgt pool s = Ok (r, s') -> pools s' pool = zero_pool.
Proof.
  intros Hz Hd. destruct (pool_destroy_effect pool s r s' Hd) as (_ & _ & _ & [E|E]);
    congruence.
Qed.

Lemma pool_set_destroy_loop_spec n : forall order pool_set s r set' s',
  pool_set_destroy_loop tgt n order pool_set s = Ok (r, set', s') ->
  r = None /\ mem s' = mem s
  /\ (forall j, pools s' j = pools s j \/ pools s' j = zero_pool)
  /\ (forall j, pools s j = zero_pool -> pools s' j = zero_pool)
  /\ (forall j, (forall o, order <= o < order + Z.of_nat n ->
                           entries pool_set o <> Some j) ->
                pools s' j = pools s j)
  /\ (forall o q, order <= o < order + Z.of_nat n ->
        entries pool_set o = Some q -> unmappable tgt (pools s q) ->
        pools s' q = zero_pool).
Proof.
  induction n as [|n IH]; intros order pool_set s r set' s';
    cbn [pool_set_destroy_loop].
  - intros [= <- <- <-]. split_and!; auto. intros; lia.
  - destruct (entries pool_set order) as [pool|] eqn:He.
    + destruct (rseq_percpu_pool_destroy tgt pool s) as [[ret s1]| |] eqn:Hd;
        cbn [mbind outcome_bind]; try discriminate.
      destruct (pool_destroy_effect pool s ret s1 Hd) as (-> & Hmem & Hother & Hown).
      cbn [Z.eqb negb]. intros Hloop.
      destruct (IH _ _ _ _ _ _ Hloop) as (Hr & Hmem' & Hany & Hzero & Hout & Hin).
      assert (Hstep : forall j, pools s1 j = pools s j \/ pools s1 j = zero_pool).
      { intros j. destruct (Z.eq_dec j pool) as [->|Hne]; [exact Hown|].
        left. now apply Hother. }
      split_and!; auto; try congruence.
      * intros j. destruct (Hany j) as [E|E]; [|now right].
        destruct (Hstep j) as [E'|E']; [left|right]; congruence.
      * intros j Hz. apply Hzero. destruct (Hstep j) as [E|E]; congruence.
      * intros j Hj. rewrite Hout.
        -- apply Hother. intros ->. apply (Hj order); [lia|exact He].
        -- intros o Ho. cbn [entries]. rewrite fn_lookup_insert_ne by lia.
           apply Hj. lia.
      * intros o q Ho Hq Hun.
        destruct (Z.eq_dec q pool) as [->|Hne].
        -- apply Hzero. destruct Hun as (Hb & Hbm & g & Hg & Hret).
           pose proof (pool_destroy_unmapped tgt pool s g Hb Hg (Hret (errno s))) as Hd'.
           rewrite Hbm in Hd'. cbn in Hd'. rewrite Hd in Hd'.
           injection Hd' as ->. cbn [pools set_pool]. apply fn_lookup_insert.
        -- destruct (Z.eq_dec o order) as [->|Hno]; [congruence|].
           apply (Hin o q); [lia| |].
           ++ cbn [entries]. now rewrite fn_lookup_insert_ne by congruence.
           ++ now rewrite (Hother q Hne).
    + intros Hloop.
      destruct (IH _ _ _ _ _ _ Hloop) as (Hr & Hmem' & Hany & Hzero & Hout & Hin).
      split_and!; auto.
      * intros j Hj. apply Hout. intros o Ho. apply Hj. lia.
      * intros o q Ho Hq Hun. destruct (Z.eq_dec o order) as [->|Hno]; [congruence|].
        apply (Hin o q); auto. lia.
Qed.

(** X23: a call of [rseq_percpu_pool_set_destroy] that returns has returned 0 and
    freed the set: the early return on a failed destruction is never taken,
    since [rseq_percpu_pool_destroy] only returns 0.  Every pool of the set
    whose unmapping succeeds is cleared from the directory; a pool whose
    unmapping fails stays there, and the pools outside the set and the
    memory are left alone. *)
Theorem pool_set_destroy_spec pool_set s r set' s' :
  rseq_percpu_pool_set_destroy tgt pool_set s = Ok (r, set', s') ->
  r = 0 /\ set' = None /\ mem s' = mem s
  /\ (forall j, pools s' j = pools s j \/ pools s' j = zero_pool)
  /\ (forall j,
        (forall o, POOL_SET_MIN_ENTRY tgt <= o < POOL_SET_NR_ENTRIES tgt ->
                   entries pool_set o <> Some j) ->
        pools s' j = pools s j)
  /\ (forall o q,
        POOL_SET_MIN_ENTRY tgt <= o < POOL_SET_NR_ENTRIES tgt ->
        entries pool_set o = Some q -> unmappable tgt (pools s q) ->
        pools s' q = zero_pool).
Proof.
  unfold rseq_percpu_pool_set_destroy.
  destruct (pool_set_destroy_loop _ _ _ _ _) as [[[r0 set0] s0]| |] eqn:Hloop;
    cbn [mbind outcome_bind]; try discriminate.
  destruct (pool_set_destroy_loop_spec _ _ _ _ _ _ _ Hloop)
    as (-> & Hmem & Hany & _ & Hout & Hin).
  assert (Hn : POOL_SET_MIN_ENTRY tgt
               + Z.of_nat (Z.to_nat (POOL_SET_NR_ENTRIES tgt - POOL_SET_MIN_ENTRY tgt))
               = POOL_SET_NR_ENTRIES tgt) by (destruct tgt; reflexivity).
  rewrite Hn in *. intros [= <- <- <-]. split_and!; auto.
Qed.

End PoolSets.

(** ** A set with one pool *)

Section SinglePoolSet.

Variable tgt : target.

(** The search in a set that holds one pool. *)
Lemma pool_set_find_single s pool o len n : forall a,
  pool_set_find s {| entries := <[o := Some pool]> (fun _ => None) |} len n a
  = if (a <=? o) && (o <? a + Z.of_nat n) && (len <=? item_len (pools s pool))
    then (o, Some pool) else (a + Z.of_nat n, None).
Proof.
  induction n as [|n IH]; intros a.
  - cbn [pool_set_find].
    destruct (Z.leb_spec a o), (Z.ltb_spec o (a + Z.of_nat 0)); cbn [andb];
      try lia; f_equal; lia.
  - cbn [pool_set_find entries]. unfold insert at 1, fn_insert at 1.
    destruct (decide (o = a)) as [->|Hne].
    + destruct (Z.leb_spec len (item_len (pools s pool))).
      * destruct (Z.leb_spec a a); [|lia].
        destruct (Z.ltb_spec a (a + Z.of_nat (S n))); [reflexivity|lia].
      * rewrite IH. rewrite !andb_false_r. f_equal. lia.
    + rewrite IH.
      destruct (Z.leb_spec (a + 1) o), (Z.leb_spec a o); try lia;
        destruct (Z.ltb_spec o (a + 1 + Z.of_nat n)),
                 (Z.ltb_spec o (a + Z.of_nat (S n))); try lia; cbn [andb];
        try destruct (len <=? _); try reflexivity; f_equal; lia.
Qed.

(** X24: a set made by [rseq_percpu_pool_set_create] to which one live pool was
    added serves every request of at most the item length of the pool by an
    allocation from the pool, with its result, and answers every longer
    request with null and [errno = ENOMEM], the state being otherwise left
    alone. *)
Theorem pool_set_single_pool pool s L set0 :
  pool_wf tgt s pool L ->
  rseq_percpu_pool_set_create true = Some set0 ->
  exists set1,
    rseq_percpu_pool_set_add_pool tgt set0 pool s = Ok (0, set1, s)
    /\ (forall len zeroed,
          len <= item_len (pools s pool) ->
          __rseq_percpu_pool_set_malloc tgt set1 len zeroed s
          = __rseq_percpu_malloc tgt pool zeroed s)
    /\ (forall len zeroed,
          item_len (pools s pool) < len ->
          __rseq_percpu_pool_set_malloc tgt set1 len zeroed s
          = Ok (0, set_errno ENOMEM s)).
Proof.
  intros Hwf [= <-].
  pose proof (pool_wf_order_range tgt s pool L Hwf) as Hrange.
  set (o := item_order (pools s pool)) in *.
  exists {| entries := <[o := Some pool]> (fun _ => None) |}.
  assert (Hmin : 0 <= POOL_SET_MIN_ENTRY tgt) by (destruct tgt; discriminate).
  assert (Hnr : POOL_SET_NR_ENTRIES tgt < RSEQ_BITS_PER_LONG tgt)
    by (destruct tgt; reflexivity).
  split_and!.
  - unfold rseq_percpu_pool_set_add_pool. fold o.
    rewrite (wrap_small tgt o).
    + destruct (Z.leb_spec (POOL_SET_NR_ENTRIES tgt) o) as [|_]; [lia|]. reflexivity.
    + split; [lia|]. apply Z.lt_trans with (RSEQ_BITS_PER_LONG tgt); [lia|].
      apply Z.pow_gt_lin_r; lia.
  - intros len zeroed Hlen. unfold __rseq_percpu_pool_set_malloc.
    rewrite pool_set_start_order.
    set (start := Z.max (Z.log2_up len) (POOL_SET_MIN_ENTRY tgt)).
    assert (Hstart : start <= o).
    { subst start. apply Z.max_lub; [|lia].
      destruct (wf_order _ _ _ _ Hwf) as [Ho Hil]. fold o in Ho, Hil.
      destruct (Z.le_gt_cases len 0) as [Hn|Hp].
      - rewrite Z.log2_up_nonpos by exact Hn. exact Ho.
      - apply Z.log2_up_le_pow2; lia. }
    rewrite pool_set_malloc_again_eq, pool_set_find_single.
    rewrite Z2Nat.id by lia.
    destruct (Z.leb_spec start o); [|lia].
    destruct (Z.ltb_spec o (start + (POOL_SET_NR_ENTRIES tgt - start))); [|lia].
    destruct (Z.leb_spec len (item_len (pools s pool))); [|lia]. cbn [andb].
    destruct (__rseq_percpu_malloc tgt pool zeroed s) as [[h s']| |] eqn:Hm;
      try reflexivity.
    destruct (Z.eqb_spec h 0) as [->|Hnz]; [|reflexivity].
    apply (malloc_null_iff tgt _ _ _ _ _ _ Hwf) in Hm as Hex.
    rewrite (malloc_exhausted tgt pool zeroed s (proj1 Hex eq_refl)) in Hm.
    injection Hm as <-. cbn [errno set_errno Z.eqb andb]. change (ENOMEM =? ENOMEM) with true.
    cbn [andb].
    rewrite pool_set_malloc_again_eq, pool_set_find_single.
    destruct (Z.leb_spec (o + 1) o); [lia|]. reflexivity.
  - intros len zeroed Hlen. unfold __rseq_percpu_pool_set_malloc.
    rewrite pool_set_start_order, pool_set_malloc_again_eq, pool_set_find_single.
    destruct (Z.leb_spec len (item_len (pools s pool))); [lia|].
    rewrite !andb_false_r. reflexivity.
Qed.

End SinglePoolSet.

(** ** Pointers of rseq/mempool.h *)

Section MempoolPtr.

Variable tgt : target.

Lemma uint_word : 2 ^ 32 <= 2 ^ RSEQ_BITS_PER_LONG tgt.
Proof. destruct tgt; vm_compute; discriminate. Qed.

Lemma wrap_add_idemp a b : wrap tgt (wrap tgt a + wrap tgt b) = wrap tgt (a + b).
Proof. unfold wrap. now rewrite <- Zplus_mod. Qed.

Lemma rseq_percpu_ptr_eq ptr cpu stride :
  0 <= cpu < 2 ^ 32 ->
  rseq_percpu_ptr tgt ptr cpu stride = wrap tgt (ptr + cpu * stride_of tgt stride).
Proof.
  intros Hcpu. pose proof uint_word as Hw.
  unfold rseq_percpu_ptr. unfold to_uint.
  rewrite (Z.mod_small cpu) by lia. rewrite (wrap_small tgt cpu) by lia.
  apply wrap_add_idemp.
Qed.

(** X25: [rseq_percpu_ptr] with a CPU number that fits [unsigned int]: CPU 0 has
    the pointer itself, the pointer of CPU [c] lies [c] strides above it when
    that does not leave the address space, and stepping by [c1] and then by
    [c2] CPUs is stepping by [c1 + c2]; without the optional argument the
    stride is 64 kB. *)
Theorem rseq_percpu_ptr_steps ptr stride c1 c2 :
  0 <= ptr < 2 ^ RSEQ_BITS_PER_LONG tgt ->
  0 <= c1 -> 0 <= c2 -> c1 + c2 < 2 ^ 32 ->
  rseq_percpu_ptr tgt ptr 0 stride = ptr
  /\ (ptr + c1 * stride_of tgt stride < 2 ^ RSEQ_BITS_PER_LONG tgt ->
      rseq_percpu_ptr tgt ptr c1 stride = ptr + c1 * stride_of tgt stride)
  /\ rseq_percpu_ptr tgt (rseq_percpu_ptr tgt ptr c1 stride) c2 stride
     = rseq_percpu_ptr tgt ptr (c1 + c2) stride
  /\ stride_of tgt None = 65536.
Proof.
  intros Hptr Hc1 Hc2 Hsum.
  assert (Hst : 0 <= stride_of tgt stride)
    by (destruct stride; apply wrap_range).
  split_and!.
  - rewrite rseq_percpu_ptr_eq by lia. rewrite Z.mul_0_l, Z.add_0_r.
    now apply wrap_small.
  - intros Hfit. rewrite rseq_percpu_ptr_eq by lia. apply wrap_small. nia.
  - rewrite !rseq_percpu_ptr_eq by lia.
    unfold wrap. rewrite Zplus_mod_idemp_l. f_equal. lia.
  - unfold stride_of. destruct tgt; reflexivity.
Qed.

(** X26: a negative CPU number is converted to [unsigned int] first.  On the
    32-bit target the result is the pointer [-cpu] strides below, modulo the
    address space; on the 64-bit target it is the pointer [2^32 + cpu]
    strides above. *)
Theorem rseq_percpu_ptr_negative_cpu ptr stride cpu :
  - 2 ^ 31 <= cpu < 0 ->
  rseq_percpu_ptr tgt ptr cpu stride
  = match tgt with
    | ILP32 => wrap tgt (ptr + cpu * stride_of tgt stride)
    | LP64 => wrap tgt (ptr + (2 ^ 32 + cpu) * stride_of tgt stride)
    end.
Proof.
  intros Hcpu. unfold rseq_percpu_ptr. unfold to_uint.
  assert (Hmod : cpu mod 2 ^ 32 = 2 ^ 32 + cpu).
  { symmetry. apply (Z.mod_unique cpu (2 ^ 32) (-1)); lia. }
  rewrite Hmod. pose proof uint_word as Hw.
  rewrite (wrap_small tgt (2 ^ 32 + cpu)) by lia.
  rewrite wrap_add_idemp. destruct tgt; [reflexivity|].
  unfold wrap. change (2 ^ RSEQ_BITS_PER_LONG ILP32) with (2 ^ 32).
  set (st := stride_of ILP32 stride).
  replace (ptr + (2 ^ 32 + cpu) * st) with (ptr + cpu * st + st * 2 ^ 32) by lia.
  apply Z.mod_add. lia.
Qed.

End MempoolPtr.

(** ** The order of the free list *)

Section FreeListOrder.

Variable tgt : target.

(** Frees in a row push the items on the free list. *)
Lemma free_all_push pool (offs : list Z) : forall s L s1,
  pool_wf tgt s pool L -> List.NoDup offs ->
  (forall o, In o offs -> valid_offset (pools s pool) o /\ ~ In o L) ->
  free_all tgt (map (handle_of tgt pool) offs) s = Ok s1 ->
  pool_wf tgt s1 pool (rev offs ++ L).
Proof.
  induction offs as [|o offs IH]; intros s L s1 Hwf Hnd Hoffs Hfree.
  - cbn in Hfree. now injection Hfree as <-.
  - cbn [map free_all] in Hfree.
    destruct (rseq_percpu_free tgt (handle_of tgt pool o) s) as [s0| |] eqn:Hf;
      cbn [mbind outcome_bind] in Hfree; try discriminate.
    inversion Hnd as [|? ? Hni Hnd']; subst.
    destruct (Hoffs o (or_introl eq_refl)) as [Hv Hnotin].
    destruct (free_push tgt s pool L o s0 Hwf Hv Hnotin Hf)
      as (Hwf0 & (_ & _ & Hil & _) & Hnext & _).
    cbn [rev]. rewrite <- app_assoc. cbn [app].
    apply (IH s0 (o :: L) s1 Hwf0 Hnd'); [|exact Hfree].
    intros o' Ho'. destruct (Hoffs o' (or_intror Ho')) as [Hv' Hn'].
    split.
    + unfold valid_offset in *. now rewrite Hil, Hnext.
    + intros [E|E]; [subst; contradiction|contradiction].
Qed.

(** Allocations in a row pop the items off the free list. *)
Lemma malloc_n_pop pool (K : list Z) : forall s L,
  pool_wf tgt s pool (K ++ L) ->
  exists s2,
    malloc_n tgt pool (length K) s = Ok (map (handle_of tgt pool) K, s2)
    /\ pool_wf tgt s2 pool L.
Proof.
  induction K as [|o K IH]; intros s L Hwf.
  - exists s. split; [reflexivity|exact Hwf].
  - cbn [app] in Hwf.
    destruct (malloc_pop tgt pool false s o (K ++ L) Hwf) as (s1 & Hm & Hwf1 & _).
    destruct (IH s1 L Hwf1) as (s2 & Hn & Hwf2).
    exists s2. split; [|exact Hwf2].
    cbn [length malloc_n map]. unfold rseq_percpu_malloc. rewrite Hm.
    cbn [mbind outcome_bind]. rewrite Hn. reflexivity.
Qed.

(** X27: the free list is last-in first-out at any depth: after freeing distinct
    live items in a row, as many allocations return their handles in the
    reverse order, and leave the free list as it was before the frees. *)
Theorem free_list_lifo_any_depth pool s L offs s1 :
  pool_wf tgt s pool L -> List.NoDup offs ->
  (forall o, In o offs -> valid_offset (pools s pool) o /\ ~ In o L) ->
  free_all tgt (map (handle_of tgt pool) offs) s = Ok s1 ->
  exists s2,
    malloc_n tgt pool (length offs) s1
    = Ok (map (handle_of tgt pool) (rev offs), s2)
    /\ pool_wf tgt s2 pool L.
Proof.
  intros Hwf Hnd Hoffs Hfree.
  pose proof (free_all_push pool offs s L s1 Hwf Hnd Hoffs Hfree) as Hwf1.
  destruct (malloc_n_pop pool (rev offs) s1 L Hwf1) as (s2 & Hn & Hwf2).
  exists s2. rewrite length_rev in Hn. now split.
Qed.

End FreeListOrder.

(** ** The leak check of a robust pool *)

Section RobustLeak.

Variable tgt : target.

(** X28: the check of a robust pool for items that were not freed misses the
    items that were allocated from the free list: with every bit of the
    bitmap clear, the allocation of an item of the free list is followed by
    a destruction that passes the check and clears the directory slot. *)
Theorem robust_destroy_misses_recycled_item pool zeroed s off L b g :
  pool_wf tgt s pool (off :: L) ->
  free_bitmap (pools s pool) = Some b -> bitmap_sized tgt (pools s pool) ->
  (forall k w, b !! k = Some w -> w = 0) ->
  munmap_func (mmap_attr (pools s pool)) = Some g ->
  (forall e, fst (g (mmap_priv (mmap_attr (pools s pool))) (base (pools s pool))
                    (wrap tgt (percpu_len (pools s pool) * max_nr_cpus (pools s pool)))
                    e) = 0) ->
  exists s1 s2,
    __rseq_percpu_malloc tgt pool zeroed s = Ok (handle_of tgt pool off, s1)
    /\ handle_of tgt pool off <> 0
    /\ rseq_percpu_pool_destroy tgt pool s1 = Ok (0, s2)
    /\ pools s2 pool = zero_pool.
Proof.
  intros Hwf Hb Hsz Hzero Hg Hret.
  destruct (malloc_pop tgt pool zeroed s off L Hwf)
    as (s1 & Hm & Hwf1 & (Hbase & _ & _ & Hpl & Hio & Hc) & _ & Hbm & _).
  assert (Hattr : mmap_attr (pools s1 pool) = mmap_attr (pools s pool)).
  { revert Hm. unfold __rseq_percpu_malloc.
    pose proof (wf_list _ _ _ _ Hwf) as [Hhead _].
    pose proof (wf_mapped _ _ _ _ Hwf) as (Hb0 & _).
    pose proof (wf_offs _ _ _ _ Hwf) as Hoffs.
    inversion Hoffs as [|? ? [Hoff _] _]; subst.
    destruct (Z.eqb_spec (free_list_head (pools s pool)) 0) as [|_]; [lia|].
    cbn [negb mbind outcome_bind].
    destruct (_ && _); intros [= _ <-]; simpl_pool; reflexivity. }
  pose proof (wf_mapped _ _ _ _ Hwf1) as (Hb1 & _).
  pose proof (wf_offs _ _ _ _ Hwf) as Hoffs.
  inversion Hoffs as [|? ? [Hoff _] _]; subst.
  exists s1. eexists. split; [exact Hm|].
  split; [apply (handle_of_nonnull tgt s pool (off :: L)); auto; lia|].
  rewrite (pool_destroy_unmapped tgt pool s1 g) by
    (rewrite ?Hattr, ?Hbase, ?Hpl, ?Hc; auto; lia).
  rewrite Hbm, Hb, Hpl, Hio.
  unfold destroy_free_bitmap. unfold bitmap_sized in Hsz. rewrite Hb in Hsz.
  rewrite <- Hsz, Nat2Z.id.
  rewrite destroy_free_bitmap_loop_zero.
  - cbn [mbind outcome_bind]. split; [reflexivity|]. apply pools_set_pool.
  - intros j Hj. destruct (lookup_lt_is_Some_2 b j ltac:(lia)) as [w Hw].
    now rewrite Hw, (Hzero j w Hw).
Qed.

End RobustLeak.

(** * Further properties on concrete runs *)

Lemma boot_clean : dir_clean boot.
Proof. exact (dir_clean_initial _). Qed.

Lemma demo_create : create64 32 65536 4 0 boot = Ok (Some 1, demo_state).
Proof. reflexivity. Qed.

Lemma demo_state_mapped : pool_mapped LP64 (pools demo_state 1).
Proof. vm_compute; repeat split; try reflexivity; try (intro; discriminate). Qed.

Lemma pool_create_frame_witness :
  create64 32 65536 4 0 boot = Ok (Some 1, demo_state)
  /\ mem demo_state = mem boot
  /\ FIRST_POOL <= 1 < MAX_NR_POOLS LP64
  /\ base (pools boot 1) = 0
  /\ (forall j, FIRST_POOL <= j < 1 -> base (pools boot j) <> 0)
  /\ base (pools demo_state 1) <> 0
  /\ forall j, j <> 1 -> pools demo_state j = pools boot j.
Proof.
  split; [exact demo_create|].
  exact (pool_create_frame LP64 (mmap_at 1048576) munmap_ok 4096 true 32 65536 4
           None 0 boot (Some 1) demo_state demo_create).
Defined.

Lemma pool_create_directory_full_witness :
  (forall i, FIRST_POOL <= i < MAX_NR_POOLS LP64 -> base (pools busy_state i) <> 0)
  /\ create64 32 65536 4 0 busy_state = Ok (None, set_errno ENOMEM busy_state).
Proof.
  assert (H : forall i, FIRST_POOL <= i < MAX_NR_POOLS LP64 ->
                        base (pools busy_state i) <> 0)
    by (intros i _; discriminate).
  split; [exact H|].
  apply (proj2 (pool_create_directory_full LP64 (mmap_at 1048576) munmap_ok 4096 true
                  32 65536 4 None 0 busy_state H)).
  - reflexivity.
  - vm_compute; discriminate.
  - lia.
  - vm_compute. split; discriminate.
Defined.

Lemma pool_create_geometry_witness :
  create64 32 65536 4 0 boot = Ok (Some 1, demo_state)
  /\ item_len (pools demo_state 1) = 2 ^ item_order (pools demo_state 1)
  /\ 32 <= item_len (pools demo_state 1).
Proof.
  split; [exact demo_create|].
  pose proof (pool_create_geometry LP64 (mmap_at 1048576) munmap_ok 4096 true
                32 65536 4 None 0 boot 1 demo_state demo_create) as H.
  cbv zeta in H. split; [apply H|apply H].
Defined.

Lemma demo_munmap :
  munmap_func (mmap_attr (pools demo_state 1)) = Some (default_munmap_func munmap_ok).
Proof. reflexivity. Qed.

Lemma pool_destroy_twice_witness :
  base (pools demo_state 1) <> 0
  /\ free_bitmap (pools demo_state 1) = None
  /\ exists s',
       rseq_percpu_pool_destroy LP64 1 demo_state = Ok (0, s')
       /\ pools s' 1 = zero_pool
       /\ (forall j, j <> 1 -> pools s' j = pools demo_state j)
       /\ mem s' = mem demo_state
       /\ rseq_percpu_pool_destroy LP64 1 s' = Ok (0, set_errno ENOENT s').
Proof.
  assert (H1 : base (pools demo_state 1) <> 0) by (vm_compute; discriminate).
  assert (H2 : free_bitmap (pools demo_state 1) = None) by reflexivity.
  split; [exact H1|]. split; [exact H2|].
  exact (pool_destroy_twice LP64 1 demo_state (default_munmap_func munmap_ok)
           H1 H2 demo_munmap eq_refl).
Defined.

Lemma robust_create :
  create64 8 4096 1 RSEQ_POOL_ROBUST boot = Ok (Some 1, robust_state).
Proof. reflexivity. Qed.

Lemma pool_create_destroy_round_trip_witness :
  dir_clean boot
  /\ create64 8 4096 1 RSEQ_POOL_ROBUST boot = Ok (Some 1, robust_state)
  /\ exists s2,
       rseq_percpu_pool_destroy LP64 1 robust_state = Ok (0, s2)
       /\ (forall j, pools s2 j = pools boot j)
       /\ mem s2 = mem boot.
Proof.
  split; [exact boot_clean|]. split; [exact robust_create|].
  refine (pool_create_destroy_round_trip LP64 (mmap_at 1048576) munmap_ok 4096 true
            8 4096 1 None RSEQ_POOL_ROBUST boot 1 robust_state
            (default_munmap_func munmap_ok) boot_clean robust_create _ _);
    reflexivity.
Defined.

Lemma created_pool_is_fresh_witness :
  dir_clean boot
  /\ create64 32 65536 4 0 boot = Ok (Some 1, demo_state)
  /\ pool_mapped LP64 (pools demo_state 1)
  /\ pool_wf LP64 demo_state 1 []
  /\ next_unused (pools demo_state 1) = 0
  /\ bitmap_wf LP64 (pools demo_state 1) /\ bitmap_sized LP64 (pools demo_state 1)
  /\ pool_inv LP64 1 (demo_state, []).
Proof.
  split; [exact boot_clean|]. split; [exact demo_create|].
  split; [exact demo_state_mapped|].
  exact (created_pool_is_fresh LP64 (mmap_at 1048576) munmap_ok 4096 true
           32 65536 4 None 0 boot 1 demo_state boot_clean demo_create
           demo_state_mapped).
Defined.

Lemma demo_first_step :
  rtc (pool_step LP64 1) (demo_state, [])
    (lifo_s1, [Z.land lifo_h1 (MAX_POOL_LEN_MASK LP64)]).
Proof.
  apply rtc_once. apply (step_malloc LP64 1 demo_state [] false lifo_h1 lifo_s1).
  - reflexivity.
  - vm_compute; discriminate.
Qed.

Lemma created_pool_stays_live_witness :
  create64 32 65536 4 0 boot = Ok (Some 1, demo_state)
  /\ pool_mapped LP64 (pools demo_state 1)
  /\ rtc (pool_step LP64 1) (demo_state, [])
       (lifo_s1, [Z.land lifo_h1 (MAX_POOL_LEN_MASK LP64)])
  /\ pool_inv LP64 1 (lifo_s1, [Z.land lifo_h1 (MAX_POOL_LEN_MASK LP64)]).
Proof.
  split; [exact demo_create|]. split; [exact demo_state_mapped|].
  split; [exact demo_first_step|].
  exact (created_pool_stays_live LP64 (mmap_at 1048576) munmap_ok 4096 true
           32 65536 4 None 0 boot 1 demo_state _ demo_create eq_refl eq_refl
           demo_state_mapped demo_first_step).
Defined.

Lemma created_pool_malloc_returns_witness :
  create64 32 65536 4 0 boot = Ok (Some 1, demo_state)
  /\ pool_mapped LP64 (pools demo_state 1)
  /\ exists h s', __rseq_percpu_malloc LP64 1 true lifo_s1 = Ok (h, s').
Proof.
  split; [exact demo_create|]. split; [exact demo_state_mapped|].
  exact (created_pool_malloc_returns LP64 (mmap_at 1048576) munmap_ok 4096 true
           32 65536 4 None 0 boot 1 demo_state _ true demo_create eq_refl eq_refl
           eq_refl demo_state_mapped demo_first_step).
Defined.

Lemma robust_state_wf : pool_wf LP64 robust_state 1 [].
Proof.
  apply (pool_create_wf LP64 (mmap_at 1048576) munmap_ok 4096 true 8 4096 1
           None RSEQ_POOL_ROBUST boot); try reflexivity.
  vm_compute; repeat split; try reflexivity; try (intro; discriminate).
Qed.

Lemma robust_first_malloc :
  __rseq_percpu_malloc LP64 1 false robust_state = Ok (handle_of LP64 1 0, robust_s1).
Proof. reflexivity. Qed.

Lemma robust_s1_wf : pool_wf LP64 robust_s1 1 [].
Proof.
  refine (proj1 (proj2 (proj2 (malloc_bump LP64 1 false robust_state
                                 (handle_of LP64 1 0) robust_s1
                                 robust_state_wf _ robust_first_malloc))));
    reflexivity.
Qed.

Lemma robust_destroy_live_item_aborts_witness :
  pool_wf LP64 robust_state 1 []
  /\ free_bitmap (pools robust_state 1) <> None
  /\ bitmap_sized LP64 (pools robust_state 1)
  /\ __rseq_percpu_malloc LP64 1 false robust_state = Ok (handle_of LP64 1 0, robust_s1)
  /\ handle_of LP64 1 0 <> 0
  /\ rseq_percpu_pool_destroy LP64 1 robust_s1 = Abort.
Proof.
  assert (H2 : free_bitmap (pools robust_state 1) <> None) by (vm_compute; discriminate).
  assert (H3 : bitmap_sized LP64 (pools robust_state 1)) by (vm_compute; reflexivity).
  assert (H5 : handle_of LP64 1 0 <> 0) by (vm_compute; discriminate).
  split; [exact robust_state_wf|]. split; [exact H2|]. split; [exact H3|].
  split; [exact robust_first_malloc|]. split; [exact H5|].
  refine (robust_destroy_live_item_aborts LP64 1 false robust_state
            (handle_of LP64 1 0) robust_s1 (default_munmap_func munmap_ok)
            robust_state_wf H2 H3 robust_first_malloc H5 _ _); reflexivity.
Defined.

Lemma zero_valid_8 : valid_offset (pools robust_s1 1) 0.
Proof. split; [vm_compute; split; [discriminate|reflexivity]|exists 0; reflexivity]. Qed.

Lemma robust_free_outcome_witness :
  pool_wf LP64 robust_s1 1 []
  /\ valid_offset (pools robust_s1 1) 0
  /\ free_bitmap (pools robust_s1 1) = Some [1; 0; 0; 0; 0; 0; 0; 0]
  /\ exists s1,
       rseq_percpu_free LP64 (handle_of LP64 1 0) robust_s1 = Ok s1
       /\ handle_bit LP64 s1 (handle_of LP64 1 0) = Some false
       /\ rseq_percpu_free LP64 (handle_of LP64 1 0) s1 = Abort.
Proof.
  assert (H4 : free_bitmap (pools robust_s1 1) = Some [1; 0; 0; 0; 0; 0; 0; 0])
    by reflexivity.
  split; [exact robust_s1_wf|]. split; [exact zero_valid_8|]. split; [exact H4|].
  apply (proj2 (proj2 (robust_free_outcome LP64 1 robust_s1 [] 0 _
                         robust_s1_wf zero_valid_8 (fun H => H) H4))).
  - vm_compute; reflexivity.
  - reflexivity.
Defined.

Lemma robust_first_free :
  rseq_percpu_free LP64 (handle_of LP64 1 0) robust_s1
  = Ok (state_after_free LP64 (handle_of LP64 1 0) robust_s1).
Proof. reflexivity. Qed.

Lemma robust_recycled_item_free_aborts_witness :
  pool_wf LP64 robust_s1 1 []
  /\ valid_offset (pools robust_s1 1) 0
  /\ free_bitmap (pools robust_s1 1) <> None
  /\ rseq_percpu_free LP64 (handle_of LP64 1 0) robust_s1
     = Ok (state_after_free LP64 (handle_of LP64 1 0) robust_s1)
  /\ exists s2,
       __rseq_percpu_malloc LP64 1 true
         (state_after_free LP64 (handle_of LP64 1 0) robust_s1)
       = Ok (handle_of LP64 1 0, s2)
       /\ handle_bit LP64 s2 (handle_of LP64 1 0) = Some false
       /\ rseq_percpu_free LP64 (handle_of LP64 1 0) s2 = Abort.
Proof.
  assert (H3 : free_bitmap (pools robust_s1 1) <> None) by (vm_compute; discriminate).
  split; [exact robust_s1_wf|]. split; [exact zero_valid_8|]. split; [exact H3|].
  split; [exact robust_first_free|].
  exact (robust_recycled_item_free_aborts LP64 1 true robust_s1 [] 0 _
           robust_s1_wf zero_valid_8 (fun H => H) H3 robust_first_free).
Defined.

Lemma zero_valid_32 : valid_offset (pools lifo_s1 1) 0.
Proof. split; [vm_compute; split; [discriminate|reflexivity]|exists 0; reflexivity]. Qed.

Lemma nonrobust_double_free_duplicates_witness :
  pool_wf LP64 lifo_s1 1 []
  /\ valid_offset (pools lifo_s1 1) 0
  /\ free_bitmap (pools lifo_s1 1) = None
  /\ exists s1 s2 s3 s4,
       rseq_percpu_free LP64 lifo_h1 lifo_s1 = Ok s1
       /\ rseq_percpu_free LP64 lifo_h1 s1 = Ok s2
       /\ rseq_percpu_malloc LP64 1 s2 = Ok (lifo_h1, s3)
       /\ rseq_percpu_malloc LP64 1 s3 = Ok (lifo_h1, s4).
Proof.
  split; [exact lifo_s1_wf|]. split; [exact zero_valid_32|]. split; [reflexivity|].
  exact (nonrobust_double_free_duplicates LP64 1 lifo_s1 [] 0
           lifo_s1_wf zero_valid_32 (fun H => H) eq_refl).
Defined.

Lemma lifo_second_malloc :
  __rseq_percpu_malloc LP64 1 false lifo_s1 = Ok (lifo_h2, lifo_s2).
Proof. reflexivity. Qed.

Lemma lifo_s2_wf : pool_wf LP64 lifo_s2 1 [].
Proof.
  refine (proj1 (proj2 (proj2 (malloc_bump LP64 1 false lifo_s1 lifo_h2 lifo_s2
                                 lifo_s1_wf _ lifo_second_malloc)))); reflexivity.
Qed.

Lemma lifo_s2_valid_0 : valid_offset (pools lifo_s2 1) 0.
Proof. split; [vm_compute; split; [discriminate|reflexivity]|exists 0; reflexivity]. Qed.

Lemma lifo_s2_valid_32 : valid_offset (pools lifo_s2 1) 32.
Proof. split; [vm_compute; split; [discriminate|reflexivity]|exists 1; reflexivity]. Qed.

Lemma lifo_s2_cpu (c : Z) : 0 <= c < 4 -> 0 <= c < max_nr_cpus (pools lifo_s2 1).
Proof. intros H. exact H. Qed.

Lemma live_item_in_mapping_witness :
  pool_wf LP64 lifo_s2 1 []
  /\ valid_offset (pools lifo_s2 1) 32
  /\ 0 <= 3 < max_nr_cpus (pools lifo_s2 1)
  /\ exists a,
       __rseq_percpu_ptr LP64 (handle_of LP64 1 32) 3 lifo_s2 = Ok a
       /\ base (pools lifo_s2 1) + percpu_len (pools lifo_s2 1) * 3 <= a
       /\ a + item_len (pools lifo_s2 1)
          <= base (pools lifo_s2 1) + percpu_len (pools lifo_s2 1) * (3 + 1)
       /\ forall k, 0 <= k < item_len (pools lifo_s2 1) ->
                    in_mapping (pools lifo_s2 1) (a + k).
Proof.
  assert (H3 : 0 <= 3 < max_nr_cpus (pools lifo_s2 1)) by (apply lifo_s2_cpu; lia).
  split; [exact lifo_s2_wf|]. split; [exact lifo_s2_valid_32|]. split; [exact H3|].
  exact (live_item_in_mapping LP64 lifo_s2 1 [] 32 3 lifo_s2_wf lifo_s2_valid_32 H3).
Defined.

Lemma live_items_disjoint_witness :
  pool_wf LP64 lifo_s2 1 []
  /\ valid_offset (pools lifo_s2 1) 0 /\ valid_offset (pools lifo_s2 1) 32
  /\ exists a1 a2,
       __rseq_percpu_ptr LP64 (handle_of LP64 1 0) 1 lifo_s2 = Ok a1
       /\ __rseq_percpu_ptr LP64 (handle_of LP64 1 32) 0 lifo_s2 = Ok a2
       /\ (a1 + item_len (pools lifo_s2 1) <= a2
           \/ a2 + item_len (pools lifo_s2 1) <= a1).
Proof.
  split; [exact lifo_s2_wf|]. split; [exact lifo_s2_valid_0|].
  split; [exact lifo_s2_valid_32|].
  apply (live_items_disjoint LP64 lifo_s2 1 [] 0 32 1 0 lifo_s2_wf
           lifo_s2_valid_0 lifo_s2_valid_32).
  - apply lifo_s2_cpu; lia.
  - apply lifo_s2_cpu; lia.
  - left. lia.
Defined.

Lemma live_item_data_preserved_witness :
  pool_wf LP64 lifo_s2 1 []
  /\ valid_offset (pools lifo_s2 1) 32
  /\ (forall zeroed h s',
        __rseq_percpu_malloc LP64 1 zeroed lifo_s2 = Ok (h, s') ->
        mem s' (base (pools lifo_s2 1) + percpu_len (pools lifo_s2 1) * 2 + 32 + 5)
        = mem lifo_s2 (base (pools lifo_s2 1) + percpu_len (pools lifo_s2 1) * 2 + 32 + 5))
  /\ (forall o' s',
        valid_offset (pools lifo_s2 1) o' -> ~ In o' [] -> o' <> 32 ->
        rseq_percpu_free LP64 (handle_of LP64 1 o') lifo_s2 = Ok s' ->
        mem s' (base (pools lifo_s2 1) + percpu_len (pools lifo_s2 1) * 2 + 32 + 5)
        = mem lifo_s2 (base (pools lifo_s2 1) + percpu_len (pools lifo_s2 1) * 2 + 32 + 5)).
Proof.
  split; [exact lifo_s2_wf|]. split; [exact lifo_s2_valid_32|].
  apply (live_item_data_preserved LP64 lifo_s2 1 [] 32 2 5 lifo_s2_wf
           lifo_s2_valid_32 (fun H => H)).
  - apply lifo_s2_cpu; lia.
  - change (0 <= 5 < 32). lia.
Defined.

Lemma malloc_returns_unused_item_witness :
  pool_wf LP64 lifo_s1 1 []
  /\ __rseq_percpu_malloc LP64 1 false lifo_s1 = Ok (lifo_h2, lifo_s2)
  /\ lifo_h2 <> 0
  /\ valid_offset (pools lifo_s1 1) 0
  /\ lifo_h2 <> handle_of LP64 1 0.
Proof.
  assert (H3 : lifo_h2 <> 0) by (vm_compute; discriminate).
  split; [exact lifo_s1_wf|]. split; [exact lifo_second_malloc|]. split; [exact H3|].
  split; [exact zero_valid_32|].
  exact (malloc_returns_unused_item LP64 1 false lifo_s1 [] lifo_h2 lifo_s2
           lifo_s1_wf lifo_second_malloc H3 0 zero_valid_32 (fun H => H)).
Defined.

Lemma pool_capacity_witness :
  pool_wf LP64 demo_state 1 []
  /\ bitmap_wf LP64 (pools demo_state 1)
  /\ next_unused (pools demo_state 1) = 0
  /\ exists s',
       malloc_n LP64 1 (Z.to_nat (percpu_len (pools demo_state 1)
                                  / item_len (pools demo_state 1))) demo_state
       = Ok (map (fun j => handle_of LP64 1
                             (Z.of_nat j * item_len (pools demo_state 1)))
                 (seq 0 (Z.to_nat (percpu_len (pools demo_state 1)
                                   / item_len (pools demo_state 1)))), s')
       /\ rseq_percpu_malloc LP64 1 s' = Ok (0, set_errno ENOMEM s').
Proof.
  assert (H2 : bitmap_wf LP64 (pools demo_state 1)) by exact I.
  split; [exact demo_state_wf|]. split; [exact H2|]. split; [reflexivity|].
  exact (pool_capacity LP64 1 demo_state demo_state_wf H2 eq_refl).
Defined.

Lemma two_pools_create :
  rseq_percpu_pool_create LP64 (mmap_at 2097152) munmap_ok 4096 true
    64 65536 2 None 0 demo_state = Ok (Some 2, two_pools_state).
Proof. reflexivity. Qed.

Lemma two_pools_wf_2 : pool_wf LP64 two_pools_state 2 [].
Proof.
  apply (pool_create_wf LP64 (mmap_at 2097152) munmap_ok 4096 true 64 65536 2
           None 0 demo_state); try reflexivity.
  vm_compute; repeat split; try reflexivity; try (intro; discriminate).
Qed.

Lemma two_pools_wf_1 : pool_wf LP64 two_pools_state 1 [].
Proof.
  pose proof demo_state_wf as [].
  split; try assumption; try reflexivity.
Qed.

Lemma two_pools_disjoint :
  disjoint_mappings (pools two_pools_state 1) (pools two_pools_state 2).
Proof.
  intros x H1 H2. unfold in_mapping in *.
  change (base (pools two_pools_state 1)) with 1048576 in H1.
  change (percpu_len (pools two_pools_state 1)) with 65536 in H1.
  change (max_nr_cpus (pools two_pools_state 1)) with 4 in H1.
  change (base (pools two_pools_state 2)) with 2097152 in H2.
  lia.
Qed.

Lemma pools_isolated_witness :
  pool_wf LP64 two_pools_state 1 [] /\ pool_wf LP64 two_pools_state 2 []
  /\ disjoint_mappings (pools two_pools_state 1) (pools two_pools_state 2)
  /\ (forall zeroed h s',
        __rseq_percpu_malloc LP64 1 zeroed two_pools_state = Ok (h, s') ->
        pools s' 2 = pools two_pools_state 2 /\ pool_wf LP64 s' 2 []
        /\ forall x, in_mapping (pools two_pools_state 2) x ->
                     mem s' x = mem two_pools_state x).
Proof.
  split; [exact two_pools_wf_1|]. split; [exact two_pools_wf_2|].
  split; [exact two_pools_disjoint|].
  refine (proj1 (pools_isolated LP64 1 2 two_pools_state [] []
                   two_pools_wf_1 two_pools_wf_2 _ two_pools_disjoint)).
  lia.
Defined.

Lemma pool_set_add_pool_spec_witness :
  pool_wf LP64 demo_state 1 []
  /\ POOL_SET_MIN_ENTRY LP64 <= item_order (pools demo_state 1)
     < POOL_SET_NR_ENTRIES LP64
  /\ rseq_percpu_pool_set_add_pool LP64 demo_set 1 demo_state
     = Ok (-1, demo_set, set_errno EBUSY demo_state)
  /\ exists set',
       rseq_percpu_pool_set_add_pool LP64 {| entries := fun _ => None |} 1 demo_state
       = Ok (0, set', demo_state)
       /\ entries set' (item_order (pools demo_state 1)) = Some 1.
Proof.
  split; [exact demo_state_wf|].
  pose proof (pool_set_add_pool_spec LP64 demo_set 1 demo_state [] demo_state_wf) as H1.
  pose proof (pool_set_add_pool_spec LP64 {| entries := fun _ => None |} 1
                demo_state [] demo_state_wf) as H2.
  cbv zeta in H1, H2. destruct H1 as [H1 H1'], H2 as [_ (set' & H2 & H2' & _)].
  split; [exact H1|]. split; [exact H1'|].
  exists set'. split; [exact H2|exact H2'].
Defined.

Lemma demo_set_destroy :
  rseq_percpu_pool_set_destroy LP64 demo_set demo_state
  = Ok (0, None, set_destroyed_state).
Proof. reflexivity. Qed.

Lemma demo_unmappable : unmappable LP64 (pools demo_state 1).
Proof.
  split; [vm_compute; discriminate|]. split; [reflexivity|].
  exists (default_munmap_func munmap_ok). split; [reflexivity|].
  intros e. reflexivity.
Qed.

Lemma pool_set_destroy_spec_witness :
  rseq_percpu_pool_set_destroy LP64 demo_set demo_state
  = Ok (0, None, set_destroyed_state)
  /\ mem set_destroyed_state = mem demo_state
  /\ pools set_destroyed_state 1 = zero_pool
  /\ pools set_destroyed_state 2 = pools demo_state 2.
Proof.
  split; [exact demo_set_destroy|].
  destruct (pool_set_destroy_spec LP64 demo_set demo_state 0 None set_destroyed_state
              demo_set_destroy) as (_ & _ & Hmem & _ & Hout & Hin).
  split; [exact Hmem|]. split.
  - apply (Hin 5 1); [vm_compute; split; [discriminate|reflexivity]|reflexivity|].
    exact demo_unmappable.
  - apply Hout. intros o _. cbn. unfold insert, fn_insert.
    destruct (decide (5 = o)); discriminate.
Defined.

Lemma rseq_percpu_ptr_steps_witness :
  0 <= 4096 < 2 ^ RSEQ_BITS_PER_LONG LP64
  /\ rseq_percpu_ptr LP64 4096 0 None = 4096
  /\ rseq_percpu_ptr LP64 4096 1 None = 4096 + 1 * stride_of LP64 None
  /\ rseq_percpu_ptr LP64 (rseq_percpu_ptr LP64 4096 1 None) 2 None
     = rseq_percpu_ptr LP64 4096 (1 + 2) None
  /\ stride_of LP64 None = 65536.
Proof.
  assert (H1 : 0 <= 4096 < 2 ^ RSEQ_BITS_PER_LONG LP64)
    by (vm_compute; split; [discriminate|reflexivity]).
  assert (H4 : (1 + 2 < 2 ^ 32)) by lia.
  split; [exact H1|].
  destruct (rseq_percpu_ptr_steps LP64 4096 None 1 2 H1 ltac:(lia) ltac:(lia) H4)
    as (Ha & Hb & Hc & Hd).
  split; [exact Ha|]. split; [|split; [exact Hc|exact Hd]].
  apply Hb. vm_compute. reflexivity.
Defined.

Lemma rseq_percpu_ptr_negative_cpu_witness :
  - 2 ^ 31 <= -1 < 0
  /\ rseq_percpu_ptr LP64 1048576 (-1) None
     = wrap LP64 (1048576 + (2 ^ 32 + -1) * stride_of LP64 None)
  /\ rseq_percpu_ptr ILP32 1048576 (-1) None
     = wrap ILP32 (1048576 + -1 * stride_of ILP32 None).
Proof.
  assert (H : - 2 ^ 31 <= -1 < 0) by lia.
  split; [exact H|]. split.
  - exact (rseq_percpu_ptr_negative_cpu LP64 1048576 None (-1) H).
  - exact (rseq_percpu_ptr_negative_cpu ILP32 1048576 None (-1) H).
Defined.

Lemma app_create :
  rseq_percpu_pool_create LP64 (mmap_at 1048576) munmap_ok 4096 true
    16 8192 2 (Some app_attr) 0 boot = Ok (Some 1, app_state).
Proof. reflexivity. Qed.

Lemma app_robust_create :
  rseq_percpu_pool_create LP64 (mmap_at 1048576) munmap_ok 4096 false
    16 8192 2 (Some app_attr) RSEQ_POOL_ROBUST boot = Ok (Some 1, app_robust_state).
Proof. reflexivity. Qed.

Lemma custom_mapping_round_trip_witness :
  rseq_mmap_attr_create true (Some app_mmap) (Some app_munmap) 1044480 = Some app_attr
  /\ rseq_percpu_pool_create LP64 (mmap_at 1048576) munmap_ok 4096 true
       16 8192 2 (Some app_attr) 0 boot = Ok (Some 1, app_state)
  /\ base (pools app_state 1) = 1048576
  /\ errno app_state = errno boot
  /\ rseq_percpu_pool_destroy LP64 1 app_state
     = Ok (0, set_pool 1 zero_pool app_state)
  /\ rseq_percpu_pool_create LP64 (mmap_at 1048576) munmap_ok 4096 false
       16 8192 2 (Some app_attr) RSEQ_POOL_ROBUST boot = Ok (Some 1, app_robust_state)
  /\ free_bitmap (pools app_robust_state 1) = None
  /\ errno app_robust_state = ENOMEM.
Proof.
  assert (H1 : rseq_mmap_attr_create true (Some app_mmap) (Some app_munmap) 1044480
               = Some app_attr) by reflexivity.
  split; [exact H1|]. split; [exact app_create|].
  destruct (custom_mapping_round_trip LP64 (mmap_at 1048576) munmap_ok 4096 true true
              16 8192 2 0 app_mmap app_munmap 1044480 app_attr boot 1 app_state
              H1 app_create) as (Hb & _ & He & Hd).
  destruct (custom_mapping_round_trip LP64 (mmap_at 1048576) munmap_ok 4096 false true
              16 8192 2 RSEQ_POOL_ROBUST app_mmap app_munmap 1044480 app_attr boot 1
              app_robust_state H1 app_robust_create) as (_ & _ & He' & _).
  split; [exact Hb|]. split; [exact He|]. split; [rewrite Hd; reflexivity|].
  split; [exact app_robust_create|]. split; [reflexivity|exact He'].
Defined.

Lemma default_backend_round_trip_witness :
  create64 32 65536 4 0 boot = Ok (Some 1, demo_state)
  /\ base (pools demo_state 1) = 1048576
  /\ base (pools demo_state 1) <> MAP_FAILED LP64.
Proof.
  split; [exact demo_create|].
  destruct (default_backend_round_trip LP64 (mmap_at 1048576) munmap_ok 4096 true
              32 65536 4 0 boot 1 demo_state demo_create) as (Hb & Hm & _).
  split; [exact Hb|]. rewrite Hb. exact Hm.
Defined.

Lemma pool_set_single_pool_witness :
  pool_wf LP64 demo_state 1 []
  /\ rseq_percpu_pool_set_create true = Some {| entries := fun _ => None |}
  /\ exists set1,
       rseq_percpu_pool_set_add_pool LP64 {| entries := fun _ => None |} 1 demo_state
       = Ok (0, set1, demo_state)
       /\ (forall len zeroed,
             len <= item_len (pools demo_state 1) ->
             __rseq_percpu_pool_set_malloc LP64 set1 len zeroed demo_state
             = __rseq_percpu_malloc LP64 1 zeroed demo_state)
       /\ (forall len zeroed,
             item_len (pools demo_state 1) < len ->
             __rseq_percpu_pool_set_malloc LP64 set1 len zeroed demo_state
             = Ok (0, set_errno ENOMEM demo_state)).
Proof.
  split; [exact demo_state_wf|]. split; [reflexivity|].
  exact (pool_set_single_pool LP64 1 demo_state [] _ demo_state_wf eq_refl).
Defined.

Lemma lifo_frees :
  free_all LP64 (map (handle_of LP64 1) [0; 32]) lifo_s2 = Ok lifo_s4.
Proof. reflexivity. Qed.

Lemma free_list_lifo_any_depth_witness :
  pool_wf LP64 lifo_s2 1 []
  /\ free_all LP64 (map (handle_of LP64 1) [0; 32]) lifo_s2 = Ok lifo_s4
  /\ exists s2,
       malloc_n LP64 1 (length [0; 32]) lifo_s4
       = Ok (map (handle_of LP64 1) (rev [0; 32]), s2)
       /\ pool_wf LP64 s2 1 [].
Proof.
  split; [exact lifo_s2_wf|]. split; [exact lifo_frees|].
  apply (free_list_lifo_any_depth LP64 1 lifo_s2 [] [0; 32] lifo_s4 lifo_s2_wf).
  - repeat constructor; cbn; lia.
  - intros o [<-|[<-|[]]]; (split; [|intros []]).
    + exact lifo_s2_valid_0.
    + exact lifo_s2_valid_32.
  - exact lifo_frees.
Defined.

Lemma robust_s2_wf : pool_wf LP64 robust_s2 1 [0].
Proof.
  exact (proj1 (free_push LP64 robust_s1 1 [] 0 robust_s2 robust_s1_wf zero_valid_8
                  (fun H => H) robust_first_free)).
Qed.

Lemma robust_destroy_misses_recycled_item_witness :
  pool_wf LP64 robust_s2 1 [0]
  /\ free_bitmap (pools robust_s2 1) = Some [0; 0; 0; 0; 0; 0; 0; 0]
  /\ exists s1 s2,
       __rseq_percpu_malloc LP64 1 false robust_s2 = Ok (handle_of LP64 1 0, s1)
       /\ handle_of LP64 1 0 <> 0
       /\ rseq_percpu_pool_destroy LP64 1 s1 = Ok (0, s2)
       /\ pools s2 1 = zero_pool.
Proof.
  assert (H2 : free_bitmap (pools robust_s2 1) = Some [0; 0; 0; 0; 0; 0; 0; 0])
    by reflexivity.
  split; [exact robust_s2_wf|]. split; [exact H2|].
  apply (robust_destroy_misses_recycled_item LP64 1 false robust_s2 0 [] _
           (default_munmap_func munmap_ok) robust_s2_wf H2).
  - vm_compute. reflexivity.
  - intros k w H.
    do 8 (destruct k as [|k]; [now injection H as <-|]). discriminate.
  - reflexivity.
  - intros e. reflexivity.
Defined.
